(* ===== verification/_CoqProject ===== *)
-Q . S2P
Prelude.v
Geometry.v
AngleReal.v
Types.v
SegmentGraph.v
Projector.v
FlowRenderer.v
StaticLayer.v
Scheduler.v
SchedulerSpec.v
TestScenarios.v
