(* ===== verification/Prelude.v ===== *)
(** * flow-chart: a verification development of [src/src/core/index.ts]

    ** The program

    [CreateImgLineFlow] draws images, labels and connections on one canvas
    and animates fading arrows along the connections on a second one.  Its
    parts, in the order data flows through them:
    - the constructor and [init()] run [combLine()], which splits every
      connection's points into segments, measures them, and links every
      segment whose end is another connection's segment's start (the
      Segment Graph Builder), then [handleDataBeforeDraw()], which gives
      every segment its screen pixels ([getScreen]), its angle ([getAngle])
      and its length (the Screen Projector);
    - [draw()] draws the static layer ([drawImage], [drawLine]) and starts
      [drawFlow()], whose [drawFrame] asks the host for animation frames,
      throttles them to [fps], advances the counter [arrowRunPx] modulo
      [stepSize + flowLength] and calls [drawOneArrow] (the Animation
      Scheduler); [clear()] cancels the last requested frame and clears both
      canvases;
    - [drawOneArrow] sets each connection's [lineSpace] ([setLineSpace]) and
      strokes, segment by segment, the arrows at cursors one step apart,
      clipped to the segment ([drawArrow], [getLinearGradient]): the Flow
      Renderer.

    ** The files

    - [Prelude.v] (this file): JavaScript numbers as rationals ([Q]) with
      [%] ([js_mod], NaN as [None]), [Math.round], [Math.min]; the option
      notation [let*] for [TypeError]s; in-place array update
      ([update_nth]), [forEach] over fallible bodies ([traverse_opt]); the
      shared list lemmas, the [js] hint databases and [Proper] instances.
    - [Geometry.v]: [Coordinate], [getScreen], [getAngle] (as the exact
      expression [atan(t) (+ PI)], [t] possibly infinite or NaN) and the
      segment length with [Math.sqrt]; [AngleReal.v]: the real value of an
      angle and what [ctx.rotate] by it does.
    - [Types.v]: the interfaces of lines 1-65 as records, segment references
      as index pairs into the shared store [list LineObj.t], and the
      configuration of [src/test/jest/createImgLineFlow.test.js].
    - [SegmentGraph.v] ([combLine], lines 163-203), [Projector.v]
      ([handleDataBeforeDraw], [init], lines 145-148 and 205-236),
      [FlowRenderer.v] ([drawOneArrow] and its closures, lines 395-472, and
      [setLineSpace], 487-503), [StaticLayer.v] ([drawImage], [drawLine],
      lines 238-388) and [Scheduler.v] (the constructor, [draw], [clear],
      [drawFlow] and its [drawFrame], lines 99-161 and 390-485);
      [SchedulerSpec.v] states the design's stopped/running machine and
      refines it; [TestScenarios.v] models the callback of the repository's
      Jest test and proves the design's projector scenarios.  Each is a Module holding the state it touches, one
      definition per function or closure of the source, the lemmas, the
      properties (doc comments [(C<n>)]) and their witnesses.

    State is passed explicitly.  The objects the source mutates in place and
    shares (a [SplitLine] pushed into another's [endLines]) are a store
    indexed by [(connection, segment)], so that a later read sees the
    earlier write as in the source.  The scheduler is a step function on a
    state holding the object's fields, the [lastTime] of every [drawFlow]
    closure and what the host holds (pending frame callbacks with their
    handles, pending image [onload]s, the calls made on each canvas since it
    was cleared); [Scheduler.reachable] closes it under events.  A canvas is
    the list of calls made on it.

    ** What is proved

    - Segment graph: [combLine] never throws on a configuration and builds
      one segment per pair of points with its length (C2); the imperative
      linking loop equals the declarative adjacency relation (C1, a
      refinement proof through an invariant of the four nested loops), which
      is symmetric (C20) and never links a connection to itself (C21); the
      segments chain end to start and join back into the connection's
      paths (C22, a round trip).
    - Projection: every segment gets pixels, angle and length (C7), and
      every reference in [endLines]/[startLines] names a segment of the
      store (C8, the store's type); consecutive segments share a pixel
      (C19), a second pass changes nothing (C30), and [init] leaves every
      connection's [originLength] at [0] (C23).  The angle's rotation points
      along the segment (C12); it is NaN exactly for coincident points and
      otherwise lies in [[-PI/2, 3PI/2)] (C29).  The design's scenarios hold
      for every axis-parallel two-point connection: one unlinked segment of
      the points' distance at angle [0], [PI], [PI/2] or [-PI/2] by its
      direction (C9, in [TestScenarios.v]; the last is outside the
      source comment's [0 - 2PI]).  A connection of fewer than two points
      gets no segment and the flow renderer draws nothing for it (C34).
    - Rendering: every stroke lies on its segment (C3), arrows keep their
      phase across segments (C4, C28), the loop ends with a positive step
      (C10) and never with a non-positive one (C27); a whole frame
      [drawOneArrow] returns with fuel [frame_fuel] when [flowLength >= 0]
      and every flow colour parses (C11).  The host's [addColorStop]
      throws for a stop outside [[0, 1]] and for a colour string that does
      not parse, and the model keeps these errors: a negative [flowLength]
      makes every gradient throw (C40).  C39 pins down an edge case.
    - Scheduling: the counter stays in [[0, stepSize + flowLength)] (C5) and
      wraps after [m] renders (C15); each closure has one pending frame
      (C16); under the hypotheses of C11 a fired frame always completes
      (C17), and [draw()] throws exactly on a label without style or a
      connection without points (C18); throttled and rendering frames do
      what [drawFrame] says (C24, C25); a loop never stops by itself
      (C26); [clear()] after one [draw()] stops everything (C13) but not
      after two (C14); images load after [clear()] (C36); [fps = 0]
      never renders (C38).
    - Design refinement ([SchedulerSpec.v]): runs that call [draw()] only
      while stopped refine the design's two-state stopped/running machine,
      by a step simulation on the invariant "at most one pending frame,
      whose handle is kept" (C6); a run that calls [draw()] while running
      is outside it ([test_run_violates_spec]).
    - Static layer: the four arrowheads are one shape (C31) placed beyond the
      line's end (C32); connection bodies follow the points (C33); labels
      (C37); images are drawn only by [onload] (C35).

    ** Bounds, fuel and what is not modelled

    The [while] loop of [drawOneArrow] runs on fuel: [FlowRenderer.loop_bound]
    ([ceil((L - n) / step)]) plus one turn is enough for a positive step
    (C10), and no fuel is enough for a non-positive one (C27), so a run that
    exhausts the fuel is one the browser never finishes.  A frame needs at
    most [FlowRenderer.frame_fuel], the largest [seg_fuel] =
    [ceil((L + step) / step) + 1] over the store's segments, since every
    first cursor lies within one step before the segment's start (C28);
    [Scheduler.frame_completes] (C17) assumes the fuel covers it.  Numbers
    are exact rationals: IEEE rounding is not modelled (the data are pixel
    coordinates, exact in doubles), [Math.sqrt] is a floor root at
    [2^-32] precision, exact on axis-parallel segments, and
    [Math.atan]/[Math.PI] are real numbers.

    Not modelled: rasterisation, the rendering of gradients, and fonts
    (the host's; [ctx.measureText] is a parameter); the DOM setup of the
    test (lines 3-10: [createElement], [appendChild]), its Jest
    configuration (not in the repository: [require] of an image url is
    taken to resolve) and Jest's runner, which does not wait for the
    test's [setTimeout]; the generated
    [src/types/core/index.d.ts], which repeats the interfaces [Types.v]
    models; and the canvas state after a [TypeError] (a thrown [draw()] is
    [None]).  Every function of [index.ts] is modelled; the lines the map
    leaves out are comments, the class's closing brace and its
    [export]. *)

From Stdlib Require Import QArith Qround Qabs ZArith Lia Lqa List Bool.
From Stdlib Require Import Morphisms RelationClasses.
Import ListNotations.

(** ** JavaScript numbers

    The program computes with JavaScript numbers.  The development models a
    finite JavaScript number by a rational [Q]; the rounding of IEEE-754
    doubles is not modelled (the program's data are pixel coordinates, exact in
    a double).  NaN, the only non-finite value the program reaches through
    [%], is the [None] of an [option Q]; the infinities reached through [/]
    are modelled where they arise, in [Geometry.v]. *)

Declare Scope js_scope.
Delimit Scope js_scope with js.

(** The comparison operators [<], [<=] and [==] of the source on numbers. *)
Definition qltb (a b : Q) : bool := negb (Qle_bool b a).
Definition qleb (a b : Q) : bool := Qle_bool a b.
Definition qeqb (a b : Q) : bool := Qeq_bool a b.

Notation "a <? b" := (qltb a b) (at level 70, no associativity) : js_scope.
Notation "a <=? b" := (qleb a b) (at level 70, no associativity) : js_scope.
Notation "a =? b" := (qeqb a b) (at level 70, no associativity) : js_scope.

Open Scope Q_scope.
Open Scope js_scope.

(** ECMAScript [ToIntegerOrInfinity] on a finite number: truncation toward 0. *)
Definition Qtrunc (q : Q) : Z :=
  if 0 <=? q then Qfloor q else (- Qfloor (- q))%Z.

(** [a % b]: the remainder takes the sign of the dividend; [x % 0] is NaN. *)
Definition js_mod (a b : Q) : option Q :=
  if b =? 0 then None else Some (a - b * inject_Z (Qtrunc (a / b))).

(** [Math.round]: the nearest integer, halves rounded toward +infinity. *)
Definition js_round (q : Q) : Z := Qfloor (q + (1 # 2)).

(** [Math.min] of two numbers. *)
Definition js_min (a b : Q) : Q := if a <=? b then a else b.

(** [arr.forEach(v => acc += v)] starting from [0]. *)
Definition qsum (l : list Q) : Q := fold_left Qplus l 0.

(** Equality of optional numbers up to [Qeq]. *)
Definition opt_qeq (o1 o2 : option Q) : Prop :=
  match o1, o2 with
  | Some a, Some b => a == b
  | None, None => True
  | _, _ => False
  end.

(** ** Reflection of the comparisons *)

Lemma qltb_spec a b : reflect (a < b) (a <? b).
Proof.
  unfold qltb. destruct (Qle_bool b a) eqn:E; constructor.
  - apply Qle_bool_iff in E. lra.
  - apply Qnot_le_lt. intro H'. apply Qle_bool_iff in H'. congruence.
Qed.

Lemma qleb_spec a b : reflect (a <= b) (a <=? b).
Proof.
  unfold qleb. destruct (Qle_bool a b) eqn:E; constructor.
  - now apply Qle_bool_iff.
  - intro H. apply Qle_bool_iff in H. congruence.
Qed.

Lemma qeqb_spec a b : reflect (a == b) (a =? b).
Proof.
  unfold qeqb. destruct (Qeq_bool a b) eqn:E; constructor.
  - now apply Qeq_bool_iff.
  - intro H. apply Qeq_bool_iff in H. congruence.
Qed.

(** [qcase] splits on the first comparison of the goal, with its meaning. *)
Ltac qcase :=
  match goal with
  | |- context [qltb ?a ?b] => destruct (qltb_spec a b)
  | |- context [qleb ?a ?b] => destruct (qleb_spec a b)
  | |- context [qeqb ?a ?b] => destruct (qeqb_spec a b)
  end.

(** [qcase_in H] does the same in a hypothesis. *)
Ltac qcase_in H :=
  match type of H with
  | context [qltb ?a ?b] => destruct (qltb_spec a b)
  | context [qleb ?a ?b] => destruct (qleb_spec a b)
  | context [qeqb ?a ?b] => destruct (qeqb_spec a b)
  end.

Create HintDb js.
Create Rewrite HintDb js_rw.

(** ** Truncation and remainder *)

Lemma Qtrunc_nonneg q : 0 <= q -> inject_Z (Qtrunc q) <= q < inject_Z (Qtrunc q) + 1.
Proof.
  intro H. unfold Qtrunc. qcase; [|lra].
  pose proof (Qfloor_le q). pose proof (Qlt_floor q).
  rewrite inject_Z_plus in *. change (inject_Z 1) with 1 in *. split; lra.
Qed.

Lemma Qtrunc_neg q : q < 0 -> inject_Z (Qtrunc q) - 1 < q <= inject_Z (Qtrunc q).
Proof.
  intro H. unfold Qtrunc. qcase; [lra|].
  pose proof (Qfloor_le (- q)). pose proof (Qlt_floor (- q)).
  rewrite inject_Z_plus, inject_Z_opp in *. change (inject_Z 1) with 1 in *. split; lra.
Qed.

#[export] Instance Qtrunc_proper : Proper (Qeq ==> eq) Qtrunc.
Proof.
  intros a b E. unfold Qtrunc.
  do 2 qcase; try lra.
  - now apply Qfloor_comp.
  - f_equal. apply Qfloor_comp. now rewrite E.
Qed.

#[export] Instance opt_qeq_equiv : Equivalence opt_qeq.
Proof.
  split.
  - intros [a|]; simpl; [reflexivity|exact I].
  - intros [a|] [b|]; simpl; auto. intro; symmetry; auto.
  - intros [a|] [b|] [c|]; simpl; try tauto. intros; etransitivity; eauto.
Qed.

#[export] Instance js_mod_proper : Proper (Qeq ==> Qeq ==> opt_qeq) js_mod.
Proof.
  intros a a' Ea b b' Eb. unfold js_mod.
  do 2 qcase; unfold opt_qeq; try lra; auto.
  assert (E : Qtrunc (a / b) = Qtrunc (a' / b')) by (apply Qtrunc_proper; now rewrite Ea, Eb).
  rewrite E, Ea, Eb. reflexivity.
Qed.

Lemma js_mod_zero a b : b == 0 -> js_mod a b = None.
Proof. intro H. unfold js_mod. qcase; [reflexivity | contradiction]. Qed.

Lemma js_mod_some a b r :
  js_mod a b = Some r -> ~ b == 0 /\ r == a - b * inject_Z (Qtrunc (a / b)).
Proof.
  unfold js_mod. qcase; [discriminate|]. intros [= <-]. split; [assumption | reflexivity].
Qed.

(** The remainder differs from the dividend by a whole multiple of the divisor. *)
Lemma js_mod_multiple a b r : js_mod a b = Some r -> exists k : Z, a == r + inject_Z k * b.
Proof.
  intros [_ Hr]%js_mod_some. exists (Qtrunc (a / b)). rewrite Hr. ring.
Qed.

Section PositiveDivisor.
Variable b : Q.
Hypothesis Hb : 0 < b.

Lemma js_mod_some_pos a : exists r, js_mod a b = Some r.
  Proof. unfold js_mod. qcase; [lra|]. eauto. Qed.

Lemma js_mod_nonneg_bound a r : 0 <= a -> js_mod a b = Some r -> 0 <= r < b.
  Proof.
    intros Ha [_ Hr]%js_mod_some. rewrite Hr.
    assert (Hq : b * (a / b) == a) by (apply Qmult_div_r; lra).
    assert (0 <= a / b) by (apply Qle_shift_div_l; lra).
    destruct (Qtrunc_nonneg (a / b)) as [H1 H2]; [assumption|].
    set (t := inject_Z (Qtrunc (a / b))) in *. set (q := a / b) in *.
    split; nra.
  Qed.

Lemma js_mod_neg_bound a r : a < 0 -> js_mod a b = Some r -> - b < r <= 0.
  Proof.
    intros Ha [_ Hr]%js_mod_some. rewrite Hr.
    assert (Hq : b * (a / b) == a) by (apply Qmult_div_r; lra).
    assert (a / b < 0).
    { apply Qlt_shift_div_r; lra. }
    destruct (Qtrunc_neg (a / b)) as [H1 H2]; [assumption|].
    set (t := inject_Z (Qtrunc (a / b))) in *. set (q := a / b) in *.
    split; nra.
  Qed.
End PositiveDivisor.

(** On integers, [a % b] with [0 <= a] and [0 < b] is [Z.modulo]. *)
Lemma js_mod_int (a b : Z) :
  (0 <= a)%Z -> (0 < b)%Z ->
  exists r, js_mod (inject_Z a) (inject_Z b) = Some r /\ r == inject_Z (a mod b).
Proof.
  intros Ha Hb.
  assert (Hbq : 0 < inject_Z b) by (change 0 with (inject_Z 0); rewrite <- Zlt_Qlt; exact Hb).
  destruct (js_mod_some_pos _ Hbq (inject_Z a)) as [r Hr]. exists r. split; [exact Hr|].
  assert (Haq : 0 <= inject_Z a) by (change 0 with (inject_Z 0); rewrite <- Zle_Qle; exact Ha).
  pose proof (js_mod_nonneg_bound _ Hbq _ _ Haq Hr) as Hbd.
  apply js_mod_some in Hr as [_ Hr].
  set (t := Qtrunc (inject_Z a / inject_Z b)) in *.
  assert (E : r == inject_Z (a - b * t)) by (rewrite Hr, <- Z.add_opp_r, inject_Z_plus, inject_Z_opp, inject_Z_mult; ring).
  rewrite E in Hbd |- *. apply inject_Z_injective.
  apply (Z.mod_unique a b t); [left; split|ring].
  - rewrite Zle_Qle. apply Hbd.
  - rewrite Zlt_Qlt. apply Hbd.
Qed.

(** ** Rounding *)

Lemma js_round_bound q : q - (1 # 2) < inject_Z (js_round q) <= q + (1 # 2).
Proof.
  unfold js_round. pose proof (Qfloor_le (q + (1 # 2))). pose proof (Qlt_floor (q + (1 # 2))).
  rewrite inject_Z_plus in *. change (inject_Z 1) with 1 in *. split; lra.
Qed.

Lemma js_round_int (z : Z) : js_round (inject_Z z) = z.
Proof.
  unfold js_round. set (f := Qfloor (inject_Z z + (1 # 2))).
  pose proof (Qfloor_le (inject_Z z + (1 # 2))) as H1.
  pose proof (Qlt_floor (inject_Z z + (1 # 2))) as H2. fold f in H1, H2.
  assert (inject_Z f < inject_Z (z + 1)) as H3
    by (rewrite inject_Z_plus; change (inject_Z 1) with 1; lra).
  assert (inject_Z z < inject_Z (f + 1)) as H4 by lra.
  rewrite <- Zlt_Qlt in H3, H4. lia.
Qed.

#[export] Hint Resolve js_round_bound Qtrunc_nonneg Qtrunc_neg : js.

(** ** Sums *)

Lemma fold_left_Qplus_acc (l : list Q) a : fold_left Qplus l a == a + qsum l.
Proof.
  unfold qsum. revert a. induction l as [|x l IH]; intro a; simpl; [ring|].
  rewrite (IH (a + x)), (IH (0 + x)). ring.
Qed.

Lemma qsum_cons x l : qsum (x :: l) == x + qsum l.
Proof. unfold qsum at 1. simpl. rewrite fold_left_Qplus_acc. ring. Qed.

Lemma qsum_app l1 l2 : qsum (l1 ++ l2) == qsum l1 + qsum l2.
Proof. unfold qsum at 1. rewrite fold_left_app, fold_left_Qplus_acc. reflexivity. Qed.

#[export] Hint Rewrite qsum_cons qsum_app : js_rw.

(** ** Errors and arrays

    A [TypeError] (reading a field of [undefined]) is the [None] of an
    [option]; [let*] sequences such computations. *)

Notation "'let*' x ':=' e 'in' f" :=
  (match e with Some x => f | None => None end)
  (at level 10, x name, e at level 100, f at level 200) : js_scope.

(** A destructuring default [{ f = d } = obj]: [d] when the field is
    [undefined]. *)
Definition dflt {A} (d : A) (o : option A) : A :=
  match o with Some v => v | None => d end.

(** [arr[i] = f(arr[i])] on an array of objects; out of range nothing changes. *)
Fixpoint update_nth {A} (i : nat) (f : A -> A) (l : list A) {struct l} : list A :=
  match l, i with
  | [], _ => []
  | a :: l', O => f a :: l'
  | a :: l', S i' => a :: update_nth i' f l'
  end.

Lemma update_nth_length {A} i (f : A -> A) l : length (update_nth i f l) = length l.
Proof. revert i; induction l as [|a l IH]; intros [|i]; simpl; auto. Qed.

Lemma nth_error_update_nth_eq {A} i (f : A -> A) l :
  nth_error (update_nth i f l) i = option_map f (nth_error l i).
Proof. revert i; induction l as [|a l IH]; intros [|i]; simpl; auto. Qed.

Lemma nth_error_update_nth_ne {A} i j (f : A -> A) l :
  i <> j -> nth_error (update_nth i f l) j = nth_error l j.
Proof.
  revert i j; induction l as [|a l IH]; intros [|i] [|j] H; simpl; auto; try congruence.
Qed.

Lemma nth_error_update_nth {A} i j (f : A -> A) l :
  nth_error (update_nth i f l) j =
  if Nat.eqb i j then option_map f (nth_error l j) else nth_error l j.
Proof.
  destruct (Nat.eqb_spec i j) as [->|H].
  - apply nth_error_update_nth_eq.
  - now apply nth_error_update_nth_ne.
Qed.

Lemma update_nth_id {A} i (f : A -> A) l :
  (forall a, nth_error l i = Some a -> f a = a) -> update_nth i f l = l.
Proof.
  revert i; induction l as [|a l IH]; intros [|i] H; simpl; auto.
  - rewrite H; auto.
  - f_equal. apply IH. exact H.
Qed.

#[export] Hint Rewrite @update_nth_length @nth_error_update_nth_eq : js_rw.

(** [arr.forEach(f)] where [f] may throw: the first failure aborts. *)
Fixpoint traverse_opt {A B} (f : A -> option B) (l : list A) : option (list B) :=
  match l with
  | [] => Some []
  | a :: l' => let* b := f a in let* bs := traverse_opt f l' in Some (b :: bs)
  end.

Lemma traverse_opt_length {A B} (f : A -> option B) l l' :
  traverse_opt f l = Some l' -> length l' = length l.
Proof.
  revert l'; induction l as [|a l IH]; intros l' H; simpl in H.
  - now injection H as <-.
  - destruct (f a); [|discriminate]. destruct (traverse_opt f l) eqn:E; [|discriminate].
    injection H as <-. simpl. f_equal. now apply IH.
Qed.

Lemma traverse_opt_Forall2 {A B} (f : A -> option B) l l' :
  traverse_opt f l = Some l' -> Forall2 (fun a b => f a = Some b) l l'.
Proof.
  revert l'; induction l as [|a l IH]; intros l' H; simpl in H.
  - injection H as <-. constructor.
  - destruct (f a) eqn:Ea; [|discriminate]. destruct (traverse_opt f l) eqn:E; [|discriminate].
    injection H as <-. constructor; auto.
Qed.

Lemma Forall2_In_r {A B} (R : A -> B -> Prop) l l' b :
  Forall2 R l l' -> In b l' -> exists a, In a l /\ R a b.
Proof.
  intros H. induction H as [|a b' l l' Hab _ IH]; simpl; [intros []|].
  intros [E|Hb]; [subst; eauto|]. destruct (IH Hb) as [a' [Ha' Hr]]. eauto.
Qed.

Lemma traverse_opt_Some {A B} (f : A -> option B) l :
  (forall a, In a l -> f a <> None) -> exists l', traverse_opt f l = Some l'.
Proof.
  induction l as [|a l IH]; intros H; simpl; [eauto|].
  destruct (f a) eqn:Ea; [|exfalso; apply (H a); [left; reflexivity | exact Ea]].
  assert (Hl : forall y, In y l -> f y <> None) by (intros y Hy; apply H; right; exact Hy).
  destruct (IH Hl) as [l' ->]. eauto.
Qed.

(** Nested [forEach] loops are one loop over the concatenated iterations. *)
Lemma fold_left_flat_map {A B C} (f : A -> C -> A) (g : B -> list C) l a :
  fold_left f (flat_map g l) a = fold_left (fun acc x => fold_left f (g x) acc) l a.
Proof. revert a; induction l as [|x l IH]; intro a; simpl; [reflexivity|]. now rewrite fold_left_app. Qed.

Lemma fold_left_map' {A B C} (f : A -> C -> A) (g : B -> C) l a :
  fold_left f (map g l) a = fold_left (fun acc x => f acc (g x)) l a.
Proof. revert a; induction l as [|x l IH]; intro a; simpl; auto. Qed.

Lemma fold_left_filter {A B} (f : A -> B -> A) (p : B -> bool) l a :
  fold_left f (filter p l) a = fold_left (fun acc x => if p x then f acc x else acc) l a.
Proof. revert a; induction l as [|x l IH]; intro a; simpl; [reflexivity|]. destruct (p x); simpl; apply IH. Qed.

Lemma map_update_nth_id {A B} (g : A -> B) i (f : A -> A) l :
  (forall a, g (f a) = g a) -> map g (update_nth i f l) = map g l.
Proof. intro H. revert i; induction l as [|a l IH]; intros [|i]; simpl; f_equal; auto. Qed.

Lemma fold_left_ext_in {A B} (f g : A -> B -> A) l a :
  (forall acc x, In x l -> f acc x = g acc x) -> fold_left f l a = fold_left g l a.
Proof.
  revert a; induction l as [|x l IH]; intros a H; simpl; [reflexivity|].
  rewrite H by (left; reflexivity). apply IH. intros; apply H; right; assumption.
Qed.

Lemma fold_left_const {A B} (l : list B) (a : A) : fold_left (fun acc _ => acc) l a = a.
Proof. revert a; induction l; simpl; auto. Qed.

Lemma filter_nil_all {B} (P : B -> bool) l : (forall p, In p l -> P p = false) -> filter P l = [].
Proof.
  induction l as [|x l IH]; intro H; simpl; [reflexivity|].
  rewrite H by (left; reflexivity). apply IH. intros; apply H; right; assumption.
Qed.

Lemma NoDup_flat_map {B C} (g : B -> list C) l :
  NoDup l -> (forall x, In x l -> NoDup (g x)) ->
  (forall x y z, In x l -> In y l -> In z (g x) -> In z (g y) -> x = y) ->
  NoDup (flat_map g l).
Proof.
  induction l as [|x l IH]; intros HN Hg Hd; simpl; [constructor|].
  inversion HN as [|? ? Hx HN']; subst.
  apply NoDup_app.
  - apply Hg; left; reflexivity.
  - apply IH; auto. intros; apply Hg; right; assumption.
    intros a b z ? ? ? ?. apply (Hd a b z); auto; right; assumption.
  - intros z Hz Hz'. apply in_flat_map in Hz' as [y [Hy Hzy]].
    assert (x = y) by (apply (Hd x y z); auto; [left|right]; auto). subst. contradiction.
Qed.

(** ** Pairs of a list

    The iterations [(a, b)] of two nested loops, [b] ranging over a list
    [S a] that depends on [a]; filtering them on one component. *)
Section PairLists.
Context {A : Type} (eqb : A -> A -> bool).
Hypothesis eqb_spec : forall a b, reflect (a = b) (eqb a b).

Definition pairs_with (S : A -> list A) (R : list A) : list (A * A) :=
    flat_map (fun a => map (pair a) (S a)) R.

Lemma filter_map_pair (a : A) (P : A * A -> bool) l :
    filter P (map (pair a) l) = map (pair a) (filter (fun b => P (a, b)) l).
  Proof. induction l as [|b l IH]; simpl; [reflexivity|]. destruct (P (a, b)); simpl; f_equal; auto. Qed.

Lemma in_pairs_with S R p : In p (pairs_with S R) <-> In (fst p) R /\ In (snd p) (S (fst p)).
  Proof.
    unfold pairs_with. rewrite in_flat_map. split.
    - intros [a [Ha Hp]]. apply in_map_iff in Hp as [b [<- Hb]]. simpl. auto.
    - destruct p as [a b]; simpl. intros [Ha Hb]. exists a. split; [assumption|]. apply in_map; assumption.
  Qed.

  (** The second components paired with [c]. *)
Lemma pairs_with_fst S R c (Q : A -> A -> bool) :
    NoDup R -> In c R ->
    map snd (filter (fun p => eqb (fst p) c && Q (fst p) (snd p)) (pairs_with S R)) = filter (Q c) (S c).
  Proof.
    induction R as [|a R IH]; intros HN Hin; [destruct Hin|].
    inversion HN as [|? ? Hna HNR]; subst.
    unfold pairs_with in *. simpl. rewrite filter_app, map_app, filter_map_pair, map_map. simpl.
    destruct (eqb_spec a c) as [<-|Hne]; simpl.
    - rewrite map_id, (filter_nil_all _ (flat_map _ R)); [simpl; apply app_nil_r|].
      intros p Hp. apply (in_pairs_with S R p) in Hp as [Hp _].
      destruct (eqb_spec (fst p) a); [subst; contradiction | reflexivity].
    - rewrite filter_nil_all; [|reflexivity]. simpl. apply IH; [assumption|].
      destruct Hin; [contradiction | assumption].
  Qed.

Lemma filter_eq_single l c (P : A -> bool) :
    NoDup l -> (P c = true -> In c l) ->
    filter (fun b => eqb b c && P b) l = if P c then [c] else [].
  Proof.
    induction l as [|b l IH]; intros HN Hin; simpl.
    - destruct (P c); [destruct (Hin eq_refl)|]; reflexivity.
    - inversion HN as [|? ? Hb HN']; subst.
      destruct (eqb_spec b c) as [<-|Hne]; simpl.
      + destruct (P b); [|apply IH; auto; discriminate].
        f_equal. apply filter_nil_all. intros p Hp.
        destruct (eqb_spec p b); [subst; contradiction | reflexivity].
      + apply IH; [assumption|]. intro H. destruct (Hin H); [congruence | assumption].
  Qed.

  (** The first components paired with [c]. *)
Lemma pairs_with_snd S R c (Q : A -> A -> bool) :
    (forall a, In a R -> NoDup (S a)) -> (forall a, In a R -> Q a c = true -> In c (S a)) ->
    map fst (filter (fun p => eqb (snd p) c && Q (fst p) (snd p)) (pairs_with S R)) =
    filter (fun a => Q a c) R.
  Proof.
    induction R as [|a R IH]; intros HN Hin; [reflexivity|].
    unfold pairs_with in *. simpl. rewrite filter_app, map_app, filter_map_pair, map_map. simpl.
    rewrite (filter_eq_single (S a) c (Q a)); [| apply HN; left; reflexivity | apply Hin; left; reflexivity].
    rewrite IH; [| intros; apply HN; right; assumption | intros; apply Hin; [right|]; assumption].
    destruct (Q a c); reflexivity.
  Qed.
End PairLists.

Lemma NoDup_map_pair {A B} (a : A) (l : list B) : NoDup l -> NoDup (map (pair a) l).
Proof.
  induction 1 as [|x l Hx _ IH]; simpl; constructor; [|assumption].
  intro H. apply in_map_iff in H as [y [[= ->] Hy]]. contradiction.
Qed.

Lemma filter_filter_impl {A} (P Q : A -> bool) l :
  (forall x, P x = true -> Q x = true) -> filter P (filter Q l) = filter P l.
Proof.
  intro H. induction l as [|x l IH]; simpl; [reflexivity|].
  destruct (P x) eqn:Ex.
  - rewrite (H x Ex). simpl. rewrite Ex. f_equal. exact IH.
  - destruct (Q x); simpl; [rewrite Ex|]; exact IH.
Qed.

Lemma traverse_opt_None {A B} (f : A -> option B) l :
  traverse_opt f l = None <-> exists a, In a l /\ f a = None.
Proof.
  split.
  - intros H. destruct (List.Exists_dec (fun a => f a = None) l) as [E|E].
    + intros a. destruct (f a); [right; discriminate|left; reflexivity].
    + apply Exists_exists in E. exact E.
    + exfalso. destruct (traverse_opt_Some f l) as [l' Hl'].
      * intros a Ha Hn. apply E, Exists_exists. eauto.
      * congruence.
  - intros [a [Ha Hn]]. induction l as [|b l IH]; [destruct Ha|]. simpl.
    destruct Ha as [<-|Ha]; [now rewrite Hn|].
    destruct (f b); [now rewrite IH|reflexivity].
Qed.

Lemma traverse_opt_map_Some {A B} (f : A -> option B) (g : A -> B) l :
  (forall a, In a l -> f a = Some (g a)) -> traverse_opt f l = Some (map g l).
Proof.
  induction l as [|a l IH]; intro H; simpl; [reflexivity|].
  rewrite H by (left; reflexivity). rewrite IH by (intros; apply H; right; assumption). reflexivity.
Qed.

Lemma Forall2_nth_error {A B} (R : A -> B -> Prop) l l' i :
  Forall2 R l l' ->
  match nth_error l i, nth_error l' i with
  | Some a, Some b => R a b
  | None, None => True
  | _, _ => False
  end.
Proof.
  intros H. revert i. induction H as [|a b l l' Hab _ IH]; intros i.
  - destruct i; exact I.
  - destruct i; simpl; [exact Hab|apply IH].
Qed.

Lemma traverse_opt_nth {A B} (f : A -> option B) l l' i b :
  traverse_opt f l = Some l' -> nth_error l' i = Some b -> exists a, nth_error l i = Some a /\ f a = Some b.
Proof.
  revert l' i; induction l as [|a l IH]; intros l' i H Hb; simpl in H.
  - injection H as <-. destruct i; discriminate.
  - destruct (f a) eqn:Ea; [|discriminate]. destruct (traverse_opt f l) eqn:E; [|discriminate].
    injection H as <-. destruct i as [|i]; simpl in Hb.
    + injection Hb as <-. exists a. split; [reflexivity | assumption].
    + exact (IH _ _ eq_refl Hb).
Qed.

Lemma traverse_opt_nth_None {A B} (f : A -> option B) l l' i :
  traverse_opt f l = Some l' -> nth_error l' i = None -> nth_error l i = None.
Proof.
  intros H Hn. apply nth_error_None. apply nth_error_None in Hn.
  rewrite <- (traverse_opt_length f l l' H). exact Hn.
Qed.
