(* ===== verification/Geometry.v ===== *)
(** * Geometry: coordinates, [getScreen], [getAngle] and [Math.sqrt]

    The two free functions at the top of [src/src/core/index.ts]:
    [getAngle] (lines 74-80) and [getScreen] (lines 87-97), and the square
    root used by [combLine] for segment lengths.  [Math.atan] and [Math.PI] are
    not rational, so [getAngle] returns the exact expression it evaluates,
    [atan(t) (+ PI)], as an [Angle] whose argument [t] is a JavaScript number
    that may be infinite or NaN; [AngleReal.v] gives it its real value. *)

From Stdlib Require Import QArith Qround Qabs ZArith Lia Lqa String.
From S2P Require Import Prelude.

Open Scope Q_scope.
Open Scope js_scope.

(** [interface Coordinate { x: number; y: number }] (index.ts lines 4-7). *)
Record Coordinate := mkCoord { x : Q; y : Q }.

(** A JavaScript number that may be non-finite: the result of [/]. *)
Inductive jsnum :=
| JFin (q : Q)
| JPosInf
| JNegInf
| JNaN.

(** [a / b].  The divisor of [getAngle] is a difference [u - v] of finite
    numbers, which is [+0] when [u = v]; so a zero divisor is [+0] and
    [a / +0] is [+Infinity], [-Infinity] or NaN by the sign of [a]. *)
Definition js_div (a b : Q) : jsnum :=
  if b =? 0 then
    (if a =? 0 then JNaN else if 0 <? a then JPosInf else JNegInf)
  else JFin (a / b).

(** The value [Math.atan(t) + (plus_pi ? Math.PI : 0)]. *)
Record Angle := mkAngle { atan_arg : jsnum; plus_pi : bool }.

(** [getAngle(fromPixel, toPixel, origin = 'top')]. *)
Definition getAngle (fromPixel toPixel : Coordinate) (origin : string) : Angle :=
  let flag := if String.eqb origin "top" then 1 else -1 in
  {| atan_arg := js_div ((y toPixel - y fromPixel) * flag) (x toPixel - x fromPixel);
     plus_pi := x toPixel - x fromPixel <? 0 |}.

(** [getScreen(originPoint, referencePoint)]: difference, rounded per axis. *)
Definition getScreen (originPoint referencePoint : Coordinate) : Coordinate :=
  {| x := inject_Z (js_round (x originPoint - x referencePoint));
     y := inject_Z (js_round (y originPoint - y referencePoint)) |}.

(** [Math.sqrt] on a non-negative number, as the square root rounded down to
    a multiple of [1 / (den * 2^32)]: exact whenever the argument is the square
    of a rational written as [a*a / (b*b)], as [Math.pow(x, 2) + Math.pow(y, 2)]
    is for an axis-parallel segment. *)
Definition sqrt_scale : positive := Pos.pow 2 32.

Definition js_sqrt (q : Q) : Q :=
  Z.sqrt (Qnum q * Zpos (Qden q) * Zpos sqrt_scale * Zpos sqrt_scale) # (Qden q * sqrt_scale).

(** [Math.abs]. *)
Definition js_abs (q : Q) : Q := Qabs q.

(** [Math.pow(v, 2)]. *)
Definition js_pow2 (q : Q) : Q := q * q.

(** The distance [Math.sqrt(Math.pow(|dx|,2) + Math.pow(|dy|,2))] of
    [combLine] (index.ts lines 182-184). *)
Definition distance (x0 y0 x1 y1 : Q) : Q :=
  let dx := js_abs (x0 - x1) in
  let dy := js_abs (y0 - y1) in
  js_sqrt (js_pow2 dx + js_pow2 dy).

(** ** Lemmas *)

Lemma js_div_fin a b : ~ b == 0 -> js_div a b = JFin (a / b).
Proof. intro H. unfold js_div. destruct (qeqb_spec b 0); [contradiction | reflexivity]. Qed.

Lemma getScreen_bound p r :
  x p - x r - (1 # 2) < x (getScreen p r) <= x p - x r + (1 # 2) /\
  y p - y r - (1 # 2) < y (getScreen p r) <= y p - y r + (1 # 2).
Proof. simpl. split; apply js_round_bound. Qed.

Lemma js_sqrt_nonneg q : 0 <= js_sqrt q.
Proof.
  unfold js_sqrt, Qle. simpl. rewrite Z.mul_1_r.
  pose proof (Z.sqrt_nonneg (Qnum q * Zpos (Qden q) * Zpos sqrt_scale * Zpos sqrt_scale)). lia.
Qed.

(** Exactness on squares [a*a / (b*b)]. *)
Lemma js_sqrt_square q (a : Z) (b : positive) :
  (0 <= a)%Z -> Qnum q = (a * a)%Z -> Qden q = (b * b)%positive -> js_sqrt q == a # b.
Proof.
  intros Ha Hn Hd. unfold js_sqrt. rewrite Hn, Hd.
  replace (a * a * Zpos (b * b) * Zpos sqrt_scale * Zpos sqrt_scale)%Z
    with ((a * Zpos b * Zpos sqrt_scale) * (a * Zpos b * Zpos sqrt_scale))%Z by (rewrite Pos2Z.inj_mul; ring).
  rewrite Z.sqrt_square by lia.
  unfold Qeq. simpl. rewrite !Pos2Z.inj_mul. ring.
Qed.

(** The modelled root never exceeds the true one: [r * r <= q]. *)
Lemma js_sqrt_sq_le q : 0 <= q -> js_sqrt q * js_sqrt q <= q.
Proof.
  intro Hq. unfold js_sqrt, Qle, Qmult. simpl.
  set (N := (Qnum q * Zpos (Qden q) * Zpos sqrt_scale * Zpos sqrt_scale)%Z).
  assert (0 <= Qnum q)%Z by (unfold Qle in Hq; simpl in Hq; lia).
  assert (0 <= N)%Z by (unfold N; lia).
  destruct (Z.sqrt_spec N) as [Hs _]; [assumption|].
  rewrite !Pos2Z.inj_mul.
  set (s := Z.sqrt N) in *. set (d := Zpos (Qden q)) in *. set (k := Zpos sqrt_scale) in *.
  assert (0 < d)%Z by (unfold d; lia). assert (0 < k)%Z by (unfold k; lia).
  unfold N in Hs.
  assert (s * s * d <= Qnum q * d * d * k * k)%Z by nia.
  nia.
Qed.

Lemma Qabs_sub_self (v : Q) : Qabs (v - v) = 0 # (Qden v * Qden v).
Proof.
  unfold Qminus, Qplus, Qabs. simpl. f_equal.
  replace (Qnum v * QDen v + - Qnum v * QDen v)%Z with 0%Z by ring. reflexivity.
Qed.

(** The distance of a horizontal segment is [|x0 - x1|]. *)
Lemma distance_horizontal x0 x1 y0 : distance x0 y0 x1 y0 == Qabs (x0 - x1).
Proof.
  unfold distance, js_abs, js_pow2. rewrite Qabs_sub_self.
  set (q := Qabs (x0 - x1)). set (e := (Qden y0 * Qden y0)%positive).
  assert (Hn : (0 <= Qnum q)%Z) by (unfold q, Qabs; destruct (x0 - x1); simpl; lia).
  rewrite (js_sqrt_square _ (Qnum q * Zpos e) (Qden q * e)).
  - unfold Qeq. simpl. rewrite !Pos2Z.inj_mul. ring.
  - nia.
  - simpl. rewrite !Pos2Z.inj_mul. ring.
  - simpl. apply Pos2Z.inj. rewrite !Pos2Z.inj_mul. ring.
Qed.

(** The distance of a vertical segment is [|y0 - y1|]. *)
Lemma distance_vertical x0 y0 y1 : distance x0 y0 x0 y1 == Qabs (y0 - y1).
Proof.
  unfold distance, js_abs, js_pow2. rewrite Qabs_sub_self.
  set (q := Qabs (y0 - y1)). set (e := (Qden x0 * Qden x0)%positive).
  assert (Hn : (0 <= Qnum q)%Z) by (unfold q, Qabs; destruct (y0 - y1); simpl; lia).
  rewrite (js_sqrt_square _ (Qnum q * Zpos e) (e * Qden q)).
  - unfold Qeq. simpl. rewrite !Pos2Z.inj_mul. ring.
  - nia.
  - simpl. rewrite !Pos2Z.inj_mul. ring.
  - simpl. apply Pos2Z.inj. rewrite !Pos2Z.inj_mul. ring.
Qed.

Lemma getAngle_vertical_up f t :
  x t == x f -> y t < y f -> getAngle f t "top" = {| atan_arg := JNegInf; plus_pi := false |}.
Proof.
  intros Hx Hy. unfold getAngle, js_div. simpl.
  destruct (qeqb_spec (x t - x f) 0) as [_|N]; [|lra].
  destruct (qeqb_spec ((y t - y f) * 1) 0); [lra|].
  destruct (qltb_spec 0 ((y t - y f) * 1)); [lra|].
  destruct (qltb_spec (x t - x f) 0); [lra|reflexivity].
Qed.

Lemma getAngle_same f t o :
  x t == x f -> y t == y f -> atan_arg (getAngle f t o) = JNaN.
Proof.
  intros Hx Hy. unfold getAngle, js_div. simpl.
  destruct (qeqb_spec (x t - x f) 0) as [_|N]; [|lra].
  destruct (qeqb_spec ((y t - y f) * (if String.eqb o "top" then 1 else -1)) 0) as [_|N];
    [reflexivity|]. exfalso. apply N. rewrite Hy. ring.
Qed.

Lemma getAngle_vertical_down f t :
  x t == x f -> y f < y t -> getAngle f t "top" = {| atan_arg := JPosInf; plus_pi := false |}.
Proof.
  intros Hx Hy. unfold getAngle, js_div. simpl.
  destruct (qeqb_spec (x t - x f) 0) as [_|N]; [|lra].
  destruct (qeqb_spec ((y t - y f) * 1) 0); [lra|].
  destruct (qltb_spec 0 ((y t - y f) * 1)); [|lra].
  destruct (qltb_spec (x t - x f) 0); [lra|reflexivity].
Qed.

(** A horizontal segment: [Math.atan] of a zero ratio, plus [PI] when it
    points left. *)
Lemma getAngle_horizontal f t :
  y t == y f -> ~ x t == x f ->
  exists q, getAngle f t "top" = {| atan_arg := JFin q; plus_pi := x t - x f <? 0 |} /\ q == 0.
Proof.
  intros Hy Hx. unfold getAngle. simpl. rewrite js_div_fin by (intros E; apply Hx; lra).
  eexists; split; [reflexivity|]. rewrite Hy. field. intros E; apply Hx; lra.
Qed.

(** [Math.atan] gets NaN only from [0 / 0]: coincident points. *)
Lemma getAngle_NaN f t o : atan_arg (getAngle f t o) = JNaN -> x t == x f /\ y t == y f.
Proof.
  unfold getAngle, js_div. simpl.
  destruct (qeqb_spec (x t - x f) 0) as [Hx|_]; [|discriminate].
  destruct (qeqb_spec ((y t - y f) * (if String.eqb o "top" then 1 else -1)) 0) as [Hy|_].
  - intros _. split; [lra|]. destruct (String.eqb o "top"); lra.
  - destruct (0 <? _); discriminate.
Qed.
