(* ===== verification/AngleReal.v ===== *)
(** * AngleReal: the real value of [getAngle]

    [Geometry.getAngle] returns the expression [Math.atan(t) (+ Math.PI)]
    that [getAngle] (index.ts 74-80) evaluates, with [t] a JavaScript number
    that may be [+-Infinity] or NaN.  This file gives it its value in the
    Standard Library's real numbers: [Math.atan(+-Infinity) = +-PI/2],
    [Math.atan(NaN) = NaN] (the [None] of [angle_value]), and shows that the
    rotation [ctx.rotate(angle)] of [drawOneArrow] turns the x axis onto the
    segment's direction (the canvas's y axis points down, the [origin 'top']
    case), what range the angle has, and where the source's comment
    ("0 - 2PI") is wrong.  Rounding of [Math.atan] is not modelled. *)

From Stdlib Require Import Reals Ratan Qreals Lra QArith String.
From S2P Require Import Prelude Geometry.

Local Open Scope R_scope.

(** [Math.atan] of a JavaScript number. *)
Definition atan_value (t : jsnum) : option R :=
  match t with
  | JFin q => Some (atan (Q2R q))
  | JPosInf => Some (PI / 2)
  | JNegInf => Some (- (PI / 2))
  | JNaN => None
  end.

(** The number an [Angle] denotes; [None] is NaN. *)
Definition angle_value (a : Angle) : option R :=
  match atan_value (atan_arg a) with
  | Some v => Some (if plus_pi a then v + PI else v)
  | None => None
  end.

(** ** Lemmas *)

Lemma sqrt_one_plus_ratio a b :
  a <> 0 -> sqrt (1 + (b / a)²) = sqrt (a² + b²) / Rabs a.
Proof.
  intros Ha.
  assert (E : 1 + (b / a)² = (a² + b²) / (Rabs a)²).
  { rewrite <- Rsqr_abs. unfold Rsqr. field. exact Ha. }
  rewrite E, sqrt_div_alt by (apply Rlt_0_sqr; now apply Rabs_no_R0).
  rewrite sqrt_Rsqr by apply Rabs_pos. reflexivity.
Qed.

Lemma sqrt_sum_pos a b : a <> 0 \/ b <> 0 -> 0 < sqrt (a² + b²).
Proof.
  intros H. apply sqrt_lt_R0.
  destruct H as [H|H]; [pose proof (Rlt_0_sqr a H); pose proof (Rle_0_sqr b)
                       |pose proof (Rlt_0_sqr b H); pose proof (Rle_0_sqr a)]; lra.
Qed.

Lemma Q2R_neq0 q : ~ (q == 0)%Q -> Q2R q <> 0.
Proof. intros H E. apply H. apply eqR_Qeq. rewrite E. unfold Q2R. simpl. lra. Qed.

(** The rotation by [atan(b / a)] for [a > 0] points along [(a, b)]. *)
Lemma atan_direction a b :
  0 < a -> cos (atan (b / a)) * sqrt (a² + b²) = a /\ sin (atan (b / a)) * sqrt (a² + b²) = b.
Proof.
  intros Ha. rewrite cos_atan, sin_atan, sqrt_one_plus_ratio by lra.
  rewrite Rabs_pos_eq by lra.
  pose proof (sqrt_sum_pos a b (or_introl (Rgt_not_eq _ _ Ha))) as Hs.
  split; field; split; lra.
Qed.

Lemma atan_direction_neg a b :
  a < 0 -> cos (atan (b / a) + PI) * sqrt (a² + b²) = a /\
           sin (atan (b / a) + PI) * sqrt (a² + b²) = b.
Proof.
  intros Ha. rewrite neg_cos, neg_sin, cos_atan, sin_atan, sqrt_one_plus_ratio by lra.
  rewrite Rabs_left by lra.
  pose proof (sqrt_sum_pos a b (or_introl (Rlt_not_eq _ _ Ha))) as Hs.
  split; field; split; lra.
Qed.

Lemma Q2R_sub_pos (u v : Q) : (v < u)%Q -> 0 < Q2R (u - v).
Proof. intros H. rewrite Q2R_minus. apply Qlt_Rlt in H. lra. Qed.

Lemma Q2R_sub_neg (u v : Q) : (u < v)%Q -> Q2R (u - v) < 0.
Proof. intros H. rewrite Q2R_minus. apply Qlt_Rlt in H. lra. Qed.

Lemma getAngle_top f t :
  getAngle f t "top" =
  {| atan_arg := js_div ((y t - y f) * 1) (x t - x f); plus_pi := (x t - x f <? 0)%Q |}.
Proof. reflexivity. Qed.

Lemma Q2R_eq0 q : (q == 0)%Q -> Q2R q = 0.
Proof. intros H. rewrite (Qeq_eqR _ _ H). unfold Q2R. simpl. lra. Qed.

Lemma js_div_zero_div a b :
  (b == 0)%Q -> ~ (a == 0)%Q ->
  js_div a b = if (0 <? a)%Q then JPosInf else JNegInf.
Proof.
  intros Hb Ha. unfold js_div.
  destruct (qeqb_spec b 0) as [_|N]; [|contradiction].
  destruct (qeqb_spec a 0); [contradiction|reflexivity].
Qed.

Lemma Q2R_0 : Q2R 0 = 0.
Proof. unfold Q2R. simpl. field. Qed.

Lemma Q2R_neg_of q : ~ (0 < q)%Q -> ~ (q == 0)%Q -> Q2R q < 0.
Proof.
  intros P Z. destruct (Q_dec q 0) as [[L|G]|E]; [|contradiction|contradiction].
  apply Qlt_Rlt in L. rewrite Q2R_0 in L. exact L.
Qed.

Lemma Q2R_pos_of q : ~ (q < 0)%Q -> ~ (q == 0)%Q -> 0 < Q2R q.
Proof.
  intros P Z. destruct (Q_dec q 0) as [[L|G]|E]; [contradiction| |contradiction].
  apply Qlt_Rlt in G. rewrite Q2R_0 in G. exact G.
Qed.

(** ** Properties *)

(** The value of the angle of an axis-parallel segment: [0] or [PI] for a
    horizontal one, [PI/2] or [-PI/2] for a vertical one. *)
Lemma angle_horizontal f t :
  (y t == y f)%Q -> ~ (x t == x f)%Q ->
  angle_value (getAngle f t "top") = Some (if (x t - x f <? 0)%Q then PI else 0).
Proof.
  intros Hy Hx. destruct (getAngle_horizontal f t Hy Hx) as [q [-> Hq]].
  unfold angle_value. simpl. rewrite (Q2R_eq0 q Hq), atan_0.
  destruct (_ <? _)%Q; f_equal; ring.
Qed.

Lemma angle_vertical f t :
  (x t == x f)%Q -> ~ (y t == y f)%Q ->
  angle_value (getAngle f t "top") = Some (if (y f <? y t)%Q then PI / 2 else - (PI / 2)).
Proof.
  intros Hx Hy. destruct (qltb_spec (y f) (y t)) as [L|L].
  - now rewrite (getAngle_vertical_down f t Hx L).
  - assert (L' : (y t < y f)%Q).
    { destruct (Qlt_le_dec (y t) (y f)) as [h|h]; [exact h|].
      exfalso. apply Qle_lteq in h as [h|h]; [exact (L h)|apply Hy; now symmetry]. }
    now rewrite (getAngle_vertical_up f t Hx L').
Qed.

(** (C12) Direction: for two distinct points, [ctx.rotate(getAngle(from, to))]
    turns the x axis onto the segment from [from] to [to]: the angle's
    cosine and sine, scaled by the segment's length, are its [dx] and [dy]
    (the canvas's y axis pointing down, [origin = 'top']).  So a stroke
    from [0] to [L] along the rotated x axis runs along the segment. *)
Theorem getAngle_direction f t :
  ~ ((x t - x f == 0)%Q /\ (y t - y f == 0)%Q) ->
  exists th, angle_value (getAngle f t "top") = Some th /\
    cos th * sqrt ((Q2R (x t - x f))² + (Q2R (y t - y f))²) = Q2R (x t - x f) /\
    sin th * sqrt ((Q2R (x t - x f))² + (Q2R (y t - y f))²) = Q2R (y t - y f).
Proof.
  intros Hne. rewrite getAngle_top. unfold angle_value. simpl.
  set (dx := (x t - x f)%Q) in *. set (dy := (y t - y f)%Q) in *.
  destruct (qeqb_spec dx 0) as [Hdx|Hdx].
  - assert (Hdy : ~ (dy * 1 == 0)%Q) by (rewrite Qmult_1_r; tauto).
    rewrite js_div_zero_div by assumption. rewrite (Q2R_eq0 dx Hdx).
    destruct (qltb_spec dx 0) as [L|_]; [rewrite Hdx in L; discriminate|].
    rewrite Rsqr_0, Rplus_0_l, sqrt_Rsqr_abs.
    destruct (qltb_spec 0 (dy * 1)) as [P|P]; simpl; eexists; split; try reflexivity.
    + rewrite cos_PI2, sin_PI2, Rabs_pos_eq; [lra|].
      rewrite Qmult_1_r in P. apply Qlt_Rlt in P. rewrite Q2R_0 in P. lra.
    + rewrite cos_neg, sin_neg, cos_PI2, sin_PI2, Rabs_left; [lra|].
      rewrite Qmult_1_r in P, Hdy. now apply Q2R_neg_of.
  - rewrite js_div_fin by exact Hdx. simpl.
    rewrite Q2R_div, Q2R_mult by exact Hdx. replace (Q2R 1) with 1 by (unfold Q2R; simpl; field).
    rewrite Rmult_1_r.
    destruct (qltb_spec dx 0) as [N|N]; eexists; split; try reflexivity.
    + apply atan_direction_neg. apply Qlt_Rlt in N. rewrite Q2R_0 in N. exact N.
    + apply atan_direction. now apply Q2R_pos_of.
Qed.

(** Coincident points ([fromPixel = toPixel]) give [0 / 0], so the
    angle is NaN. *)
Lemma getAngle_coincident f t o :
  (x t == x f)%Q -> (y t == y f)%Q -> angle_value (getAngle f t o) = None.
Proof. intros Hx Hy. unfold angle_value. rewrite (getAngle_same f t o Hx Hy). reflexivity. Qed.

(** (C29) Range and NaN: [getAngle] is NaN exactly for coincident points
    ([0 / 0]), whatever the origin; every other angle lies in
    [[-PI/2, 3PI/2)], not in [[0, 2PI)] as the source's comment says. *)
Theorem getAngle_range f t o :
  (angle_value (getAngle f t o) = None <-> (x t == x f /\ y t == y f)%Q) /\
  forall th, angle_value (getAngle f t o) = Some th -> - (PI / 2) <= th < 3 * (PI / 2).
Proof.
  split.
  - split; [|intros [Hx Hy]; exact (getAngle_coincident f t o Hx Hy)].
    unfold angle_value. destruct (atan_arg (getAngle f t o)) eqn:E; try discriminate.
    intros _. exact (getAngle_NaN f t o E).
  - intros th. unfold angle_value, getAngle. simpl. pose proof PI_RGT_0 as Hpi.
    set (dx := (x t - x f)%Q). set (a := ((y t - y f) * _)%Q).
    destruct (qltb_spec dx 0) as [N|N].
    + assert (Hdx : ~ (dx == 0)%Q) by (intros E; rewrite E in N; discriminate).
      rewrite js_div_fin by exact Hdx. simpl. intros [= <-].
      pose proof (atan_bound (Q2R (a / dx))). lra.
    + unfold js_div. destruct (qeqb_spec dx 0); [|simpl; intros [= <-]; pose proof (atan_bound (Q2R (a / dx))); lra].
      destruct (qeqb_spec a 0); [discriminate|].
      destruct (qltb_spec 0 a); simpl; intros [= <-]; lra.
Qed.

(** A segment pointing straight up the screen ([to] above [from]) gets
    the angle [-PI/2], outside the range [0 - 2PI] the comment promises. *)
Theorem getAngle_upward f t :
  (x t == x f)%Q -> (y t < y f)%Q -> angle_value (getAngle f t "top") = Some (- (PI / 2)).
Proof. intros Hx Hy. rewrite (getAngle_vertical_up f t Hx Hy). reflexivity. Qed.

(** ** Witnesses *)

Lemma getAngle_direction_witness :
  ~ ((x (mkCoord 400 300) - x (mkCoord 400 200) == 0)%Q /\ (y (mkCoord 400 300) - y (mkCoord 400 200) == 0)%Q) /\
  exists th, angle_value (getAngle (mkCoord 400 200) (mkCoord 400 300) "top") = Some th /\
    cos th * sqrt ((Q2R (x (mkCoord 400 300) - x (mkCoord 400 200)))² + (Q2R (y (mkCoord 400 300) - y (mkCoord 400 200)))²) =
      Q2R (x (mkCoord 400 300) - x (mkCoord 400 200)) /\
    sin th * sqrt ((Q2R (x (mkCoord 400 300) - x (mkCoord 400 200)))² + (Q2R (y (mkCoord 400 300) - y (mkCoord 400 200)))²) =
      Q2R (y (mkCoord 400 300) - y (mkCoord 400 200)).
Proof.
  split; [vm_compute; intros [_ H]; discriminate|].
  apply getAngle_direction. vm_compute. intros [_ H]. discriminate.
Defined.

Lemma getAngle_range_witness :
  (angle_value (getAngle (mkCoord 5 5) (mkCoord 5 5) "top") = None <->
     (x (mkCoord 5 5) == x (mkCoord 5 5) /\ y (mkCoord 5 5) == y (mkCoord 5 5))%Q) /\
  angle_value (getAngle (mkCoord 0 0) (mkCoord (-1) 0) "top") = Some (atan (Q2R (0 / -1)) + PI) /\
  - (PI / 2) <= atan (Q2R (0 / -1)) + PI < 3 * (PI / 2).
Proof.
  split; [exact (proj1 (getAngle_range (mkCoord 5 5) (mkCoord 5 5) "top"))|].
  split; [reflexivity|]. apply (proj2 (getAngle_range (mkCoord 0 0) (mkCoord (-1) 0) "top")). reflexivity.
Defined.

Lemma getAngle_upward_witness :
  (x (mkCoord 100 0) == x (mkCoord 100 80))%Q /\ (y (mkCoord 100 0) < y (mkCoord 100 80))%Q /\
  angle_value (getAngle (mkCoord 100 80) (mkCoord 100 0) "top") = Some (- (PI / 2)).
Proof.
  split; [reflexivity|]. split; [vm_compute; reflexivity|].
  apply getAngle_upward; [reflexivity|vm_compute; reflexivity].
Defined.

