(* ===== verification/Types.v ===== *)
(** * Types: the objects the program keeps

    The interfaces of [src/src/core/index.ts] (lines 1-65), one Module each
    so that fields keep the source's names ([SplitLine.paths] and
    [LineObj.paths] both exist).  Optional fields ([field?: T]) are [option]s:
    [None] is [undefined].  A reference from one [SplitLine] to another
    ([endLines], [startLines]) is the pair of its connection's index in
    [lineData] and its own index in that connection's [splitLines], so the
    store of all connections is an arena indexed by these pairs. *)

From Stdlib Require Import QArith ZArith List String.
From S2P Require Import Prelude Geometry.
Import ListNotations.

(** [type PathsItem = Array<number>], always a pair [[x, y]] here. *)
Definition PathsItem : Type := (Q * Q)%type.

(** A reference to [lineData[fst].splitLines[snd]]. *)
Definition SegRef : Type := (nat * nat)%type.

(** [interface LineOption] (lines 9-17). *)
Module LineOption.
Record t := mk {
    lineWidth : option Q;
    arrowSize : option Q;
    arrowRoundSize : option Q;
    color : option string;
    lineCap : option string;
    lineJoin : option string;
    lineImgSplit : option Q }.
Definition empty : t := mk None None None None None None None.
End LineOption.

(** [interface FlowOption] (lines 19-24). *)
Module FlowOption.
Record t := mk {
    isDrawFlow : option bool;
    flowWidth : option Q;
    color : option (list Q);
    lineCap : option string }.
Definition empty : t := mk None None None None.
End FlowOption.

(** [interface SplitLine] (lines 25-34): one segment of a connection. *)
Module SplitLine.
Record t := mk {
    angle : option Angle;
    length : option Q;
    originLength : option Q;
    paths : option (PathsItem * PathsItem);
    endLines : option (list SegRef);
    startLines : option (list SegRef);
    fromPixel : option Coordinate;
    toPixel : option Coordinate }.

  (** [{ paths: [[x0, y0], [x1, y1]] }], as [combLine] creates it. *)
Definition of_paths (p : PathsItem * PathsItem) : t :=
    mk None None None (Some p) None None None None.

Definition set_measure (ol : Q) (v : t) : t :=
    mk (angle v) (length v) (Some ol) (paths v) (Some []) (Some []) (fromPixel v) (toPixel v).
Definition set_endLines (e : option (list SegRef)) (v : t) : t :=
    mk (angle v) (length v) (originLength v) (paths v) e (startLines v) (fromPixel v) (toPixel v).
Definition set_startLines (s : option (list SegRef)) (v : t) : t :=
    mk (angle v) (length v) (originLength v) (paths v) (endLines v) s (fromPixel v) (toPixel v).
Definition set_projection (a : option Angle) (len : option Q) (fp tp : Coordinate) (v : t) : t :=
    mk a len (originLength v) (paths v) (endLines v) (startLines v) (Some fp) (Some tp).
End SplitLine.

(** [interface LineObj] (lines 36-45): one connection. *)
Module LineObj.
Record t := mk {
    points : list Coordinate;
    arrowDirection : string;
    lineOption : option LineOption.t;
    paths : option (list PathsItem);
    lineSpace : option Q;
    flowOption : option FlowOption.t;
    originLength : option Q;
    splitLines : option (list SplitLine.t) }.

  (** A connection as the configuration supplies it: only its points, its
      arrow direction and its options. *)
Definition config (pts : list Coordinate) (dir : string)
      (lo : option LineOption.t) (fo : option FlowOption.t) : t :=
    mk pts dir lo None None fo None None.

Definition set_paths (p : list PathsItem) (s : list SplitLine.t) (l : t) : t :=
    mk (points l) (arrowDirection l) (lineOption l) (Some p) (lineSpace l) (flowOption l)
       (originLength l) (Some s).
Definition set_splitLines (s : list SplitLine.t) (l : t) : t :=
    mk (points l) (arrowDirection l) (lineOption l) (paths l) (lineSpace l) (flowOption l)
       (originLength l) (Some s).
Definition set_originLength (o : Q) (l : t) : t :=
    mk (points l) (arrowDirection l) (lineOption l) (paths l) (lineSpace l) (flowOption l)
       (Some o) (splitLines l).
Definition set_lineSpace (s : option Q) (l : t) : t :=
    mk (points l) (arrowDirection l) (lineOption l) (paths l) s (flowOption l)
       (originLength l) (splitLines l).
End LineObj.

(** The segments of connection [i] of a store, [[]] when absent. *)
Definition segs_of (st : list LineObj.t) (i : nat) : list SplitLine.t :=
  match nth_error st i with
  | Some l => match LineObj.splitLines l with Some s => s | None => [] end
  | None => []
  end.

(** [lineData[i].splitLines[j]]. *)
Definition seg_at (st : list LineObj.t) (r : SegRef) : option SplitLine.t :=
  nth_error (segs_of st (fst r)) (snd r).

(** Identity of two segment references. *)
Definition ref_eqb (a b : SegRef) : bool := Nat.eqb (fst a) (fst b) && Nat.eqb (snd a) (snd b).

Lemma ref_eqb_spec a b : reflect (a = b) (ref_eqb a b).
Proof.
  destruct a as [i j], b as [k l]. unfold ref_eqb. simpl.
  destruct (Nat.eqb_spec i k), (Nat.eqb_spec j l); constructor; congruence.
Qed.

(** [lineData[i].splitLines[j] = f(...)], the shared store updated in place. *)
Definition update_seg (r : SegRef) (f : SplitLine.t -> SplitLine.t) (st : list LineObj.t)
    : list LineObj.t :=
  update_nth (fst r)
    (fun l => match LineObj.splitLines l with
              | Some s => LineObj.set_splitLines (update_nth (snd r) f s) l
              | None => l
              end) st.

(** ** Store lemmas *)

Lemma segs_of_update_seg r f st i :
  segs_of (update_seg r f st) i =
  if Nat.eqb (fst r) i then update_nth (snd r) f (segs_of st i) else segs_of st i.
Proof.
  unfold segs_of, update_seg. rewrite nth_error_update_nth.
  destruct (Nat.eqb (fst r) i); [|reflexivity].
  destruct (nth_error st i) as [l|]; simpl; [|reflexivity].
  destruct l as [? ? ? ? ? ? ? [s|]]; reflexivity.
Qed.

Lemma seg_at_update_seg r f st r' :
  seg_at (update_seg r f st) r' =
  if ref_eqb r r' then option_map f (seg_at st r') else seg_at st r'.
Proof.
  unfold seg_at, ref_eqb. rewrite segs_of_update_seg.
  destruct (Nat.eqb (fst r) (fst r')); simpl; [|reflexivity].
  apply nth_error_update_nth.
Qed.

Lemma length_update_seg r f st : List.length (update_seg r f st) = List.length st.
Proof. apply update_nth_length. Qed.

Lemma length_segs_of_update_seg r f st i :
  List.length (segs_of (update_seg r f st) i) = List.length (segs_of st i).
Proof.
  rewrite segs_of_update_seg. destruct (Nat.eqb (fst r) i); [apply update_nth_length|reflexivity].
Qed.

#[export] Hint Rewrite length_update_seg length_segs_of_update_seg : js_rw.

(** The [style] object of [interface TextOption] (lines 50-57). *)
Module TextStyle.
Record t := mk {
    fontWeight : option string;
    position : option string;
    color : option string;
    fontFamily : option string;
    fontSize : option Q;
    imgTextSplit : option Q }.
Definition empty : t := mk None None None None None None.
End TextStyle.

(** [interface TextOption] (lines 47-58). *)
Module TextOption.
Record t := mk {
    text : option string;
    show : option bool;
    style : option TextStyle.t }.
End TextOption.

(** [interface ImgObj extends Coordinate] (lines 60-65). *)
Module ImgObj.
Record t := mk {
    x : Q;
    y : Q;
    imgUrl : string;
    width : Q;
    height : Q;
    textOption : option TextOption.t }.
End ImgObj.

(** ** The repository's test data

    The configuration of [src/test/jest/createImgLineFlow.test.js]: one
    connection from [(200, 200)] to [(400, 200)] pointing right (lines
    45-54), and two 21 by 16 images at [(200, 200)] and [(400, 200)] with a
    label in weight 600 below them (lines 16-44); the [imgUrl] is the
    result of [require(url)], kept as the url. *)
Definition test_lineData : list LineObj.t :=
  [LineObj.config [mkCoord 200 200; mkCoord 400 200] "right" None None].

Definition test_img (x0 : Q) : ImgObj.t :=
  ImgObj.mk x0 200 "https://img0.baidu.com/it/u=151392495,873552640&fm=253&fmt=auto&app=138&f=JPEG?w=500&h=500"
    21 16 (Some (TextOption.mk (Some "测试1"%string) (Some true)
                   (Some (TextStyle.mk (Some "600"%string) (Some "bottom"%string) None None None None)))).

Definition test_imgData : list ImgObj.t := [test_img 200; test_img 400].

(** A junction: connection 0 turns at [(100, 0)] and ends at [(100, 80)],
    where connection 1 starts. *)
Definition example_junction : list LineObj.t :=
  [LineObj.config [mkCoord 0 0; mkCoord 100 0; mkCoord 100 80] "down" None None;
   LineObj.config [mkCoord 100 80; mkCoord 200 80] "right" None None].
