(* ===== verification/SegmentGraph.v ===== *)
(** * SegmentGraph: [combLine] (index.ts lines 163-203)

    [combLine] runs three passes over [lineData]:
    - [comb_split] (lines 164-177): [paths] from [points], and one [SplitLine]
      per consecutive pair of points appended to [splitLines];
    - [comb_measure] (lines 179-189): each segment's [originLength], the
      connection's [originLength] as their sum, empty [startLines]/[endLines];
    - [combLine_link] (lines 190-202): for segments [v] of [lineObj] and [v2]
      of a different [lineObj2], if [v] ends where [v2] starts then [v2] is
      pushed on [v.endLines] and [v] on [v2.startLines].
    The store is the list of connections, mutated in place through
    [update_seg]; a [TypeError] (a [SplitLine] without [paths], from a
    user-supplied [splitLines]) is [None].  The main theorem states that the
    imperative link loop computes the declarative adjacency [ends_ref] /
    [starts_ref]: the segments of other connections whose start coincides. *)

From Stdlib Require Import QArith ZArith List String Lia Bool.
From S2P Require Import Prelude Geometry Types.
Import ListNotations.

Open Scope Q_scope.
Open Scope js_scope.

Module SegmentGraph.

(** ** Pass 1: splitting (lines 164-177) *)

(** [lineObj.points.map(v => [v.x, v.y])]. *)
Definition to_paths (pts : list Coordinate) : list PathsItem :=
  map (fun v => (x v, y v)) pts.

(** [paths.forEach((v, i) => { if (i > 0) push([paths[i-1], v]) })]. *)
Fixpoint split_paths (ps : list PathsItem) : list (PathsItem * PathsItem) :=
  match ps with
  | a :: ((b :: _) as rest) => (a, b) :: split_paths rest
  | _ => []
  end.

Definition comb_split (l : LineObj.t) : LineObj.t :=
  let ps := to_paths (LineObj.points l) in
  let old := match LineObj.splitLines l with Some s => s | None => [] end in
  LineObj.set_paths ps (old ++ map SplitLine.of_paths (split_paths ps)) l.

(** ** Pass 2: lengths (lines 179-189) *)

(** One iteration: [v.originLength = Math.sqrt(...)], [v.startLines = []],
    [v.endLines = []]; it reads [v.paths], which throws when undefined. *)
Definition seg_measure (v : SplitLine.t) : option (Q * SplitLine.t) :=
  let* p := SplitLine.paths v in
  let '((x0, y0), (x1, y1)) := p in
  let len := distance x0 y0 x1 y1 in
  Some (len, SplitLine.set_measure len v).

(** [lineObj.originLength = 0] then [lineObj.originLength += v.originLength]. *)
Definition comb_measure (l : LineObj.t) : option LineObj.t :=
  let* ss := LineObj.splitLines l in
  let* ms := traverse_opt seg_measure ss in
  Some (LineObj.set_originLength (qsum (map fst ms)) (LineObj.set_splitLines (map snd ms) l)).

(** ** Pass 3: linking (lines 190-202) *)

(** [p[0] == q[0] && p[1] == q[1]]. *)
Definition same_point (p q : PathsItem) : bool := (fst p =? fst q) && (snd p =? snd q).

(** The body of the innermost [forEach], for [v = lineData[i].splitLines[j]]
    and [v2 = lineData[k].splitLines[l]].  [v2] is read again after [v] was
    updated: both are objects of the shared store. *)
Definition link_step (st : list LineObj.t) (a b : SegRef) : option (list LineObj.t) :=
  let* v := seg_at st a in
  let* v2 := seg_at st b in
  let* pv := SplitLine.paths v in
  let* pv2 := SplitLine.paths v2 in
  if same_point (snd pv) (fst pv2) then
    let* e := SplitLine.endLines v in
    let st1 := update_seg a (SplitLine.set_endLines (Some (e ++ [b]))) st in
    let* v2' := seg_at st1 b in
    let* s := SplitLine.startLines v2' in
    Some (update_seg b (SplitLine.set_startLines (Some (s ++ [a]))) st1)
  else Some st.

(** The four nested [forEach] loops; [if (lineObj == lineObj2) return false]
    skips the connection itself (connections are distinct objects, so
    identity is equality of indices). *)
Definition combLine_link (st : list LineObj.t) : option (list LineObj.t) :=
  fold_left (fun acc i =>
    fold_left (fun acc j =>
      fold_left (fun acc k =>
        if Nat.eqb i k then acc
        else fold_left (fun acc l => let* s := acc in link_step s (i, j) (k, l))
               (seq 0 (List.length (segs_of st k))) acc)
        (seq 0 (List.length st)) acc)
      (seq 0 (List.length (segs_of st i))) acc)
    (seq 0 (List.length st)) (Some st).

(** [combLine()]. *)
Definition combLine (lineData : list LineObj.t) : option (list LineObj.t) :=
  let st1 := map comb_split lineData in
  let* st2 := traverse_opt comb_measure st1 in
  combLine_link st2.

(** ** The reference adjacency *)

(** Every segment reference of a store, in iteration order. *)
Definition all_refs (st : list LineObj.t) : list SegRef :=
  flat_map (fun i => map (pair i) (seq 0 (List.length (segs_of st i)))) (seq 0 (List.length st)).

Definition seg_paths (st : list LineObj.t) (r : SegRef) : option (PathsItem * PathsItem) :=
  let* v := seg_at st r in SplitLine.paths v.

(** Segment [a] ends where segment [b] of another connection starts. *)
Definition links (st : list LineObj.t) (a b : SegRef) : bool :=
  negb (Nat.eqb (fst a) (fst b)) &&
  match seg_paths st a, seg_paths st b with
  | Some pa, Some pb => same_point (snd pa) (fst pb)
  | _, _ => false
  end.

Definition ends_ref (st : list LineObj.t) (a : SegRef) : list SegRef :=
  filter (links st a) (all_refs st).

Definition starts_ref (st : list LineObj.t) (b : SegRef) : list SegRef :=
  filter (fun a => links st a b) (all_refs st).

Definition endLines_at (st : list LineObj.t) (r : SegRef) : option (list SegRef) :=
  let* v := seg_at st r in SplitLine.endLines v.

Definition startLines_at (st : list LineObj.t) (r : SegRef) : option (list SegRef) :=
  let* v := seg_at st r in SplitLine.startLines v.

(** ** The geometry of a store

    [strip] forgets a segment's adjacency lists; two stores with the same
    [strip_line] image have the same segments, paths and links. *)

Definition strip (v : SplitLine.t) : SplitLine.t :=
  SplitLine.set_endLines None (SplitLine.set_startLines None v).

Definition strip_line (l : LineObj.t) : LineObj.t :=
  match LineObj.splitLines l with
  | Some s => LineObj.set_splitLines (map strip s) l
  | None => l
  end.

Lemma strip_set_endLines e v : strip (SplitLine.set_endLines e v) = strip v.
Proof. destruct v; reflexivity. Qed.

Lemma strip_set_startLines e v : strip (SplitLine.set_startLines e v) = strip v.
Proof. destruct v; reflexivity. Qed.

Lemma update_seg_strip r f st :
  (forall v, strip (f v) = strip v) -> map strip_line (update_seg r f st) = map strip_line st.
Proof.
  intro H. unfold update_seg. apply map_update_nth_id.
  intros [? ? ? ? ? ? ? [s|]]; [|reflexivity].
  unfold strip_line. simpl. rewrite map_update_nth_id by assumption. reflexivity.
Qed.

Lemma segs_of_strip st i : segs_of (map strip_line st) i = map strip (segs_of st i).
Proof.
  unfold segs_of. rewrite nth_error_map.
  destruct (nth_error st i) as [[? ? ? ? ? ? ? [s|]]|]; reflexivity.
Qed.

Lemma seg_at_strip st r : seg_at (map strip_line st) r = option_map strip (seg_at st r).
Proof. unfold seg_at. rewrite segs_of_strip, nth_error_map. reflexivity. Qed.

Lemma seg_paths_strip st r : seg_paths (map strip_line st) r = seg_paths st r.
Proof. unfold seg_paths. rewrite seg_at_strip. destruct (seg_at st r) as [[]|]; reflexivity. Qed.

Lemma all_refs_strip st : all_refs (map strip_line st) = all_refs st.
Proof.
  unfold all_refs. rewrite length_map. apply flat_map_ext. intro i.
  rewrite segs_of_strip, length_map. reflexivity.
Qed.

Section SameGeometry.
Variables st st' : list LineObj.t.
Hypothesis G : map strip_line st' = map strip_line st.

Lemma seg_paths_geom r : seg_paths st' r = seg_paths st r.
  Proof. rewrite <- (seg_paths_strip st'), G. apply seg_paths_strip. Qed.

Lemma links_geom a b : links st' a b = links st a b.
  Proof. unfold links. rewrite !seg_paths_geom. reflexivity. Qed.

Lemma seg_at_geom r : seg_at st' r = None <-> seg_at st r = None.
  Proof.
    pose proof (f_equal (fun s => seg_at s r) G) as E. simpl in E. rewrite !seg_at_strip in E.
    destruct (seg_at st' r), (seg_at st r); simpl in E; split; congruence.
  Qed.

Lemma all_refs_geom : all_refs st' = all_refs st.
  Proof. rewrite <- (all_refs_strip st), <- (all_refs_strip st'), G. reflexivity. Qed.
End SameGeometry.

(** A store every segment of which has [paths], [endLines] and [startLines]. *)
Definition seg_ready (v : SplitLine.t) : Prop :=
  SplitLine.paths v <> None /\ SplitLine.endLines v <> None /\ SplitLine.startLines v <> None.

Definition adj_ready (st : list LineObj.t) : Prop :=
  forall r v, seg_at st r = Some v -> seg_ready v.

Lemma adj_ready_update r f st :
  (forall v, seg_ready v -> seg_ready (f v)) -> adj_ready st -> adj_ready (update_seg r f st).
Proof.
  intros Hf Hst r' w H. rewrite seg_at_update_seg in H.
  destruct (ref_eqb r r'); [|exact (Hst r' w H)].
  destruct (seg_at st r') as [v|] eqn:E; simpl in H; [|discriminate].
  injection H as <-. exact (Hf v (Hst r' v E)).
Qed.

Lemma seg_ready_set_endLines e v : seg_ready v -> seg_ready (SplitLine.set_endLines (Some e) v).
Proof. destruct v; unfold seg_ready; simpl; intuition discriminate. Qed.

Lemma seg_ready_set_startLines e v : seg_ready v -> seg_ready (SplitLine.set_startLines (Some e) v).
Proof. destruct v; unfold seg_ready; simpl; intuition discriminate. Qed.

(** ** One iteration of the link loop *)

Lemma link_step_spec st a b :
  adj_ready st -> seg_at st a <> None -> seg_at st b <> None -> fst a <> fst b ->
  exists st', link_step st a b = Some st' /\
    map strip_line st' = map strip_line st /\ adj_ready st' /\
    (forall c, endLines_at st' c =
       if ref_eqb a c && links st a b then option_map (fun e => e ++ [b]) (endLines_at st c)
       else endLines_at st c) /\
    (forall c, startLines_at st' c =
       if ref_eqb b c && links st a b then option_map (fun s => s ++ [a]) (startLines_at st c)
       else startLines_at st c).
Proof.
  intros Hr Ha Hb Hab.
  destruct (seg_at st a) as [v|] eqn:Ea; [|congruence].
  destruct (seg_at st b) as [v2|] eqn:Eb; [|congruence].
  destruct (Hr a v Ea) as [Hp [He _]]. destruct (Hr b v2 Eb) as [Hp2 [_ Hs2]].
  destruct (SplitLine.paths v) as [pv|] eqn:Epv; [|congruence].
  destruct (SplitLine.paths v2) as [pv2|] eqn:Epv2; [|congruence].
  destruct (SplitLine.endLines v) as [e|] eqn:Ee; [|congruence].
  destruct (SplitLine.startLines v2) as [s2|] eqn:Es2; [|congruence].
  assert (Hne : ref_eqb a b = false) by (destruct (ref_eqb_spec a b); congruence).
  assert (Hne' : ref_eqb b a = false) by (destruct (ref_eqb_spec b a); congruence).
  assert (Hl : links st a b = same_point (snd pv) (fst pv2)).
  { unfold links, seg_paths. rewrite Ea, Eb, Epv, Epv2.
    destruct (Nat.eqb_spec (fst a) (fst b)); [contradiction | reflexivity]. }
  unfold link_step. rewrite Ea, Eb, Epv, Epv2, Hl.
  destruct (same_point (snd pv) (fst pv2)).
  - rewrite Ee, seg_at_update_seg, Hne, Eb. simpl. rewrite Es2.
    eexists. split; [reflexivity|].
    split; [rewrite !update_seg_strip; auto using strip_set_endLines, strip_set_startLines|].
    split; [auto using adj_ready_update, seg_ready_set_endLines, seg_ready_set_startLines|].
    split; intro c; rewrite andb_true_r; unfold endLines_at, startLines_at;
      rewrite !seg_at_update_seg.
    + destruct (ref_eqb_spec a c) as [<-|Hac].
      * rewrite Hne', Ea. simpl. rewrite Ee. reflexivity.
      * destruct (ref_eqb b c); destruct (seg_at st c); reflexivity.
    + destruct (ref_eqb_spec b c) as [<-|Hbc].
      * rewrite Hne, Eb. simpl. rewrite Es2. reflexivity.
      * destruct (ref_eqb a c); destruct (seg_at st c); reflexivity.
  - eexists. split; [reflexivity|]. split; [reflexivity|]. split; [assumption|].
    split; intro c; rewrite andb_false_r; reflexivity.
Qed.

(** ** The whole link loop *)

Definition link_body (acc : option (list LineObj.t)) (p : SegRef * SegRef) : option (list LineObj.t) :=
  let* s := acc in link_step s (fst p) (snd p).

(** What iterations [L] push on [c.endLines] and on [c.startLines]. *)
Definition ends_in (st : list LineObj.t) (L : list (SegRef * SegRef)) (c : SegRef) : list SegRef :=
  map snd (filter (fun p => ref_eqb (fst p) c && links st (fst p) (snd p)) L).

Definition starts_in (st : list LineObj.t) (L : list (SegRef * SegRef)) (c : SegRef) : list SegRef :=
  map fst (filter (fun p => ref_eqb (snd p) c && links st (fst p) (snd p)) L).

Lemma ends_in_geom st st' L c :
  map strip_line st' = map strip_line st -> ends_in st' L c = ends_in st L c.
Proof.
  intro G. unfold ends_in. f_equal. apply filter_ext. intros p. rewrite (links_geom st st' G). reflexivity.
Qed.

Lemma starts_in_geom st st' L c :
  map strip_line st' = map strip_line st -> starts_in st' L c = starts_in st L c.
Proof.
  intro G. unfold starts_in. f_equal. apply filter_ext. intros p. rewrite (links_geom st st' G). reflexivity.
Qed.

Lemma option_map_app_assoc (o : option (list SegRef)) l1 l2 :
  option_map (fun e => e ++ l2) (option_map (fun e => e ++ l1) o) = option_map (fun e => e ++ (l1 ++ l2)) o.
Proof. destruct o; simpl; [rewrite app_assoc|]; reflexivity. Qed.

Lemma link_fold_spec L st :
  adj_ready st ->
  (forall p, In p L -> seg_at st (fst p) <> None /\ seg_at st (snd p) <> None /\ fst (fst p) <> fst (snd p)) ->
  exists st', fold_left link_body L (Some st) = Some st' /\
    map strip_line st' = map strip_line st /\ adj_ready st' /\
    (forall c, endLines_at st' c = option_map (fun e => e ++ ends_in st L c) (endLines_at st c)) /\
    (forall c, startLines_at st' c = option_map (fun s => s ++ starts_in st L c) (startLines_at st c)).
Proof.
  revert st; induction L as [|[a b] L IH]; intros st Hr HL.
  - exists st. simpl. split; [reflexivity|]. split; [reflexivity|]. split; [assumption|].
    split; intro c; [destruct (endLines_at st c) | destruct (startLines_at st c)];
      simpl; rewrite ?app_nil_r; reflexivity.
  - destruct (HL (a, b) (or_introl eq_refl)) as [Ha [Hb Hab]]. simpl in Ha, Hb, Hab.
    destruct (link_step_spec st a b Hr Ha Hb Hab) as (st1 & E1 & G1 & R1 & En1 & St1).
    destruct (IH st1 R1) as (st' & E' & G' & R' & En' & St').
    { intros p Hp. destruct (HL p (or_intror Hp)) as (H1 & H2 & H3).
      rewrite !(seg_at_geom st st1 G1). auto. }
    exists st'. simpl. rewrite E1. split; [exact E'|]. split; [congruence|]. split; [assumption|].
    split; intro c.
    + rewrite En', (ends_in_geom st st1 L c G1), En1. unfold ends_in at 2. simpl.
      destruct (ref_eqb a c && links st a b); simpl; [apply option_map_app_assoc|reflexivity].
    + rewrite St', (starts_in_geom st st1 L c G1), St1. unfold starts_in at 2. simpl.
      destruct (ref_eqb b c && links st a b); simpl; [apply option_map_app_assoc|reflexivity].
Qed.

(** The iterations of the four nested loops: every [(a, b)] with [a] and [b]
    segments of different connections, in loop order. *)
Definition link_pairs (st : list LineObj.t) : list (SegRef * SegRef) :=
  pairs_with (fun a => filter (fun b => negb (Nat.eqb (fst a) (fst b))) (all_refs st)) (all_refs st).

Lemma combLine_link_fold st : combLine_link st = fold_left link_body (link_pairs st) (Some st).
Proof.
  unfold combLine_link, link_pairs, pairs_with. unfold all_refs at 2.
  rewrite fold_left_flat_map, fold_left_flat_map.
  apply fold_left_ext_in. intros acc i _. rewrite fold_left_map'.
  apply fold_left_ext_in. intros acc' j _.
  rewrite fold_left_map', fold_left_filter. unfold all_refs. rewrite fold_left_flat_map.
  apply fold_left_ext_in. intros acc'' k _. rewrite fold_left_map'. simpl.
  destruct (Nat.eqb i k); simpl; [symmetry; apply fold_left_const | reflexivity].
Qed.

(** ** Segment references *)

Lemma in_all_refs st r : In r (all_refs st) <-> seg_at st r <> None.
Proof.
  destruct r as [i j]. unfold all_refs, seg_at. simpl. rewrite in_flat_map. split.
  - intros [i' [_ Hr]]. apply in_map_iff in Hr as [j' [[= <- <-] Hj]].
    apply in_seq in Hj. apply nth_error_Some. lia.
  - intro H. apply nth_error_Some in H. exists i. split.
    + apply in_seq. destruct (Nat.lt_ge_cases i (List.length st)) as [Hi|Hi]; [lia|].
      unfold segs_of in H. rewrite (proj2 (nth_error_None st i) Hi) in H. simpl in H. lia.
    + apply in_map, in_seq. lia.
Qed.

Lemma NoDup_all_refs st : NoDup (all_refs st).
Proof.
  unfold all_refs. apply NoDup_flat_map.
  - apply seq_NoDup.
  - intros i _. apply NoDup_map_pair, seq_NoDup.
  - intros i k z _ _ Hi Hk. apply in_map_iff in Hi as [? [<- _]]. apply in_map_iff in Hk as [? [E _]].
    now injection E.
Qed.

Lemma links_ne st a b : links st a b = true -> fst a <> fst b.
Proof.
  unfold links. destruct (Nat.eqb_spec (fst a) (fst b)); [discriminate | auto].
Qed.

Lemma links_in st a b : links st a b = true -> In a (all_refs st) /\ In b (all_refs st).
Proof.
  unfold links. rewrite !in_all_refs. intro H.
  destruct (seg_paths st a) as [pa|] eqn:Ea, (seg_paths st b) as [pb|] eqn:Eb;
    try (rewrite andb_false_r in H; discriminate).
  unfold seg_paths in Ea, Eb.
  split; intro E; [rewrite E in Ea | rewrite E in Eb]; discriminate.
Qed.

Lemma ends_in_link_pairs st c :
  In c (all_refs st) -> ends_in st (link_pairs st) c = ends_ref st c.
Proof.
  intro Hc. unfold ends_in, link_pairs, ends_ref.
  rewrite (pairs_with_fst ref_eqb ref_eqb_spec) by (apply NoDup_all_refs || exact Hc).
  apply filter_filter_impl. intros b Hb. apply links_ne in Hb.
  destruct (Nat.eqb_spec (fst c) (fst b)); [contradiction | reflexivity].
Qed.

Lemma starts_in_link_pairs st c :
  In c (all_refs st) -> starts_in st (link_pairs st) c = starts_ref st c.
Proof.
  intro Hc. unfold starts_in, link_pairs, starts_ref.
  apply (pairs_with_snd ref_eqb ref_eqb_spec).
  - intros a _. apply NoDup_filter, NoDup_all_refs.
  - intros a _ Hl. apply filter_In. split; [exact Hc|].
    apply links_ne in Hl. destruct (Nat.eqb_spec (fst a) (fst c)); [contradiction | reflexivity].
Qed.

(** ** The link pass computes the reference adjacency *)

(** From a store whose segments all have [paths] and empty adjacency lists
    (what [comb_measure] leaves), the link loop never throws, keeps every
    segment's geometry, and leaves on each segment [c] exactly
    [endLines = ends_ref c] and [startLines = starts_ref c], in loop order. *)
Lemma combLine_link_spec st :
  adj_ready st ->
  (forall c, In c (all_refs st) -> endLines_at st c = Some [] /\ startLines_at st c = Some []) ->
  exists st', combLine_link st = Some st' /\ map strip_line st' = map strip_line st /\
    forall c, In c (all_refs st) ->
      endLines_at st' c = Some (ends_ref st c) /\ startLines_at st' c = Some (starts_ref st c).
Proof.
  intros Hr H0. rewrite combLine_link_fold.
  destruct (link_fold_spec (link_pairs st) st Hr) as (st' & E & G & _ & En & St).
  { intros [a b] Hp. apply (in_pairs_with _ _ (a, b)) in Hp as [Ha Hb]. simpl in *.
    apply filter_In in Hb as [Hb Hne]. rewrite in_all_refs in Ha, Hb.
    destruct (Nat.eqb_spec (fst a) (fst b)); [discriminate|]. auto. }
  exists st'. split; [exact E|]. split; [exact G|]. intros c Hc.
  destruct (H0 c Hc) as [He Hs].
  rewrite En, St, He, Hs, ends_in_link_pairs, starts_in_link_pairs by exact Hc. auto.
Qed.

(** ** [combLine] on a configuration *)

(** The length [combLine] gives a segment [[[x0, y0], [x1, y1]]]. *)
Definition seg_distance (p : PathsItem * PathsItem) : Q :=
  let '((x0, y0), (x1, y1)) := p in distance x0 y0 x1 y1.

(** The segments of a connection: one per consecutive pair of points. *)
Definition segments_of (l : LineObj.t) : list (PathsItem * PathsItem) :=
  split_paths (to_paths (LineObj.points l)).

(** The inverse of [split_paths]: the points a chain of segments visits,
    starting from [p]; [None] when a segment does not start where the
    previous one ended. *)
Fixpoint join_from (p : PathsItem) (segs : list (PathsItem * PathsItem)) : option (list PathsItem) :=
  match segs with
  | [] => Some [p]
  | (a, b) :: r => if same_point a p then option_map (cons p) (join_from b r) else None
  end.

Definition join_paths (segs : list (PathsItem * PathsItem)) : option (list PathsItem) :=
  match segs with
  | [] => Some []
  | (a, _) :: _ => join_from a segs
  end.

Lemma length_split_paths ps : List.length (split_paths ps) = (List.length ps - 1)%nat.
Proof.
  induction ps as [|a [|b ps] IH]; simpl; [reflexivity|reflexivity|].
  simpl in IH. rewrite IH. lia.
Qed.

(** A connection after the first two passes. *)
Definition measured (l : LineObj.t) : LineObj.t :=
  let ps := segments_of l in
  LineObj.set_originLength (qsum (map seg_distance ps))
    (LineObj.set_splitLines (map (fun p => SplitLine.set_measure (seg_distance p) (SplitLine.of_paths p)) ps)
       (comb_split l)).

Section Configured.
Variable lineData : list LineObj.t.
  (** A connection of the configuration has no [splitLines] of its own. *)
Hypothesis Hcfg : Forall (fun l => LineObj.splitLines l = None) lineData.

Lemma comb_measure_split l :
    LineObj.splitLines l = None -> comb_measure (comb_split l) = Some (measured l).
  Proof.
    intro H. unfold comb_measure, comb_split. simpl. rewrite H. simpl.
    rewrite (traverse_opt_map_Some seg_measure
               (fun v => (match SplitLine.paths v with Some p => seg_distance p | None => 0 end,
                          match SplitLine.paths v with
                          | Some p => SplitLine.set_measure (seg_distance p) v | None => v end))).
    - unfold measured, segments_of. rewrite !map_map. reflexivity.
    - intros v Hv. apply in_map_iff in Hv as [[[x0 y0] [x1 y1]] [<- _]]. reflexivity.
  Qed.

Lemma passes12 : traverse_opt comb_measure (map comb_split lineData) = Some (map measured lineData).
  Proof.
    induction Hcfg as [|l ls Hl Hls IH]; simpl; [reflexivity|].
    rewrite comb_measure_split by exact Hl. rewrite IH by exact Hls. reflexivity.
  Qed.

Lemma segs_of_measured i :
    segs_of (map measured lineData) i =
    match nth_error lineData i with
    | Some l => map (fun p => SplitLine.set_measure (seg_distance p) (SplitLine.of_paths p)) (segments_of l)
    | None => []
    end.
  Proof. unfold segs_of. rewrite nth_error_map. destruct (nth_error lineData i); reflexivity. Qed.

Lemma seg_at_measured c v :
    seg_at (map measured lineData) c = Some v ->
    exists p, v = SplitLine.set_measure (seg_distance p) (SplitLine.of_paths p).
  Proof.
    unfold seg_at. rewrite segs_of_measured. destruct (nth_error lineData (fst c)); [|now destruct (snd c)].
    intro H. apply nth_error_In, in_map_iff in H as [p [<- _]]. eauto.
  Qed.

Lemma measured_ready : adj_ready (map measured lineData).
  Proof.
    intros c v H. destruct (seg_at_measured c v H) as [p ->].
    unfold seg_ready. simpl. repeat split; discriminate.
  Qed.

Lemma measured_empty c :
    In c (all_refs (map measured lineData)) ->
    endLines_at (map measured lineData) c = Some [] /\ startLines_at (map measured lineData) c = Some [].
  Proof.
    rewrite in_all_refs. unfold endLines_at, startLines_at.
    destruct (seg_at _ c) as [v|] eqn:E; [|congruence]. intros _.
    destruct (seg_at_measured c v E) as [p ->]. auto.
  Qed.
End Configured.

Lemma segs_of_geom st st' i :
  map strip_line st' = map strip_line st ->
  map strip (segs_of st' i) = map strip (segs_of st i).
Proof. intro G. rewrite <- !segs_of_strip, G. reflexivity. Qed.

Lemma line_geom st st' i :
  map strip_line st' = map strip_line st ->
  option_map LineObj.originLength (nth_error st' i) = option_map LineObj.originLength (nth_error st i).
Proof.
  intro G. pose proof (f_equal (fun s => option_map LineObj.originLength (nth_error s i)) G) as E.
  simpl in E. rewrite !nth_error_map in E.
  destruct (nth_error st' i) as [[? ? ? ? ? ? ? [?|]]|], (nth_error st i) as [[? ? ? ? ? ? ? [?|]]|];
    exact E.
Qed.

Lemma map_paths_strip l : map SplitLine.paths (map strip l) = map SplitLine.paths l.
Proof. rewrite map_map. apply map_ext. intros []; reflexivity. Qed.

Lemma map_originLength_strip l : map SplitLine.originLength (map strip l) = map SplitLine.originLength l.
Proof. rewrite map_map. apply map_ext. intros []; reflexivity. Qed.

Lemma ends_ref_geom st st' c : map strip_line st' = map strip_line st -> ends_ref st' c = ends_ref st c.
Proof.
  intro G. unfold ends_ref. rewrite (all_refs_geom st st' G). apply filter_ext. intro b.
  apply (links_geom st st' G).
Qed.

Lemma starts_ref_geom st st' c : map strip_line st' = map strip_line st -> starts_ref st' c = starts_ref st c.
Proof.
  intro G. unfold starts_ref. rewrite (all_refs_geom st st' G). apply filter_ext. intro a.
  apply (links_geom st st' G).
Qed.

(** [combLine] on a configuration, stated once for the claims below. *)
Lemma combLine_config lineData :
  Forall (fun l => LineObj.splitLines l = None) lineData ->
  exists st, combLine lineData = Some st /\ map strip_line st = map strip_line (map measured lineData) /\
    forall c, In c (all_refs st) ->
      endLines_at st c = Some (ends_ref st c) /\ startLines_at st c = Some (starts_ref st c).
Proof.
  intro Hcfg. unfold combLine. rewrite (passes12 lineData Hcfg).
  destruct (combLine_link_spec _ (measured_ready lineData) (measured_empty lineData))
    as (st & E & G & A).
  exists st. split; [exact E|]. split; [exact G|]. intros c Hc.
  rewrite (all_refs_geom _ _ G) in Hc.
  rewrite (ends_ref_geom _ _ c G), (starts_ref_geom _ _ c G). auto.
Qed.

Lemma same_point_refl p : same_point p p = true.
Proof.
  unfold same_point. destruct (qeqb_spec (fst p) (fst p)) as [_|N]; [|exfalso; apply N; reflexivity].
  destruct (qeqb_spec (snd p) (snd p)) as [_|N]; [reflexivity|exfalso; apply N; reflexivity].
Qed.

Lemma join_split p ps : join_from p (split_paths (p :: ps)) = Some (p :: ps).
Proof.
  revert p; induction ps as [|q ps IH]; intros p; [reflexivity|].
  change (split_paths (p :: q :: ps)) with ((p, q) :: split_paths (q :: ps)).
  simpl. rewrite same_point_refl, IH. reflexivity.
Qed.

Lemma split_join ps : (2 <= List.length ps)%nat -> join_paths (split_paths ps) = Some ps.
Proof.
  intros H. destruct ps as [|a [|b ps]]; simpl in H; try lia.
  change (join_paths (split_paths (a :: b :: ps))) with (join_from a (split_paths (a :: b :: ps))).
  apply join_split.
Qed.

Lemma traverse_opt_map_some {A B} (f : A -> option B) l l' :
  map f l = map Some l' -> traverse_opt f l = Some l'.
Proof.
  revert l'; induction l as [|a l IH]; intros [|b l'] H; simpl in *; try discriminate; [reflexivity|].
  injection H as Ha Hl. rewrite Ha, (IH _ Hl). reflexivity.
Qed.

(** The paths of connection [i]'s segments after [combLine]. *)
Lemma combLine_paths lineData st i l :
  Forall (fun l => LineObj.splitLines l = None) lineData -> combLine lineData = Some st ->
  nth_error lineData i = Some l ->
  map SplitLine.paths (segs_of st i) = map Some (segments_of l).
Proof.
  intros Hcfg E Hl. destruct (combLine_config lineData Hcfg) as (st' & E' & G & _).
  rewrite E in E'. injection E' as <-.
  pose proof (segs_of_geom _ _ i G) as S. rewrite segs_of_measured, Hl in S.
  rewrite <- map_paths_strip, S, map_paths_strip, map_map. reflexivity.
Qed.

(** (C2) [combLine] never throws on a configuration; it gives connection [i]
    one segment per consecutive pair of its points, in order, with the
    Euclidean length of the pair as [originLength], and sets the
    connection's [originLength] to the sum of its segments' lengths. *)
Theorem combLine_segments lineData :
  Forall (fun l => LineObj.splitLines l = None) lineData ->
  exists st, combLine lineData = Some st /\ List.length st = List.length lineData /\
    forall i l, nth_error lineData i = Some l ->
      List.length (segs_of st i) = (List.length (LineObj.points l) - 1)%nat /\
      map SplitLine.paths (segs_of st i) = map Some (segments_of l) /\
      map SplitLine.originLength (segs_of st i) = map (fun p => Some (seg_distance p)) (segments_of l) /\
      option_map LineObj.originLength (nth_error st i) =
        Some (Some (qsum (map seg_distance (segments_of l)))).
Proof.
  intro Hcfg. destruct (combLine_config lineData Hcfg) as (st & E & G & _).
  exists st. split; [exact E|].
  split; [rewrite <- (length_map strip_line st), G, !length_map; reflexivity|].
  intros i l Hl.
  pose proof (segs_of_geom _ _ i G) as S. rewrite segs_of_measured, Hl in S.
  pose proof (combLine_paths lineData st i l Hcfg E Hl) as Hp.
  split; [|split; [exact Hp|split]].
  - rewrite <- (length_map SplitLine.paths), Hp, length_map. unfold segments_of.
    rewrite length_split_paths. unfold to_paths. rewrite length_map. reflexivity.
  - rewrite <- map_originLength_strip, S, map_originLength_strip, map_map. reflexivity.
  - rewrite (line_geom _ _ i G), nth_error_map, Hl. reflexivity.
Qed.

(** (C1) The link pass computes the adjacency it means to: after
    [combLine], the [endLines] of every segment [a] are exactly the
    segments [b] of other connections with [a]'s end equal to [b]'s start,
    in loop order, and the [startLines] of [b] exactly the converse. *)
Theorem combLine_adjacency lineData st :
  Forall (fun l => LineObj.splitLines l = None) lineData -> combLine lineData = Some st ->
  forall c, In c (all_refs st) ->
    endLines_at st c = Some (ends_ref st c) /\ startLines_at st c = Some (starts_ref st c).
Proof.
  intros Hcfg E. destruct (combLine_config lineData Hcfg) as (st' & E' & _ & A).
  rewrite E in E'. injection E' as <-. exact A.
Qed.

Lemma endLines_at_in st c e : endLines_at st c = Some e -> In c (all_refs st).
Proof. unfold endLines_at. rewrite in_all_refs. destruct (seg_at st c); congruence. Qed.

Lemma startLines_at_in st c e : startLines_at st c = Some e -> In c (all_refs st).
Proof. unfold startLines_at. rewrite in_all_refs. destruct (seg_at st c); congruence. Qed.

(** (C20) Adjacency is symmetric: [b] is in [a.endLines] iff [a] is in
    [b.startLines]. *)
Theorem combLine_adjacency_symmetric lineData st a b ea sb :
  Forall (fun l => LineObj.splitLines l = None) lineData -> combLine lineData = Some st ->
  endLines_at st a = Some ea -> startLines_at st b = Some sb ->
  (In b ea <-> In a sb).
Proof.
  intros Hcfg E Ea Sb. destruct (combLine_config lineData Hcfg) as (st' & E' & _ & A).
  rewrite E in E'. injection E' as <-.
  destruct (A a (endLines_at_in _ _ _ Ea)) as [Ea' _].
  destruct (A b (startLines_at_in _ _ _ Sb)) as [_ Sb'].
  rewrite Ea in Ea'. rewrite Sb in Sb'. injection Ea' as ->. injection Sb' as ->.
  unfold ends_ref, starts_ref. rewrite !filter_In.
  split; intros [_ Hl]; pose proof (links_in _ _ _ Hl); tauto.
Qed.

(** (C21) Segments of one connection are never linked, consecutive ones
    included: the guard [lineObj == lineObj2] skips the whole connection. *)
Theorem combLine_no_self_links lineData st a b ea :
  Forall (fun l => LineObj.splitLines l = None) lineData -> combLine lineData = Some st ->
  endLines_at st a = Some ea -> In b ea -> fst a <> fst b.
Proof.
  intros Hcfg E Ea Hb. destruct (combLine_config lineData Hcfg) as (st' & E' & _ & A).
  rewrite E in E'. injection E' as <-.
  destruct (A a (endLines_at_in _ _ _ Ea)) as [Ea' _].
  rewrite Ea in Ea'. injection Ea' as ->. apply filter_In in Hb as [_ Hl]. exact (links_ne _ _ _ Hl).
Qed.

(** (C22) Round trip: the segments [combLine] cuts a connection into join
    back into the connection's points: reading the [paths] of its segments
    in order, each segment starts where the previous one ends ([join_paths]
    checks it), and chaining them gives [lineObj.paths], the points as
    [[x, y]] pairs, for every connection of at least two points. *)
Theorem combLine_roundtrip lineData st i l :
  Forall (fun l => LineObj.splitLines l = None) lineData -> combLine lineData = Some st ->
  nth_error lineData i = Some l -> (2 <= List.length (LineObj.points l))%nat ->
  exists segs, traverse_opt SplitLine.paths (segs_of st i) = Some segs /\
               join_paths segs = Some (to_paths (LineObj.points l)).
Proof.
  intros Hcfg E Hl H2. exists (segments_of l).
  split; [exact (traverse_opt_map_some _ _ _ (combLine_paths lineData st i l Hcfg E Hl))|].
  apply split_join. unfold to_paths. rewrite length_map. exact H2.
Qed.

(** ** Witnesses *)

Lemma combLine_segments_witness :
  exists st, combLine example_junction = Some st /\ List.length st = List.length example_junction /\
    forall i l, nth_error example_junction i = Some l ->
      List.length (segs_of st i) = (List.length (LineObj.points l) - 1)%nat /\
      map SplitLine.paths (segs_of st i) = map Some (segments_of l) /\
      map SplitLine.originLength (segs_of st i) = map (fun p => Some (seg_distance p)) (segments_of l) /\
      option_map LineObj.originLength (nth_error st i) =
        Some (Some (qsum (map seg_distance (segments_of l)))).
Proof. apply combLine_segments. repeat constructor. Defined.

Lemma combLine_adjacency_witness :
  exists st, combLine example_junction = Some st /\
    forall c, In c (all_refs st) ->
      endLines_at st c = Some (ends_ref st c) /\ startLines_at st c = Some (starts_ref st c).
Proof.
  eexists. split; [vm_compute; reflexivity|].
  apply (combLine_adjacency example_junction); [repeat constructor|vm_compute; reflexivity].
Defined.

Lemma combLine_adjacency_symmetric_witness :
  exists st, combLine example_junction = Some st /\
    endLines_at st (0, 1)%nat = Some [(1, 0)%nat] /\ startLines_at st (1, 0)%nat = Some [(0, 1)%nat] /\
    (In (1, 0)%nat [(1, 0)%nat] <-> In (0, 1)%nat [(0, 1)%nat]).
Proof.
  eexists. split; [vm_compute; reflexivity|]. split; [vm_compute; reflexivity|].
  split; [vm_compute; reflexivity|].
  eapply (combLine_adjacency_symmetric example_junction);
    [repeat constructor|vm_compute; reflexivity..].
Defined.

(** The end of the first segment of connection 0 is the start of its
    second, and still [endLines] of the first segment is empty. *)
Lemma combLine_no_self_links_witness :
  exists st, combLine example_junction = Some st /\
    endLines_at st (0, 0)%nat = Some [] /\ endLines_at st (0, 1)%nat = Some [(1, 0)%nat] /\
    fst (0, 1)%nat <> fst (1, 0)%nat.
Proof.
  eexists. split; [vm_compute; reflexivity|]. split; [vm_compute; reflexivity|].
  split; [vm_compute; reflexivity|].
  eapply (combLine_no_self_links example_junction _ (0, 1)%nat (1, 0)%nat [(1, 0)%nat]);
    [repeat constructor|vm_compute; reflexivity|vm_compute; reflexivity|left; reflexivity].
Defined.

Lemma combLine_roundtrip_witness :
  exists st, combLine example_junction = Some st /\
    exists segs, traverse_opt SplitLine.paths (segs_of st 0) = Some segs /\
      join_paths segs = Some (to_paths [mkCoord 0 0; mkCoord 100 0; mkCoord 100 80]).
Proof.
  eexists. split; [vm_compute; reflexivity|].
  apply (combLine_roundtrip example_junction _ 0
           (LineObj.config [mkCoord 0 0; mkCoord 100 0; mkCoord 100 80] "down" None None));
    [repeat constructor|vm_compute; reflexivity|reflexivity|vm_compute; lia].
Defined.

End SegmentGraph.
