(* ===== verification/Projector.v ===== *)
(** * Projector: [handleDataBeforeDraw] (index.ts lines 205-236) and [init]

    For every connection, [originLength] is reset to [0] (line 211) and each
    segment, in order, gets
    - [fromPixel]: [getScreen] of its start for the first segment (or when
      the previous one has no [toPixel]), else a copy of the previous
      segment's [toPixel] (lines 214-219);
    - [toPixel]: [getScreen] of its end (lines 220-223);
    - [angle]: [getAngle] of its [paths] with origin ['top'], unless already
      set (lines 225-231);
    - [length]: its [originLength], unless already set (line 233).
    The previous segment is read from the array after its own update, so the
    loop is a left-to-right pass carrying the updated predecessor.
    [init] (lines 145-148) is [combLine] followed by this pass. *)

From Stdlib Require Import QArith ZArith List String Lia Bool.
From S2P Require Import Prelude Geometry Types SegmentGraph.
Import ListNotations.

Open Scope Q_scope.
Open Scope js_scope.

Module Projector.

(** [const referencePoint = { x: 0, y: 0 }]. *)
Definition referencePoint : Coordinate := mkCoord 0 0.

(** One iteration of the inner [forEach], [prev] being
    [lineObj.splitLines[i - 1]] ([None] when [i == 0]). *)
Definition project_seg (prev : option SplitLine.t) (v : SplitLine.t) : option SplitLine.t :=
  let* p := SplitLine.paths v in
  let '((x0, y0), (x1, y1)) := p in
  let fromPixel :=
    match prev with
    | Some pv =>
        match SplitLine.toPixel pv with
        | Some tp => tp
        | None => getScreen (mkCoord x0 y0) referencePoint
        end
    | None => getScreen (mkCoord x0 y0) referencePoint
    end in
  let toPixel := getScreen (mkCoord x1 y1) referencePoint in
  let angle :=
    match SplitLine.angle v with
    | Some a => Some a
    | None => Some (getAngle (mkCoord x0 y0) (mkCoord x1 y1) "top")
    end in
  let len :=
    match SplitLine.length v with
    | Some l => Some l
    | None => SplitLine.originLength v
    end in
  Some (SplitLine.set_projection angle len fromPixel toPixel v).

Fixpoint project_segs (prev : option SplitLine.t) (ss : list SplitLine.t) : option (list SplitLine.t) :=
  match ss with
  | [] => Some []
  | v :: ss' =>
      let* v' := project_seg prev v in
      let* r := project_segs (Some v') ss' in
      Some (v' :: r)
  end.

(** The body of the outer [forEach]. *)
Definition project_line (l : LineObj.t) : option LineObj.t :=
  let l0 := LineObj.set_originLength 0 l in
  let* ss := LineObj.splitLines l0 in
  let* ss' := project_segs None ss in
  Some (LineObj.set_splitLines ss' l0).

Definition handleDataBeforeDraw (lineData : list LineObj.t) : option (list LineObj.t) :=
  traverse_opt project_line lineData.

(** [init()]: [combLine()] then [handleDataBeforeDraw()]. *)
Definition init (lineData : list LineObj.t) : option (list LineObj.t) :=
  let* st := SegmentGraph.combLine lineData in
  handleDataBeforeDraw st.

(** A segment ready for the flow renderer: every field it reads is set. *)
Definition projected (v : SplitLine.t) : Prop :=
  SplitLine.length v <> None /\ SplitLine.fromPixel v <> None /\
  SplitLine.toPixel v <> None /\ SplitLine.angle v <> None.

(** The references a segment holds: its [endLines] and [startLines]. *)
Definition seg_links (v : SplitLine.t) : option (list SegRef) * option (list SegRef) :=
  (SplitLine.endLines v, SplitLine.startLines v).

(** The store is well typed as a graph: every segment has its [endLines]
    and [startLines] arrays, and every reference in them names a segment
    of the store (no dangling reference). *)
Definition refs_valid (st : list LineObj.t) : Prop :=
  forall r v, seg_at st r = Some v ->
    exists e s, SplitLine.endLines v = Some e /\ SplitLine.startLines v = Some s /\
      Forall (fun b => seg_at st b <> None) (e ++ s).

(** ** One segment *)

Lemma project_seg_some prev v v' :
  project_seg prev v = Some v' ->
  exists x0 y0 x1 y1,
    SplitLine.paths v = Some ((x0, y0), (x1, y1)) /\
    SplitLine.paths v' = SplitLine.paths v /\
    SplitLine.toPixel v' = Some (getScreen (mkCoord x1 y1) referencePoint) /\
    SplitLine.fromPixel v' =
      Some (match prev with
            | Some pv => match SplitLine.toPixel pv with
                         | Some tp => tp
                         | None => getScreen (mkCoord x0 y0) referencePoint end
            | None => getScreen (mkCoord x0 y0) referencePoint end) /\
    SplitLine.angle v' =
      Some (match SplitLine.angle v with
            | Some a => a
            | None => getAngle (mkCoord x0 y0) (mkCoord x1 y1) "top" end) /\
    SplitLine.length v' =
      match SplitLine.length v with Some l => Some l | None => SplitLine.originLength v end /\
    SplitLine.originLength v' = SplitLine.originLength v.
Proof.
  unfold project_seg. destruct (SplitLine.paths v) as [[[x0 y0] [x1 y1]]|] eqn:Ep; [|discriminate].
  intros [= <-]. exists x0, y0, x1, y1. destruct v as [[a|] [l|] ? ? ? ? ? ?]; simpl in *; auto 10.
Qed.

(** Projecting a projected segment again, after the same predecessor,
    changes nothing. *)
Lemma project_seg_idem prev v v' : project_seg prev v = Some v' -> project_seg prev v' = Some v'.
Proof.
  unfold project_seg. destruct (SplitLine.paths v) as [[[x0 y0] [x1 y1]]|] eqn:Ep; [|discriminate].
  intros [= <-].
  destruct v as [[a|] [l|] [o|] ? ? ? ? ?]; simpl in Ep; subst; reflexivity.
Qed.

Lemma project_segs_idem prev ss ss' :
  project_segs prev ss = Some ss' -> project_segs prev ss' = Some ss'.
Proof.
  revert prev ss'; induction ss as [|v ss IH]; intros prev ss' H; simpl in H.
  - now injection H as <-.
  - destruct (project_seg prev v) as [v'|] eqn:E1; [|discriminate].
    destruct (project_segs (Some v') ss) as [r|] eqn:E2; [|discriminate].
    injection H as <-. simpl. rewrite (project_seg_idem _ _ _ E1), (IH _ _ E2). reflexivity.
Qed.

Lemma project_segs_cons prev ss v' r :
  project_segs prev ss = Some (v' :: r) ->
  exists v ss0, ss = v :: ss0 /\ project_seg prev v = Some v' /\ project_segs (Some v') ss0 = Some r.
Proof.
  destruct ss as [|v ss0]; simpl; [discriminate|].
  destruct (project_seg prev v) as [v0|] eqn:E1; [|discriminate].
  destruct (project_segs (Some v0) ss0) eqn:E2; [|discriminate].
  intros [= <- <-]. eauto.
Qed.

(** Inside one connection, each [fromPixel] is the previous [toPixel]. *)
Lemma project_segs_chain prev ss ss' :
  project_segs prev ss = Some ss' ->
  forall j u w, nth_error ss' j = Some u -> nth_error ss' (S j) = Some w ->
    SplitLine.toPixel u <> None /\ SplitLine.fromPixel w = SplitLine.toPixel u.
Proof.
  revert prev ss; induction ss' as [|v' r IH]; intros prev ss H j u w Hu Hw; [destruct j; discriminate|].
  destruct (project_segs_cons _ _ _ _ H) as (v & ss0 & -> & E1 & E2).
  destruct j as [|j]; simpl in Hu, Hw.
  - injection Hu as <-. destruct r as [|w' r]; [discriminate|]. injection Hw as <-.
    destruct (project_segs_cons _ _ _ _ E2) as (v2 & ss1 & -> & E3 & _).
    destruct (project_seg_some _ _ _ E1) as (? & ? & ? & ? & _ & _ & Ht & _).
    destruct (project_seg_some _ _ _ E3) as (? & ? & ? & ? & _ & _ & _ & Hf & _).
    rewrite Hf, Ht. split; [discriminate | reflexivity].
  - exact (IH _ _ E2 j u w Hu Hw).
Qed.

Lemma project_segs_projected prev ss ss' :
  Forall (fun v => SplitLine.originLength v <> None) ss ->
  project_segs prev ss = Some ss' -> Forall projected ss'.
Proof.
  revert prev ss; induction ss' as [|v' r IH]; intros prev ss Ho H; [constructor|].
  destruct (project_segs_cons _ _ _ _ H) as (v & ss0 & -> & E1 & E2).
  inversion Ho as [|? ? Hv Hss0]; subst.
  destruct (project_seg_some _ _ _ E1) as (? & ? & ? & ? & _ & _ & Ht & Hf & Ha & Hl & _).
  constructor; [|exact (IH _ _ Hss0 E2)].
  unfold projected. rewrite Ht, Hf, Ha, Hl.
  destruct (SplitLine.length v); repeat split; congruence.
Qed.

Lemma project_line_some l l' :
  project_line l = Some l' ->
  exists ss ss', LineObj.splitLines l = Some ss /\ project_segs None ss = Some ss' /\
    l' = LineObj.set_splitLines ss' (LineObj.set_originLength 0 l).
Proof.
  unfold project_line. simpl. destruct (LineObj.splitLines l) as [ss|]; [|discriminate].
  destruct (project_segs None ss) as [ss'|] eqn:E; [|discriminate]. intros [= <-]. eauto.
Qed.

Lemma project_line_idem l l' : project_line l = Some l' -> project_line l' = Some l'.
Proof.
  intro H. destruct (project_line_some _ _ H) as (ss & ss' & _ & E & ->).
  unfold project_line. simpl. rewrite (project_segs_idem _ _ _ E). reflexivity.
Qed.

Lemma project_segs_total prev ss :
  Forall (fun v => SplitLine.paths v <> None) ss -> exists ss', project_segs prev ss = Some ss'.
Proof.
  intro H. revert prev. induction H as [|v ss Hv _ IH]; intro prev; simpl; [eauto|].
  destruct (project_seg prev v) as [v'|] eqn:E.
  - destruct (IH (Some v')) as [r ->]. eauto.
  - unfold project_seg in E. destruct (SplitLine.paths v) as [[[? ?] [? ?]]|]; [discriminate | congruence].
Qed.

Lemma project_segs_length_origin prev ss ss' :
  Forall (fun v => SplitLine.length v = None) ss -> project_segs prev ss = Some ss' ->
  Forall (fun v => SplitLine.length v = SplitLine.originLength v) ss'.
Proof.
  revert prev ss; induction ss' as [|v' r IH]; intros prev ss Ho H; [constructor|].
  destruct (project_segs_cons _ _ _ _ H) as (v & ss0 & -> & E1 & E2).
  inversion Ho as [|? ? Hv Hss0]; subst.
  destruct (project_seg_some _ _ _ E1) as (? & ? & ? & ? & _ & _ & _ & _ & _ & Hl & Ho').
  constructor; [|exact (IH _ _ Hss0 E2)]. rewrite Hl, Hv, Ho'. reflexivity.
Qed.

(** What [handleDataBeforeDraw] needs of a segment, kept by [strip]. *)
Definition seg_input (v : SplitLine.t) : Prop :=
  SplitLine.paths v <> None /\ SplitLine.originLength v <> None /\ SplitLine.length v = None.

Lemma seg_input_strip v : seg_input (SegmentGraph.strip v) <-> seg_input v.
Proof. destruct v; reflexivity. Qed.

Definition line_input (l : LineObj.t) : Prop :=
  exists ss, LineObj.splitLines l = Some ss /\ Forall seg_input ss.

Lemma line_input_strip l l2 :
  SegmentGraph.strip_line l = SegmentGraph.strip_line l2 -> line_input l2 -> line_input l.
Proof.
  intros E [ss2 [H2 F2]]. unfold SegmentGraph.strip_line in E. rewrite H2 in E.
  destruct (LineObj.splitLines l) as [ss|] eqn:H.
  - exists ss. split; [exact H|].
    assert (Hs : map SegmentGraph.strip ss = map SegmentGraph.strip ss2)
      by (apply (f_equal LineObj.splitLines) in E; destruct l, l2; simpl in *; congruence).
    rewrite Forall_forall in *. intros v Hv.
    assert (Hin : In (SegmentGraph.strip v) (map SegmentGraph.strip ss2))
      by (rewrite <- Hs; apply in_map; exact Hv).
    apply in_map_iff in Hin as [v2 [E2 Hv2]].
    apply (proj1 (seg_input_strip v)). rewrite <- E2. apply (proj2 (seg_input_strip v2)). auto.
  - apply (f_equal LineObj.splitLines) in E. destruct l, l2; simpl in *; congruence.
Qed.

Lemma measured_input l : LineObj.splitLines l = None -> line_input (SegmentGraph.measured l).
Proof.
  intro H. eexists. split; [reflexivity|]. apply Forall_forall. intros v Hv.
  apply in_map_iff in Hv as [[[x0 y0] [x1 y1]] [<- _]]. unfold seg_input. simpl.
  repeat split; discriminate.
Qed.

(** ** References *)

Lemma project_seg_links prev v v' : project_seg prev v = Some v' -> seg_links v' = seg_links v.
Proof.
  unfold project_seg. destruct (SplitLine.paths v) as [[[? ?] [? ?]]|]; [|discriminate].
  intros [= <-]. destruct v; reflexivity.
Qed.

Lemma project_segs_links prev ss ss' :
  project_segs prev ss = Some ss' -> Forall2 (fun v v' => seg_links v' = seg_links v) ss ss'.
Proof.
  revert prev ss'; induction ss as [|v ss IH]; intros prev ss' H; simpl in H.
  - injection H as <-. constructor.
  - destruct (project_seg prev v) as [v'|] eqn:E1; [|discriminate].
    destruct (project_segs (Some v') ss) as [r|] eqn:E2; [|discriminate].
    injection H as <-. constructor; [exact (project_seg_links _ _ _ E1)|exact (IH _ _ E2)].
Qed.

Lemma handleDataBeforeDraw_links st st' r :
  handleDataBeforeDraw st = Some st' -> option_map seg_links (seg_at st' r) = option_map seg_links (seg_at st r).
Proof.
  intros H. destruct r as [i j]. unfold seg_at, segs_of. simpl.
  pose proof (Forall2_nth_error _ _ _ i (traverse_opt_Forall2 _ _ _ H)) as F.
  destruct (nth_error st i) as [l|], (nth_error st' i) as [l'|]; try contradiction; [|reflexivity].
  destruct (project_line_some _ _ F) as (ss & ss' & Hs & E & ->). simpl. rewrite Hs.
  pose proof (Forall2_nth_error _ _ _ j (project_segs_links _ _ _ E)) as G.
  destruct (nth_error ss j), (nth_error ss' j); try contradiction; simpl; congruence.
Qed.

Lemma handleDataBeforeDraw_seg_at st st' r :
  handleDataBeforeDraw st = Some st' -> (seg_at st' r <> None <-> seg_at st r <> None).
Proof.
  intros H. pose proof (handleDataBeforeDraw_links st st' r H) as E.
  destruct (seg_at st' r), (seg_at st r); simpl in E; split; congruence.
Qed.

(** ** Claims *)

(** (C19) Continuity: within a connection, after [handleDataBeforeDraw],
    every segment's [fromPixel] is the previous segment's [toPixel]. *)
Theorem handleDataBeforeDraw_continuous st st' i j u w :
  handleDataBeforeDraw st = Some st' ->
  nth_error (segs_of st' i) j = Some u -> nth_error (segs_of st' i) (S j) = Some w ->
  SplitLine.toPixel u <> None /\ SplitLine.fromPixel w = SplitLine.toPixel u.
Proof.
  intros H Hu Hw. unfold segs_of in Hu, Hw.
  destruct (nth_error st' i) as [l'|] eqn:Ei; [|destruct j; discriminate].
  destruct (traverse_opt_nth _ _ _ _ _ H Ei) as (l & _ & Hl).
  destruct (project_line_some _ _ Hl) as (ss & ss' & _ & E & ->). simpl in Hu, Hw.
  exact (project_segs_chain _ _ _ E j u w Hu Hw).
Qed.

(** (C30) [handleDataBeforeDraw] is idempotent: a second pass over its result
    recomputes the same pixels and keeps the angles and lengths. *)
Theorem handleDataBeforeDraw_idempotent st st' :
  handleDataBeforeDraw st = Some st' -> handleDataBeforeDraw st' = Some st'.
Proof.
  unfold handleDataBeforeDraw. revert st'.
  induction st as [|l st IH]; intros st' H; simpl in H.
  - now injection H as <-.
  - destruct (project_line l) as [l'|] eqn:E1; [|discriminate].
    destruct (traverse_opt project_line st) as [r|] eqn:E2; [|discriminate].
    injection H as <-. simpl. rewrite (project_line_idem _ _ E1), (IH r eq_refl). reflexivity.
Qed.

(** (C23) After [init], every connection's [originLength] is [0]:
    [handleDataBeforeDraw] resets the total that [combLine] computed and
    never adds the segments back. *)
Theorem init_originLength_zero lineData st :
  init lineData = Some st -> Forall (fun l => LineObj.originLength l = Some 0) st.
Proof.
  unfold init. destruct (SegmentGraph.combLine lineData) as [st1|]; [|discriminate]. intro H.
  apply Forall_forall. intros l' Hl'. apply In_nth_error in Hl' as [i Hi].
  destruct (traverse_opt_nth _ _ _ _ _ H Hi) as (l & _ & Hl).
  destruct (project_line_some _ _ Hl) as (? & ? & _ & _ & ->). reflexivity.
Qed.

(** The connections [init] leaves on a configuration: each has its
    segments, all projected, with [length = originLength]. *)
Lemma init_lines lineData :
  Forall (fun l => LineObj.splitLines l = None) lineData ->
  exists st, init lineData = Some st /\
    forall l', In l' st -> exists ss', LineObj.splitLines l' = Some ss' /\
      Forall (fun v => projected v /\ SplitLine.length v = SplitLine.originLength v) ss'.
Proof.
  intro Hcfg. destruct (SegmentGraph.combLine_config lineData Hcfg) as (st1 & E1 & G & _).
  assert (Hin : Forall line_input st1).
  { apply Forall_forall. intros l1 H1. apply (in_map SegmentGraph.strip_line) in H1.
    rewrite G, map_map in H1. apply in_map_iff in H1 as [l [E Hl]].
    apply (line_input_strip _ (SegmentGraph.measured l)); [symmetry; exact E|].
    apply measured_input. rewrite Forall_forall in Hcfg. auto. }
  rewrite Forall_forall in Hin.
  assert (Ht : exists st, traverse_opt project_line st1 = Some st).
  { apply traverse_opt_Some. intros l Hl.
    destruct (Hin l Hl) as [ss [Hs Fs]].
    destruct (project_segs_total None ss) as [ss' Hss'].
    { eapply Forall_impl; [|exact Fs]. intros v [? _]; assumption. }
    unfold project_line. simpl. rewrite Hs, Hss'. discriminate. }
  destruct Ht as [st Ht]. exists st. unfold init. rewrite E1. split; [exact Ht|].
  intros l' Hl'. apply In_nth_error in Hl' as [i Ei].
  destruct (traverse_opt_nth _ _ _ _ _ Ht Ei) as (l & Hl & Hp).
  destruct (project_line_some _ _ Hp) as (ss & ss' & Hs & E & ->).
  exists ss'. split; [reflexivity|]. apply nth_error_In in Hl.
  destruct (Hin l Hl) as [ss0 [Hs0 Fs]]. rewrite Hs in Hs0. injection Hs0 as <-.
  pose proof (project_segs_projected None ss ss'
    (Forall_impl _ (fun w (H : seg_input w) => proj1 (proj2 H)) Fs) E) as F1.
  pose proof (project_segs_length_origin None ss ss'
    (Forall_impl _ (fun w (H : seg_input w) => proj2 (proj2 H)) Fs) E) as F2.
  rewrite Forall_forall in F1, F2 |- *. auto.
Qed.

(** (C7) On a configuration, [init] never throws, and leaves every segment
    with [length], [fromPixel], [toPixel] and [angle] set, its [length]
    being its [originLength]: all the flow renderer reads. *)
Theorem init_projected lineData :
  Forall (fun l => LineObj.splitLines l = None) lineData ->
  exists st, init lineData = Some st /\
    forall r v, seg_at st r = Some v -> projected v /\ SplitLine.length v = SplitLine.originLength v.
Proof.
  intro Hcfg. destruct (init_lines lineData Hcfg) as (st & Hi & Hl). exists st. split; [exact Hi|].
  intros [i j] v Hv. unfold seg_at, segs_of in Hv. simpl in Hv.
  destruct (nth_error st i) as [l'|] eqn:Ei; [|destruct j; discriminate].
  destruct (Hl l' (nth_error_In _ _ Ei)) as (ss' & Hs & F). rewrite Hs in Hv.
  rewrite Forall_forall in F. exact (F v (nth_error_In _ _ Hv)).
Qed.

(** (C8) Type of the store: after [init] on a configuration every segment
    has its [endLines] and [startLines] arrays, and every reference they
    hold names an existing segment: the graph has no dangling edge. *)
Theorem init_refs_valid lineData st :
  Forall (fun l => LineObj.splitLines l = None) lineData -> init lineData = Some st -> refs_valid st.
Proof.
  intros Hcfg Hi. destruct (SegmentGraph.combLine_config lineData Hcfg) as (st1 & E1 & _ & A).
  unfold init in Hi. rewrite E1 in Hi. intros r v Hv.
  pose proof (handleDataBeforeDraw_links _ _ r Hi) as L. rewrite Hv in L.
  destruct (seg_at st1 r) as [v1|] eqn:Hv1; [|discriminate].
  unfold seg_links in L. simpl in L. injection L as Le Ls.
  assert (Hr : In r (SegmentGraph.all_refs st1)) by (apply SegmentGraph.in_all_refs; congruence).
  destruct (A r Hr) as [Ae As].
  unfold SegmentGraph.endLines_at, SegmentGraph.startLines_at in Ae, As. rewrite Hv1 in Ae, As.
  exists (SegmentGraph.ends_ref st1 r), (SegmentGraph.starts_ref st1 r).
  rewrite Le, Ls, Ae, As. split; [reflexivity|split; [reflexivity|]].
  apply Forall_forall. intros b Hb. apply (handleDataBeforeDraw_seg_at _ _ b Hi).
  apply SegmentGraph.in_all_refs.
  unfold SegmentGraph.ends_ref, SegmentGraph.starts_ref in Hb.
  apply in_app_or in Hb as [Hb|Hb]; apply filter_In in Hb; tauto.
Qed.

(** ** Witnesses *)

Lemma handleDataBeforeDraw_continuous_witness :
  exists st' u w,
    handleDataBeforeDraw (dflt [] (SegmentGraph.combLine example_junction)) = Some st' /\
    nth_error (segs_of st' 0) 0 = Some u /\ nth_error (segs_of st' 0) 1 = Some w /\
    SplitLine.toPixel u <> None /\ SplitLine.fromPixel w = SplitLine.toPixel u.
Proof.
  do 3 eexists. split; [vm_compute; reflexivity|].
  split; [vm_compute; reflexivity|]. split; [vm_compute; reflexivity|].
  eapply (handleDataBeforeDraw_continuous (dflt [] (SegmentGraph.combLine example_junction)) _ 0 0);
    vm_compute; reflexivity.
Defined.

Lemma handleDataBeforeDraw_idempotent_witness :
  exists st', handleDataBeforeDraw (dflt [] (SegmentGraph.combLine test_lineData)) = Some st' /\
              handleDataBeforeDraw st' = Some st'.
Proof.
  eexists. split; [vm_compute; reflexivity|].
  eapply (handleDataBeforeDraw_idempotent (dflt [] (SegmentGraph.combLine test_lineData)));
    vm_compute; reflexivity.
Defined.

Lemma init_originLength_zero_witness :
  exists st, init test_lineData = Some st /\ Forall (fun l => LineObj.originLength l = Some 0) st.
Proof.
  eexists. split; [vm_compute; reflexivity|].
  eapply (init_originLength_zero test_lineData). vm_compute; reflexivity.
Defined.

Lemma init_projected_witness :
  exists st, init example_junction = Some st /\
    forall r v, seg_at st r = Some v -> projected v /\ SplitLine.length v = SplitLine.originLength v.
Proof. apply init_projected. repeat constructor. Defined.

Lemma init_refs_valid_witness :
  exists st, init example_junction = Some st /\ refs_valid st.
Proof.
  eexists. split; [vm_compute; reflexivity|].
  apply (init_refs_valid example_junction); [repeat constructor|vm_compute; reflexivity].
Defined.

End Projector.
