(* ===== verification/FlowRenderer.v ===== *)
(** * FlowRenderer: one frame of the flow animation

    [setLineSpace] (index.ts lines 487-503) and the per-frame function
    [drawOneArrow] of [drawFlow] (lines 405-472) with its helpers
    [getLinearGradient] (lines 396-404) and [drawArrow] (lines 440-464).
    The flow canvas is modelled by the list of drawing calls a frame issues
    ([FlowOp]); a stroke [beginPath; strokeStyle = g; moveTo(a, 0);
    lineTo(b, 0); stroke()] is the single operation [Stroke g a b].
    [this.flowLength] and [this.stepSize] are the Section variables
    [flowLength] and [stepSize].  The [while] loop that places the arrows on
    a segment runs on fuel: [None] is "out of fuel", and the theorems give
    the fuel that suffices when the step is positive and show that no fuel
    suffices when it is negative.  [None] is also an exception of the host:
    [addColorStop] throws for a stop outside [[0, 1]] (a negative
    [flowLength]) and for a colour string that does not parse (a flow
    [color] of other than two or three numbers). *)

From Stdlib Require Import QArith Qround ZArith List String Lia Lqa Bool.
From S2P Require Import Prelude Geometry Types.
Import ListNotations.

Open Scope Q_scope.
Open Scope js_scope.

Module FlowRenderer.

(** [ctx.createLinearGradient(x0, 0, x1, 0)] with its colour stops
    [(offset, rgb, alpha)]. *)
Record Gradient := mkGradient { g_x0 : Q; g_x1 : Q; g_stops : list (Q * list Q * Q) }.

(** [rgba(${color.join()}, alpha)] parses as a CSS colour (CSS Color 4's
    legacy [rgba()]: three channels and an optional alpha, comma separated)
    exactly when [color] has three numbers, or two, the alpha then read as
    the blue channel. *)
Definition rgba_parses (color : list Q) : bool :=
  Nat.eqb (List.length color) 3 || Nat.eqb (List.length color) 2.

(** [grd.addColorStop(offset, `rgba(${color.join()}, alpha)`)]: an offset
    outside [[0, 1]] throws [IndexSizeError], a colour that does not parse
    throws [SyntaxError]. *)
Definition addColorStop (offset : Q) (color : list Q) (alpha : Q) : option (Q * list Q * Q) :=
  if (offset <? 0) || (1 <? offset) then None
  else if rgba_parses color then Some (offset, color, alpha) else None.

(** The calls [drawOneArrow] makes on the flow canvas context. *)
Inductive FlowOp :=
| ClearRect
| Save
| Restore
| Translate (p : Coordinate)
| Rotate (a : Angle)
| SetLineWidth (w : Q)
| SetLineCap (c : string)
| Stroke (g : Gradient) (from to : Q).

Section Frame.
Variables flowLength stepSize : Q.

  (** [getLinearGradient(x, color)]: the stop [minNum] is
      [(flowLength - 1) / flowLength], raised to [0] when negative
      ([-Infinity] when [flowLength] is [0]). *)
Definition minNum : Q :=
    match js_div (flowLength - 1) flowLength with
    | JFin q => if q <? 0 then 0 else q
    | JNegInf => 0
    | JPosInf | JNaN => 1
    end.

Definition getLinearGradient (x : Q) (color : list Q) : option Gradient :=
    let* s0 := addColorStop 0 color 0 in
    let* s1 := addColorStop minNum color 1 in
    let* s2 := addColorStop 1 color 1 in
    Some (mkGradient x (x + flowLength) [s0; s1; s2]).

  (** [drawArrow(nextDrawLength)] on a segment of display length [L]. *)
Definition drawArrow (L : Q) (color : list Q) (n : Q) : option (list FlowOp) :=
    if (- flowLength <? n) && (n <? 0) then
      let r := js_min (flowLength + n) L in
      if r <? (1 # 2) then Some []
      else let* g := getLinearGradient n color in Some [Stroke g 0 r]
    else if (0 <? n) && (L - flowLength <? n) then
      if L - n <? (1 # 2) then Some []
      else let* g := getLinearGradient n color in Some [Stroke g n L]
    else if (0 <=? n) && (n <=? L - flowLength) then
      let* g := getLinearGradient n color in Some [Stroke g n (n + flowLength)]
    else Some [].

  (** [while (nextDrawLength < v.length) { drawArrow(nextDrawLength);
      nextDrawLength += step }]: the cursors at which [drawArrow] is called. *)
Fixpoint loop_cursors (fuel : nat) (L step n : Q) : option (list Q) :=
    match fuel with
    | O => None
    | S f => if n <? L then let* rest := loop_cursors f L step (n + step) in Some (n :: rest)
             else Some []
    end.

Fixpoint arrow_loop (fuel : nat) (L step : Q) (color : list Q) (n : Q) : option (list FlowOp) :=
    match fuel with
    | O => None
    | S f => if n <? L then
               let* ops := drawArrow L color n in
               let* rest := arrow_loop f L step color (n + step) in
               Some (ops ++ rest)
             else Some []
    end.

  (** The starting cursor [splitLineSpace] of a segment: [None] is NaN,
      which [remain] is when [step] is [0]. *)
Definition splitLineSpace (lastAllLength lineSpace step : Q) : option Q :=
    let* remain := js_mod (lastAllLength - lineSpace) step in
    Some (if remain =? 0 then 0 else - remain).

  (** The style of a connection's flow: [flowWidth], [color], [lineCap]. *)
Record Style := mkStyle { st_width : Q; st_color : list Q; st_cap : string }.

  (** One iteration of [lineObj.splitLines.forEach((v, i) => ...)]: from the
      running [allLength], the new one and the calls made.  A segment without
      [length], [fromPixel] or [angle] is outside the model ([None]); after
      [init] there is none ([Projector.init_projected]). *)
Definition draw_segment (fuel : nat) (lineSpace : Q) (nsegs : nat) (sty : Style)
      (i : nat) (v : SplitLine.t) (allLength : Q) : option (Q * list FlowOp) :=
    let* L := SplitLine.length v in
    let lastAllLength := allLength in
    let allLength' := allLength + L in
    if (Nat.eqb i 0 || Nat.eqb i (nsegs - 1)) && (L <? flowLength) then Some (allLength', [])
    else if allLength' <? lineSpace then Some (allLength', [])
    else
      let step := flowLength + stepSize in
      let* fp := SplitLine.fromPixel v in
      let* a := SplitLine.angle v in
      let pre := [Save; Translate fp; Rotate a; SetLineWidth (st_width sty); SetLineCap (st_cap sty)] in
      match splitLineSpace lastAllLength lineSpace step with
      | None => Some (allLength', pre ++ [Restore])
      | Some start =>
          let* body := arrow_loop fuel L step (st_color sty) start in
          Some (allLength', pre ++ body ++ [Restore])
      end.

Fixpoint draw_segments (fuel : nat) (lineSpace : Q) (nsegs : nat) (sty : Style)
      (i : nat) (ss : list SplitLine.t) (allLength : Q) : option (list FlowOp) :=
    match ss with
    | [] => Some []
    | v :: ss' =>
        let* r := draw_segment fuel lineSpace nsegs sty i v allLength in
        let '(all', ops) := r in
        let* rest := draw_segments fuel lineSpace nsegs sty (S i) ss' all' in
        Some (ops ++ rest)
    end.

  (** The body of [this.lineData.forEach((lineObj, lineIndex) => ...)], with
      the destructuring defaults of [flowOption]. *)
Definition draw_line (fuel : nat) (l : LineObj.t) : option (list FlowOp) :=
    let fo := match LineObj.flowOption l with Some f => f | None => FlowOption.empty end in
    let flowWidth := match FlowOption.flowWidth fo with Some w => w | None => 3 end in
    let color := match FlowOption.color fo with Some c => c | None => [255; 255; 255] end in
    let isDrawFlow := match FlowOption.isDrawFlow fo with Some b => b | None => true end in
    let lineCap := match FlowOption.lineCap fo with Some c => c | None => "round"%string end in
    if negb isDrawFlow then Some []
    else
      let* ls := LineObj.lineSpace l in
      let lineSpace := ls - flowLength in
      let* ss := LineObj.splitLines l in
      draw_segments fuel lineSpace (List.length ss) (mkStyle flowWidth color lineCap) 0 ss 0.

  (** [setSpace(lineObj)] after [lineObj.lineSpace = null]. *)
Definition setSpace (arrowRunPx : Q) (l : LineObj.t) : LineObj.t :=
    let lineImgSplit :=
      match LineObj.lineOption l with
      | Some lo => match LineOption.lineImgSplit lo with Some s => s | None => 6 end
      | None => 6
      end in
    let l1 := LineObj.set_lineSpace None l in
    match LineObj.lineSpace l1 with
    | None => LineObj.set_lineSpace (Some (arrowRunPx + lineImgSplit)) l1
    | Some _ => l1
    end.

Definition setLineSpace (arrowRunPx : Q) (lineData : list LineObj.t) : list LineObj.t :=
    map (setSpace arrowRunPx) lineData.

  (** [drawOneArrow()]: clear the flow canvas, set every connection's
      [lineSpace], draw every connection; the new store and the calls. *)
Definition drawOneArrow (fuel : nat) (arrowRunPx : Q) (lineData : list LineObj.t)
      : option (list LineObj.t * list FlowOp) :=
    let st := setLineSpace arrowRunPx lineData in
    let* ops := traverse_opt (draw_line fuel) st in
    Some (st, ClearRect :: List.concat ops).
End Frame.

(** The flow colour [draw_line] reads, with its default. *)
Definition flow_color (l : LineObj.t) : list Q :=
  match FlowOption.color (dflt FlowOption.empty (LineObj.flowOption l)) with
  | Some c => c
  | None => [255; 255; 255]
  end.

(** Every connection's flow colour makes a colour string that parses. *)
Definition flow_colors_ok (st : list LineObj.t) : Prop :=
  Forall (fun l => rgba_parses (flow_color l) = true) st.

(** The three [addColorStop] calls of [getLinearGradient] succeed. *)
Definition gradient_ok (fl : Q) (color : list Q) : bool := (minNum fl <=? 1) && rgba_parses color.

(** What the renderer reads of a segment: [length], [fromPixel], [angle]. *)
Definition drawable (v : SplitLine.t) : Prop :=
  SplitLine.length v <> None /\ SplitLine.fromPixel v <> None /\ SplitLine.angle v <> None.

(** Fuel enough for the arrow loop of a segment of length [L]: the first
    cursor lies above [- step], so [ceil((L + step) / step)] turns and a last
    test suffice. *)
Definition seg_fuel (step L : Q) : nat := S (Z.to_nat (Qceiling ((L + step) / step))).

(** The segments of a store, in drawing order. *)
Definition all_segs (st : list LineObj.t) : list SplitLine.t :=
  flat_map (fun l => dflt [] (LineObj.splitLines l)) st.

(** Fuel enough for every arrow loop of a frame. *)
Definition frame_fuel (step : Q) (st : list LineObj.t) : nat :=
  list_max (map (fun v => seg_fuel step (dflt 0%Q (SplitLine.length v))) (all_segs st)).


(** ** Gradients *)

Lemma minNum_nonneg fl : 0 <= minNum fl.
Proof. unfold minNum. destruct (js_div _ _); try qcase; lra. Qed.

Lemma getLinearGradient_ok fl x color :
  gradient_ok fl color = true ->
  getLinearGradient fl x color =
    Some (mkGradient x (x + fl) [(0, color, 0); (minNum fl, color, 1); (1, color, 1)]).
Proof.
  unfold gradient_ok, getLinearGradient, addColorStop. intros H.
  apply andb_true_iff in H as [H1 H2]. rewrite H2.
  pose proof (minNum_nonneg fl). destruct (qleb_spec (minNum fl) 1); [|discriminate].
  repeat (qcase; simpl); try lra; reflexivity.
Qed.

Lemma getLinearGradient_None fl x color :
  gradient_ok fl color = false -> getLinearGradient fl x color = None.
Proof.
  unfold gradient_ok, getLinearGradient, addColorStop. intros H.
  destruct (rgba_parses color); [rewrite andb_true_r in H|repeat (qcase; simpl); reflexivity].
  destruct (qleb_spec (minNum fl) 1); [discriminate|].
  repeat (qcase; simpl); try lra; reflexivity.
Qed.

Lemma minNum_le_1 fl : 0 <= fl -> minNum fl <= 1.
Proof.
  intros H. unfold minNum, js_div. destruct (qeqb_spec fl 0) as [E|N].
  - destruct (qeqb_spec (fl - 1) 0); [lra|]. destruct (qltb_spec 0 (fl - 1)); [lra|]. lra.
  - simpl. qcase; [lra|]. apply Qle_shift_div_r; lra.
Qed.

Lemma gradient_ok_intro fl color : 0 <= fl -> rgba_parses color = true -> gradient_ok fl color = true.
Proof.
  intros Hf Hc. unfold gradient_ok. rewrite Hc, andb_true_r.
  destruct (qleb_spec (minNum fl) 1) as [_|N]; [reflexivity|]. pose proof (minNum_le_1 fl Hf). lra.
Qed.

Lemma drawArrow_total fl L color n :
  gradient_ok fl color = true -> exists ops, drawArrow fl L color n = Some ops.
Proof.
  intros H. unfold drawArrow. rewrite !(getLinearGradient_ok fl n color H).
  repeat (destruct (_ && _) || destruct (_ <? _)); simpl; eauto.
Qed.

(** ** The arrow loop *)

Lemma loop_cursors_mono fuel fuel' L step n cs :
  loop_cursors fuel L step n = Some cs -> (fuel <= fuel')%nat -> loop_cursors fuel' L step n = Some cs.
Proof.
  revert fuel' n cs; induction fuel as [|f IH]; intros fuel' n cs H Hle; [discriminate|].
  destruct fuel' as [|f']; [lia|]. simpl in *.
  destruct (n <? L); [|exact H].
  destruct (loop_cursors f L step (n + step)) as [r|] eqn:E; [|discriminate].
  rewrite (IH f' _ _ E) by lia. exact H.
Qed.

Lemma arrow_loop_cursors fl fuel L step color n :
  arrow_loop fl fuel L step color n =
  let* cs := loop_cursors fuel L step n in
  let* opss := traverse_opt (drawArrow fl L color) cs in
  Some (List.concat opss).
Proof.
  revert n; induction fuel as [|f IH]; intro n; simpl; [reflexivity|].
  destruct (n <? L); [|reflexivity].
  rewrite IH. destruct (loop_cursors f L step (n + step)) as [cs|]; simpl;
    destruct (drawArrow fl L color n); simpl; try reflexivity.
  destruct (traverse_opt (drawArrow fl L color) cs); reflexivity.
Qed.

Lemma loop_cursors_S f L step n :
  loop_cursors (S f) L step n =
  if n <? L then let* rest := loop_cursors f L step (n + step) in Some (n :: rest) else Some [].
Proof. reflexivity. Qed.

Lemma loop_cursors_fuel L step n (k : nat) :
  L <= n + inject_Z (Z.of_nat k) * step -> 0 <= step -> loop_cursors (S k) L step n <> None.
Proof.
  revert n; induction k as [|k IH]; intros n Hk Hs; rewrite loop_cursors_S.
  - simpl. qcase; [|congruence]. change (inject_Z (Z.of_nat 0)) with 0 in Hk. lra.
  - qcase; [|congruence].
    destruct (loop_cursors (S k) L step (n + step)) as [r|] eqn:E; [congruence|].
    exfalso. apply (IH (n + step)); [|exact Hs|exact E].
    rewrite Nat2Z.inj_succ, <- Z.add_1_r, inject_Z_plus in Hk. change (inject_Z 1) with 1 in Hk. lra.
Qed.

Lemma loop_cursors_shape fuel L step n cs :
  loop_cursors fuel L step n = Some cs ->
  (forall k c, nth_error cs k = Some c -> c == n + inject_Z (Z.of_nat k) * step /\ c < L) /\
  L <= n + inject_Z (Z.of_nat (List.length cs)) * step.
Proof.
  revert n cs; induction fuel as [|f IH]; intros n cs H; simpl in H; [discriminate|].
  revert H. qcase; intro H.
  - destruct (loop_cursors f L step (n + step)) as [r|] eqn:E; [|discriminate].
    injection H as <-. destruct (IH _ _ E) as [Hk Hend]. split.
    + intros [|k] c Hc; simpl in Hc.
      * injection Hc as <-. simpl. split; [ring | assumption].
      * destruct (Hk k c Hc) as [Hc1 Hc2]. split; [|assumption].
        rewrite Hc1, Nat2Z.inj_succ, <- Z.add_1_r, inject_Z_plus. change (inject_Z 1) with 1. ring.
    + change (List.length (n :: r)) with (S (List.length r)). rewrite Nat2Z.inj_succ, <- Z.add_1_r, inject_Z_plus. change (inject_Z 1) with 1.
      revert Hend. generalize (inject_Z (Z.of_nat (List.length r))). intros m Hm. lra.
  - injection H as <-. split; [intros [|k] c [=]|]. change (inject_Z (Z.of_nat (List.length (@nil Q)))) with 0. lra.
Qed.

(** The number of turns of the loop from cursor [n] with step [step]. *)
Definition loop_bound (L step n : Q) : nat := Z.to_nat (Qceiling ((L - n) / step)).

Lemma loop_bound_spec L step n :
  0 < step -> L <= n + inject_Z (Z.of_nat (loop_bound L step n)) * step.
Proof.
  intro Hs. unfold loop_bound. set (q := (L - n) / step).
  assert (Hq : q * step == L - n) by (unfold q; field; lra).
  pose proof (Qle_ceiling q) as Hc.
  destruct (Z.le_ge_cases 0 (Qceiling q)) as [H0|H0].
  - rewrite Z2Nat.id by exact H0. nra.
  - replace (Z.to_nat (Qceiling q)) with 0%nat by lia. change (inject_Z (Z.of_nat 0)) with 0.
    assert (inject_Z (Qceiling q) <= 0) by (rewrite Zle_Qle in H0; exact H0). nra.
Qed.


Lemma loop_cursors_diverge fuel L step n :
  step <= 0 -> n < L -> loop_cursors fuel L step n = None.
Proof.
  revert n; induction fuel as [|f IH]; intros n Hs Hn; [reflexivity|].
  rewrite loop_cursors_S. qcase; [|contradiction]. rewrite IH by lra. reflexivity.
Qed.

Lemma splitLineSpace_some lastAll ls step start :
  splitLineSpace lastAll ls step = Some start ->
  exists r, js_mod (lastAll - ls) step = Some r /\ start == - r.
Proof.
  unfold splitLineSpace. destruct (js_mod (lastAll - ls) step) as [r|]; [|discriminate].
  intros [= <-]. exists r. split; [reflexivity|]. qcase; [rewrite q; reflexivity | reflexivity].
Qed.

Lemma splitLineSpace_range lastAll ls step start :
  0 < step -> splitLineSpace lastAll ls step = Some start -> - step < start < step.
Proof.
  intros Hs H. destruct (splitLineSpace_some _ _ _ _ H) as [r [Hr ->]].
  destruct (Qlt_le_dec (lastAll - ls) 0) as [Hn|Hn].
  - destruct (js_mod_neg_bound step Hs _ _ Hn Hr). lra.
  - destruct (js_mod_nonneg_bound step Hs _ _ Hn Hr). lra.
Qed.

Lemma loop_bound_seg_fuel L step n :
  0 < step -> - step < n -> (S (loop_bound L step n) <= seg_fuel step L)%nat.
Proof.
  intros Hs Hn. unfold loop_bound, seg_fuel.
  assert (Hq : (L - n) / step <= (L + step) / step).
  { unfold Qdiv. apply Qmult_le_compat_r; [lra|]. apply Qinv_le_0_compat. lra. }
  apply Qceiling_resp_le in Hq. lia.
Qed.

Lemma loop_cursors_total fuel L step n :
  0 < step -> - step < n -> (seg_fuel step L <= fuel)%nat -> exists cs, loop_cursors fuel L step n = Some cs.
Proof.
  intros Hs Hn Hf.
  destruct (loop_cursors (S (loop_bound L step n)) L step n) as [cs|] eqn:E.
  - exists cs. apply (loop_cursors_mono _ _ _ _ _ _ E).
    pose proof (loop_bound_seg_fuel L step n Hs Hn). lia.
  - exfalso. apply (loop_cursors_fuel L step n (loop_bound L step n)); [|lra|exact E].
    apply loop_bound_spec, Hs.
Qed.

Ltac destr_if := match goal with |- context [if ?b then _ else _] => destruct b end.

Lemma arrow_loop_total fl fuel L step color n cs :
  gradient_ok fl color = true -> loop_cursors fuel L step n = Some cs ->
  exists ops, arrow_loop fl fuel L step color n = Some ops.
Proof.
  intros Hg Hc. rewrite arrow_loop_cursors, Hc. simpl.
  destruct (traverse_opt_Some (drawArrow fl L color) cs) as [opss ->]; [|simpl; eauto].
  intros c _. destruct (drawArrow_total fl L color c Hg) as [ops ->]. discriminate.
Qed.

Lemma draw_segment_total fl sz fuel lineSpace nsegs sty i v allLength :
  0 < fl + sz -> gradient_ok fl (st_color sty) = true -> drawable v ->
  (seg_fuel (fl + sz) (dflt 0%Q (SplitLine.length v)) <= fuel)%nat ->
  exists r, draw_segment fl sz fuel lineSpace nsegs sty i v allLength = Some r.
Proof.
  intros Hs Hg [HL [Hf Ha]] Hfuel. unfold draw_segment.
  destruct (SplitLine.length v) as [L|]; [|congruence]. simpl in Hfuel.
  destr_if; [eauto|]. destr_if; [eauto|].
  destruct (SplitLine.fromPixel v); [|congruence]. destruct (SplitLine.angle v); [|congruence].
  destruct (splitLineSpace _ _ _) as [start|] eqn:E; [|eauto].
  destruct (loop_cursors_total fuel L (fl + sz) start Hs
              (proj1 (splitLineSpace_range _ _ _ _ Hs E)) Hfuel) as [cs Hc].
  destruct (arrow_loop_total fl fuel L (fl + sz) (st_color sty) start cs Hg Hc) as [ops ->].
  simpl. eauto.
Qed.

Lemma draw_segments_total fl sz fuel lineSpace nsegs sty segs :
  0 < fl + sz -> gradient_ok fl (st_color sty) = true -> Forall drawable segs ->
  (forall v, In v segs -> (seg_fuel (fl + sz) (dflt 0%Q (SplitLine.length v)) <= fuel)%nat) ->
  forall i all, exists ops, draw_segments fl sz fuel lineSpace nsegs sty i segs all = Some ops.
Proof.
  intros Hs Hg Hd. induction Hd as [|v segs Hv _ IH]; intros Hf i all; simpl; [eauto|].
  destruct (draw_segment_total fl sz fuel lineSpace nsegs sty i v all Hs Hg Hv (Hf v (or_introl eq_refl)))
    as [[all' ops] ->].
  destruct (IH (fun w Hw => Hf w (or_intror Hw)) (S i) all') as [rest ->]. eauto.
Qed.

Lemma setSpace_splitLines arp l : LineObj.splitLines (setSpace arp l) = LineObj.splitLines l.
Proof. destruct l as [? ? [[? ? ? ? ? ? ?]|] ? ? ? ? ?]; reflexivity. Qed.

Lemma setSpace_lineSpace arp l : LineObj.lineSpace (setSpace arp l) <> None.
Proof. destruct l as [? ? [[? ? ? ? ? ? ?]|] ? ? ? ? ?]; simpl; congruence. Qed.

Lemma setSpace_flow_color arp l : flow_color (setSpace arp l) = flow_color l.
Proof. destruct l as [? ? [[? ? ? ? ? ? ?]|] ? ? ? ? ?]; reflexivity. Qed.

Lemma frame_fuel_seg step st l segs v :
  In l st -> LineObj.splitLines l = Some segs -> In v segs ->
  (seg_fuel step (dflt 0%Q (SplitLine.length v)) <= frame_fuel step st)%nat.
Proof.
  intros Hl Hs Hv. unfold frame_fuel.
  assert (H : Forall (fun k => (k <= list_max (map (fun v => seg_fuel step (dflt 0%Q (SplitLine.length v)))
                                                  (all_segs st)))%nat)
                     (map (fun v => seg_fuel step (dflt 0%Q (SplitLine.length v))) (all_segs st)))
    by (apply list_max_le; lia).
  rewrite Forall_forall in H. apply H.
  apply (in_map (fun v => seg_fuel step (dflt 0%Q (SplitLine.length v)))). unfold all_segs. apply in_flat_map.
  exists l. rewrite Hs. auto.
Qed.

Lemma draw_line_total fl sz fuel l :
  0 < fl + sz -> gradient_ok fl (flow_color l) = true -> LineObj.lineSpace l <> None ->
  (exists segs, LineObj.splitLines l = Some segs /\ Forall drawable segs /\
     forall v, In v segs -> (seg_fuel (fl + sz) (dflt 0%Q (SplitLine.length v)) <= fuel)%nat) ->
  exists ops, draw_line fl sz fuel l = Some ops.
Proof.
  intros Hs Hg Hls (segs & Hsegs & Hd & Hf). unfold draw_line.
  destr_if; [eauto|].
  destruct (LineObj.lineSpace l); [|congruence]. rewrite Hsegs.
  apply draw_segments_total; assumption.
Qed.

(** ** Claims *)

(** (C10) Termination: with a positive step the arrow loop of a segment stops
    within [loop_bound + 1] turns, every larger fuel gives the same
    cursors, and these are [n, n + step, ...] up to the first one past the
    segment's end. *)
Theorem arrow_loop_terminates fl L step color n :
  0 < step ->
  exists cs,
    arrow_loop fl (S (loop_bound L step n)) L step color n =
      (let* opss := traverse_opt (drawArrow fl L color) cs in Some (List.concat opss)) /\
    (forall fuel, (loop_bound L step n < fuel)%nat -> loop_cursors fuel L step n = Some cs) /\
    (forall k c, nth_error cs k = Some c -> c == n + inject_Z (Z.of_nat k) * step /\ c < L) /\
    L <= n + inject_Z (Z.of_nat (List.length cs)) * step.
Proof.
  intro Hs.
  destruct (loop_cursors (S (loop_bound L step n)) L step n) as [cs|] eqn:E.
  - exists cs. rewrite arrow_loop_cursors, E. split; [reflexivity|].
    split; [intros fuel Hf; apply (loop_cursors_mono _ _ _ _ _ _ E); lia|].
    exact (loop_cursors_shape _ _ _ _ _ E).
  - exfalso. apply (loop_cursors_fuel L step n (loop_bound L step n)); [|lra|exact E].
    apply loop_bound_spec, Hs.
Qed.

(** (C27) With a negative (or zero) step the loop never stops once its
    cursor starts before the segment's end: no fuel suffices. *)
Theorem arrow_loop_diverges fl L step color n fuel :
  step <= 0 -> n < L -> arrow_loop fl fuel L step color n = None.
Proof.
  intros Hs Hn. rewrite arrow_loop_cursors, loop_cursors_diverge by assumption. reflexivity.
Qed.

(** With a zero step, [remain] is NaN and the loop does not run. *)
Theorem splitLineSpace_zero_step lastAll ls step :
  step == 0 -> splitLineSpace lastAll ls step = None.
Proof. intro H. unfold splitLineSpace. rewrite js_mod_zero by exact H. reflexivity. Qed.

(** (C4) Phase: every cursor at which [drawArrow] is called on a segment,
    measured from the start of the connection, is [lineSpace] plus a whole
    number of steps, so the arrows of consecutive segments continue one
    another. *)
Theorem flow_phase lastAll ls step start fuel L cs :
  splitLineSpace lastAll ls step = Some start -> loop_cursors fuel L step start = Some cs ->
  forall c, In c cs -> exists k : Z, lastAll + c == ls + inject_Z k * step.
Proof.
  intros Hs Hl c Hc.
  destruct (splitLineSpace_some _ _ _ _ Hs) as [r [Hr Hst]].
  destruct (js_mod_multiple _ _ _ Hr) as [k Hk].
  apply In_nth_error in Hc as [j Hj].
  destruct (proj1 (loop_cursors_shape _ _ _ _ _ Hl) j c Hj) as [Hc _].
  exists (k + Z.of_nat j)%Z. rewrite Hc, Hst, inject_Z_plus.
  setoid_replace lastAll with (ls + (r + inject_Z k * step)) at 1 by (rewrite <- Hk; ring). ring.
Qed.

(** (C28) The first cursor of a segment lies within one step of its start. *)
Theorem splitLineSpace_bound lastAll ls step start :
  0 < step -> splitLineSpace lastAll ls step = Some start -> - step < start < step.
Proof. apply splitLineSpace_range. Qed.

(** (C3) Clipping: every stroke [drawArrow] issues lies on the segment,
    [0 <= a <= b <= length], is either at least half a pixel long or the
    full [flowLength], and carries the gradient anchored at its cursor. *)
Theorem drawArrow_within fl L color n ops g a b :
  0 <= fl -> drawArrow fl L color n = Some ops -> In (Stroke g a b) ops ->
  0 <= a /\ a <= b /\ b <= L /\ ((1 # 2) <= b - a \/ b - a == fl) /\
  getLinearGradient fl n color = Some g.
Proof.
  intros Hf H Hin. unfold drawArrow, js_min in H. revert H.
  destruct (getLinearGradient fl n color) as [g0|] eqn:G;
    repeat (qcase; simpl); intros H; try discriminate; injection H as <-;
    simpl in Hin; try contradiction; destruct Hin as [Hin|[]]; injection Hin as <- <- <-; repeat split; try lra; auto.
Qed.

(** (C39) A cursor exactly at [0] on a segment shorter than [flowLength]
    draws nothing: none of the three cases of [drawArrow] applies. *)
Theorem drawArrow_zero_gap fl L color : 0 <= L -> L < fl -> drawArrow fl L color 0 = Some [].
Proof.
  intros HL Hf. unfold drawArrow. repeat (qcase; simpl); try lra; reflexivity.
Qed.

(** (C40) The comet fade: for a positive [flowLength] the opaque stop
    [minNum] lies in [[0, 1)], so the stops [0, minNum, 1] are ordered;
    for a negative one it exceeds [1], only its lower side being clamped,
    and [addColorStop] throws: no gradient can be made. *)
Theorem minNum_bounds fl :
  (0 < fl -> 0 <= minNum fl < 1) /\
  (fl < 0 -> 1 < minNum fl /\ forall x color, getLinearGradient fl x color = None).
Proof.
  split.
  - intro H. unfold minNum. rewrite js_div_fin by lra.
    qcase.
    + split; [lra|]. lra.
    + split; [lra|]. apply Qlt_shift_div_r; lra.
  - intro H. assert (Hm : 1 < minNum fl).
    { unfold minNum. rewrite js_div_fin by lra.
      assert (E : (fl - 1) / fl == 1 + (- 1) / fl) by (field; lra).
      assert (P : 0 < (- 1) / fl).
      { setoid_replace ((- 1) / fl) with (1 / (- fl)) by (field; lra).
        apply Qlt_shift_div_l; lra. }
      qcase; lra. }
    split; [exact Hm|]. intros x color. apply getLinearGradient_None.
    unfold gradient_ok. destruct (qleb_spec (minNum fl) 1); [lra|reflexivity].
Qed.

(** (C11) Termination of a frame: with a non-negative [flowLength], a
    positive step [flowLength + stepSize], flow colours that parse, on a
    store whose connections all have segments with
    [length], [fromPixel] and [angle] set (what [init] leaves), and with
    [frame_fuel] turns of fuel for each arrow loop, [drawOneArrow] completes:
    it sets every [lineSpace] and returns the calls of the frame, starting
    with clearing the flow canvas. *)
Theorem drawOneArrow_total fl sz fuel arp st :
  0 <= fl -> 0 < fl + sz -> flow_colors_ok st ->
  (forall l, In l st -> exists segs, LineObj.splitLines l = Some segs /\ Forall drawable segs) ->
  (frame_fuel (fl + sz) st <= fuel)%nat ->
  exists ops, drawOneArrow fl sz fuel arp st = Some (setLineSpace arp st, ClearRect :: ops).
Proof.
  intros Hfl Hs Hc Hst Hf. unfold drawOneArrow.
  destruct (traverse_opt_Some (draw_line fl sz fuel) (setLineSpace arp st)) as [opss ->]; [|eauto].
  intros l' Hl'. unfold setLineSpace in Hl'. apply in_map_iff in Hl' as [l [<- Hl]].
  destruct (Hst l Hl) as (segs & Hsegs & Hd).
  assert (Hg : gradient_ok fl (flow_color (setSpace arp l)) = true).
  { rewrite setSpace_flow_color. apply gradient_ok_intro; [exact Hfl|].
    unfold flow_colors_ok in Hc. rewrite Forall_forall in Hc. auto. }
  destruct (draw_line_total fl sz fuel (setSpace arp l) Hs Hg (setSpace_lineSpace arp l)) as [ops E];
    [|congruence].
  exists segs. rewrite setSpace_splitLines. split; [exact Hsegs|split; [exact Hd|]].
  intros v Hv. pose proof (frame_fuel_seg (fl + sz) st l segs v Hl Hsegs Hv). lia.
Qed.

(** The scenario of the design: [flowLength = 20], [stepSize = 60], a
    segment of length [200] and a start cursor [0] give strokes at
    [0, 80, 160]; the cursor [240] is past the end. *)
Example flow_scenario :
  exists g0 g1 g2,
  arrow_loop 20 4 200 80 [255; 255; 255] 0 = Some [Stroke g0 0 20; Stroke g1 80 100; Stroke g2 160 180].
Proof. do 3 eexists. vm_compute. reflexivity. Qed.

(** ** Witnesses *)

Lemma arrow_loop_terminates_witness :
  0 < 80 /\
  exists cs,
    arrow_loop 20 (S (loop_bound 200 80 0)) 200 80 [255; 255; 255] 0 =
      (let* opss := traverse_opt (drawArrow 20 200 [255; 255; 255]) cs in Some (List.concat opss)) /\
    (forall fuel, (loop_bound 200 80 0 < fuel)%nat -> loop_cursors fuel 200 80 0 = Some cs) /\
    (forall k c, nth_error cs k = Some c -> c == 0 + inject_Z (Z.of_nat k) * 80 /\ c < 200) /\
    200 <= 0 + inject_Z (Z.of_nat (List.length cs)) * 80.
Proof.
  split; [vm_compute; reflexivity|].
  apply (arrow_loop_terminates 20 200 80 [255; 255; 255] 0). vm_compute. reflexivity.
Defined.

Lemma arrow_loop_diverges_witness :
  -5 <= 0 /\ 0 < 200 /\ arrow_loop 20 1000 200 (-5) [255; 255; 255] 0 = None.
Proof.
  split; [vm_compute; discriminate|]. split; [vm_compute; reflexivity|].
  apply arrow_loop_diverges; [vm_compute; discriminate|vm_compute; reflexivity].
Defined.

Lemma splitLineSpace_zero_step_witness : 0 == 0 /\ splitLineSpace 100 6 0 = None.
Proof. split; [reflexivity|]. apply splitLineSpace_zero_step. reflexivity. Defined.

Lemma flow_phase_witness :
  exists start cs, splitLineSpace 100 6 80 = Some start /\ loop_cursors 10 150 80 start = Some cs /\
    forall c, In c cs -> exists k : Z, 100 + c == 6 + inject_Z k * 80.
Proof.
  do 2 eexists. split; [vm_compute; reflexivity|]. split; [vm_compute; reflexivity|].
  eapply (flow_phase 100 6 80 _ 10 150); vm_compute; reflexivity.
Defined.

Lemma splitLineSpace_bound_witness :
  exists start, splitLineSpace 100 6 80 = Some start /\ - 80 < start < 80.
Proof.
  eexists. split; [vm_compute; reflexivity|].
  apply (splitLineSpace_bound 100 6 80); vm_compute; reflexivity.
Defined.

Lemma drawArrow_within_witness :
  exists ops g,
  0 <= 20 /\ drawArrow 20 200 [255; 255; 255] 80 = Some ops /\ In (Stroke g 80 100) ops /\
  (0 <= 80 /\ 80 <= 100 /\ 100 <= 200 /\ ((1 # 2) <= 100 - 80 \/ 100 - 80 == 20) /\
   getLinearGradient 20 80 [255; 255; 255] = Some g).
Proof.
  do 2 eexists. split; [vm_compute; discriminate|]. split; [vm_compute; reflexivity|].
  split; [left; reflexivity|].
  eapply (drawArrow_within 20 200 [255; 255; 255] 80); [vm_compute; discriminate|vm_compute; reflexivity|left; reflexivity].
Defined.

Lemma drawArrow_zero_gap_witness : 0 <= 10 /\ 10 < 20 /\ drawArrow 20 10 [255; 255; 255] 0 = Some [].
Proof.
  split; [vm_compute; discriminate|]. split; [vm_compute; reflexivity|].
  apply drawArrow_zero_gap; [vm_compute; discriminate|vm_compute; reflexivity].
Defined.

Lemma minNum_bounds_witness :
  0 < 20 /\ 0 <= minNum 20 < 1 /\
  -10 < 0 /\ 1 < minNum (-10) /\ getLinearGradient (-10) 0 [255; 255; 255] = None.
Proof.
  split; [vm_compute; reflexivity|]. split; [apply (proj1 (minNum_bounds 20)); vm_compute; reflexivity|].
  assert (H : -10 < 0) by (vm_compute; reflexivity). split; [exact H|].
  destruct (proj2 (minNum_bounds (-10)) H) as [Hm Hg]. split; [exact Hm|apply Hg].
Defined.

(** The connection of the repository's test after [init] and [setLineSpace]: one segment of
    length [200] from [(200, 200)] to [(400, 200)]. *)
Lemma drawOneArrow_total_witness :
  let st := [LineObj.mk [mkCoord 200 200; mkCoord 400 200] "right" None None None None (Some 0)
               (Some [SplitLine.mk (Some (mkAngle (JFin 0) false)) (Some 200) (Some 200) None None None
                        (Some (mkCoord 200 200)) (Some (mkCoord 400 200))])] in
  0 <= 20 /\ 0 < 20 + 60 /\ flow_colors_ok st /\
  (forall l, In l st -> exists segs, LineObj.splitLines l = Some segs /\ Forall drawable segs) /\
  (frame_fuel (20 + 60) st <= 10)%nat /\
  exists ops, drawOneArrow 20 60 10 0 st = Some (setLineSpace 0 st, ClearRect :: ops).
Proof.
  intros st. split; [vm_compute; discriminate|]. split; [vm_compute; reflexivity|].
  assert (Hc : flow_colors_ok st) by (repeat constructor).
  split; [exact Hc|].
  assert (H : forall l, In l st -> exists segs, LineObj.splitLines l = Some segs /\ Forall drawable segs).
  { intros l [<-|[]]. eexists. split; [reflexivity|].
    repeat constructor; simpl; discriminate. }
  split; [exact H|]. split; [vm_compute; lia|].
  apply drawOneArrow_total; [vm_compute; discriminate|vm_compute; reflexivity|exact Hc|exact H|vm_compute; lia].
Defined.

End FlowRenderer.
