(* ===== verification/StaticLayer.v ===== *)
(** * StaticLayer: the images, labels, connection bodies and arrowheads

    [drawImage] (index.ts 238-301) and [drawLine] (303-388) draw the static
    content on the main canvas [this.ctx] once, when [draw()] is called.  A
    call on the context is a [CanvasOp]; an assignment to a context property
    ([ctx.lineWidth = w]) is the [CanvasOp] that sets it.  [drawImage] does
    not draw an image at once: it creates an [Image] whose [onload] draws it
    later, so it returns the calls it makes now and, in order, the calls the
    pending [onload] handlers will make ([Scheduler.v] fires them).  The width
    of a text, [ctx.measureText(text).width], depends on the host's fonts and
    is the Section variable [measureText].  A [TypeError] ([points[0].x] on a
    connection with no points, destructuring a missing [style]) is [None]. *)

From Stdlib Require Import QArith List String Bool Lqa.
From S2P Require Import Prelude Geometry Types.
Import ListNotations.
Open Scope Q_scope.
Open Scope js_scope.

Module StaticLayer.

(** The calls the program makes on the main canvas context. *)
Inductive CanvasOp :=
| CSave
| CRestore
| CBeginPath
| CStroke
| CFill
| CSetFont (weight : string) (size : Q) (family : string)
| CSetFillStyle (c : string)
| CSetStrokeStyle (c : string)
| CSetLineWidth (w : Q)
| CSetLineCap (c : string)
| CSetLineJoin (c : string)
| CMoveTo (x y : Q)
| CLineTo (x y : Q)
| CQuadTo (cx cy x y : Q)
| CFillText (text : string) (x y : Q)
| CDrawImage (url : string) (x y w h : Q).

(** ** drawLine *)

(** The [switch (arrowDirection)] of lines 337-384: the path of the
    arrowhead whose tip is the origin [(ox, oy)]; [s] is [arrowSize], [r] is
    [arrowRoundSize].  Any other direction draws no path. *)
Definition arrowPath (dir : string) (ox oy s r : Q) : list CanvasOp :=
  if String.eqb dir "left" then
    [CMoveTo (ox + r - 1) (oy + r - 1);
     CLineTo (ox + s - r) (oy + s - r);
     CQuadTo (ox + s) (oy + s) (ox + s) (oy + s - r);
     CLineTo (ox + s) (oy - s + r);
     CQuadTo (ox + s) (oy - s) (ox + s - r) (oy - s + r);
     CLineTo (ox + r - 1) (oy - r + 1);
     CQuadTo ox oy (ox + r - 1) (oy + r - 1)]
  else if String.eqb dir "right" then
    [CMoveTo (ox - r + 1) (oy + r - 1);
     CLineTo (ox - s + r) (oy + s - r);
     CQuadTo (ox - s) (oy + s) (ox - s) (oy + s - r);
     CLineTo (ox - s) (oy - s + r);
     CQuadTo (ox - s) (oy - s) (ox - s + r) (oy - s + r);
     CLineTo (ox - r + 1) (oy - r + 1);
     CQuadTo ox oy (ox - r + 1) (oy + r - 1)]
  else if String.eqb dir "up" then
    [CMoveTo (ox + r - 1) (oy + r - 1);
     CLineTo (ox + s - r) (oy + s - r);
     CQuadTo (ox + s) (oy + s) (ox + s - r) (oy + s);
     CLineTo (ox - s + r) (oy + s);
     CQuadTo (ox - s) (oy + s) (ox - s + r) (oy + s - r);
     CLineTo (ox - r + 1) (oy + r - 1);
     CQuadTo ox oy (ox + r - 1) (oy + r - 1)]
  else if String.eqb dir "down" then
    [CMoveTo (ox + r - 1) (oy - r + 1);
     CLineTo (ox + s - r) (oy - s + r);
     CQuadTo (ox + s) (oy - s) (ox + s - r) (oy - s);
     CLineTo (ox - s + r) (oy - s);
     CQuadTo (ox - s) (oy - s) (ox - s + r) (oy - s + r);
     CLineTo (ox - r + 1) (oy - r + 1);
     CQuadTo ox oy (ox + r - 1) (oy - r + 1)]
  else [].

(** The arrowhead's origin: [lineImgSplit / 2] beyond the last point in the
    arrow's direction; [None] for a direction the switch does not name, where
    [originX] and [originY] stay [undefined] and are not used. *)
Definition arrowOrigin (dir : string) (last : Coordinate) (split : Q) : option (Q * Q) :=
  if String.eqb dir "left" then Some (x last - split / 2, y last)
  else if String.eqb dir "right" then Some (x last + split / 2, y last)
  else if String.eqb dir "up" then Some (x last, y last - split / 2)
  else if String.eqb dir "down" then Some (x last, y last + split / 2)
  else None.

(** The body of [this.lineData.forEach((line) => ...)] (lines 305-387), with
    the destructuring defaults of [lineOption]. *)
Definition drawLineObj (line : LineObj.t) : option (list CanvasOp) :=
  let lo := dflt LineOption.empty (LineObj.lineOption line) in
  let lineWidth := dflt 3 (LineOption.lineWidth lo) in
  let arrowSize := dflt 8 (LineOption.arrowSize lo) in
  let arrowRoundSize := dflt 3 (LineOption.arrowRoundSize lo) in
  let color := dflt "#B83538"%string (LineOption.color lo) in
  let lineCap := dflt "round"%string (LineOption.lineCap lo) in
  let lineJoin := dflt "round"%string (LineOption.lineJoin lo) in
  let lineImgSplit := dflt 6 (LineOption.lineImgSplit lo) in
  let points := LineObj.points line in
  let dir := LineObj.arrowDirection line in
  let* p0 := hd_error points in
  let lastPoint := List.last points p0 in
  let head :=
    match arrowOrigin dir lastPoint lineImgSplit with
    | Some (ox, oy) => arrowPath dir ox oy arrowSize arrowRoundSize
    | None => []
    end in
  Some ([CSave; CBeginPath; CSetLineWidth lineWidth; CSetStrokeStyle color;
         CSetFillStyle color; CSetLineCap lineCap; CSetLineJoin lineJoin;
         CMoveTo (x p0) (y p0)]
        ++ map (fun p => CLineTo (x p) (y p)) (tl points)
        ++ [CStroke; CBeginPath] ++ head ++ [CFill; CRestore]).

(** [drawLine()]: every connection in order. *)
Definition drawLine (lineData : list LineObj.t) : option (list CanvasOp) :=
  let* ops := traverse_opt drawLineObj lineData in
  Some (List.concat ops).

(** ** drawImage *)

Section Host.
  (** [ctx.measureText(text).width] for the font that is set. *)
Variable measureText : string -> Q.

  (** The [switch (position)] of lines 277-295: where [fillText] puts a label
      of width [tw] for the image at [(x, y)] of size [w] by [h]. *)
Definition textPosition (position : string) (x y w h tw fontSize imgTextSplit : Q) : Q * Q :=
    let imgCenterX := x + w / 2 in
    let imgCenterY := y + h / 2 in
    if String.eqb position "top" then (imgCenterX - tw / 2, y - imgTextSplit - fontSize)
    else if String.eqb position "bottom" then (imgCenterX - tw / 2, y + h + imgTextSplit + fontSize)
    else if String.eqb position "left" then (x - tw - imgTextSplit, imgCenterY - fontSize / 2)
    else if String.eqb position "right" then (x + w + tw + imgTextSplit, imgCenterY - fontSize / 2)
    else (0, 0).

  (** [String(text)] as [fillText] and [measureText] see it. *)
Definition text_string (t : option string) : string := dflt "undefined"%string t.

  (** The label of one image (lines 259-298): [None] is the [TypeError] of
      destructuring a [style] that is [undefined]. *)
Definition drawText (img : ImgObj.t) : option (list CanvasOp) :=
    let textOption := dflt (TextOption.mk (Some ""%string) (Some false) (Some TextStyle.empty))
                          (ImgObj.textOption img) in
    if negb (dflt false (TextOption.show textOption)) then Some []
    else
      let text := text_string (TextOption.text textOption) in
      let* style := TextOption.style textOption in
      let color := dflt "#666"%string (TextStyle.color style) in
      let fontFamily := dflt "微软雅黑"%string (TextStyle.fontFamily style) in
      let fontSize := dflt 13 (TextStyle.fontSize style) in
      let fontWeight := dflt "normal"%string (TextStyle.fontWeight style) in
      let position := dflt "bottom"%string (TextStyle.position style) in
      let imgTextSplit := dflt 5 (TextStyle.imgTextSplit style) in
      let '(fx, fy) := textPosition position (ImgObj.x img) (ImgObj.y img) (ImgObj.width img)
                          (ImgObj.height img) (measureText text) fontSize imgTextSplit in
      Some [CSetFont fontWeight fontSize fontFamily; CSetFillStyle color; CFillText text fx fy].

  (** The call the [onload] handler of the image of [img] makes. *)
Definition onload (img : ImgObj.t) : CanvasOp :=
    CDrawImage (ImgObj.imgUrl img) (ImgObj.x img) (ImgObj.y img) (ImgObj.width img) (ImgObj.height img).

  (** [drawImage()]: the calls made now, and the pending [onload] calls. *)
Definition drawImage (imgData : list ImgObj.t) : option (list CanvasOp * list CanvasOp) :=
    let* texts := traverse_opt drawText imgData in
    Some (CSave :: List.concat texts ++ [CRestore], map onload imgData).
End Host.

End StaticLayer.

(** ** Reasoning about paths *)

Module Paths.
  Import StaticLayer.

  (** The points a path visits, controls of curves included. *)
Fixpoint path_points (ops : list CanvasOp) : list (Q * Q) :=
    match ops with
    | [] => []
    | CMoveTo a b :: t | CLineTo a b :: t => (a, b) :: path_points t
    | CQuadTo c d a b :: t => (c, d) :: (a, b) :: path_points t
    | _ :: t => path_points t
    end.

  (** A path transformed point by point. *)
Definition map_pt (f : Q * Q -> Q * Q) (op : CanvasOp) : CanvasOp :=
    match op with
    | CMoveTo a b => let '(a', b') := f (a, b) in CMoveTo a' b'
    | CLineTo a b => let '(a', b') := f (a, b) in CLineTo a' b'
    | CQuadTo c d a b =>
        let '(c', d') := f (c, d) in let '(a', b') := f (a, b) in CQuadTo c' d' a' b'
    | o => o
    end.

  (** Two calls that agree up to the equality of numbers. *)
Definition op_eqv (o1 o2 : CanvasOp) : Prop :=
    match o1, o2 with
    | CMoveTo a1 b1, CMoveTo a2 b2 | CLineTo a1 b1, CLineTo a2 b2 => a1 == a2 /\ b1 == b2
    | CQuadTo c1 d1 a1 b1, CQuadTo c2 d2 a2 b2 => c1 == c2 /\ d1 == d2 /\ a1 == a2 /\ b1 == b2
    | _, _ => o1 = o2
    end.

Definition reflect_x (ox : Q) (p : Q * Q) : Q * Q := (2 * ox - fst p, snd p).
Definition reflect_y (oy : Q) (p : Q * Q) : Q * Q := (fst p, 2 * oy - snd p).
Definition transpose_at (ox oy : Q) (p : Q * Q) : Q * Q := (ox + (snd p - oy), oy + (fst p - ox)).

  (** The direction an arrowhead points in, [y] growing downwards. *)
Definition dir_vec (dir : string) : option (Q * Q) :=
    if String.eqb dir "left" then Some (-1, 0)
    else if String.eqb dir "right" then Some (1, 0)
    else if String.eqb dir "up" then Some (0, -1)
    else if String.eqb dir "down" then Some (0, 1)
    else None.
End Paths.

Import StaticLayer Paths.

(** ** Arrowheads *)

Lemma dir_vec_cases dir dx dy :
  dir_vec dir = Some (dx, dy) ->
  (dir = "left"%string /\ dx = -1 /\ dy = 0) \/ (dir = "right"%string /\ dx = 1 /\ dy = 0) \/
  (dir = "up"%string /\ dx = 0 /\ dy = -1) \/ (dir = "down"%string /\ dx = 0 /\ dy = 1).
Proof.
  unfold dir_vec; intros H.
  destruct (String.eqb_spec dir "left"); [injection H as <- <-; auto|].
  destruct (String.eqb_spec dir "right"); [injection H as <- <-; auto|].
  destruct (String.eqb_spec dir "up"); [injection H as <- <-; auto 6|].
  destruct (String.eqb_spec dir "down"); [injection H as <- <-; auto 8|discriminate].
Qed.

Ltac forall_path := repeat (constructor; [simpl; split; [lra|split; lra]|]); constructor.

(** (C31) The four arrowheads are one shape: [right] is [left] mirrored about
    the tip's vertical, [up] is [left] transposed about the tip, and [down]
    is [up] mirrored about the tip's horizontal, call for call. *)
Theorem arrowPaths_congruent ox oy s r :
  Forall2 op_eqv (arrowPath "right" ox oy s r) (map (map_pt (reflect_x ox)) (arrowPath "left" ox oy s r)) /\
  Forall2 op_eqv (arrowPath "up" ox oy s r) (map (map_pt (transpose_at ox oy)) (arrowPath "left" ox oy s r)) /\
  Forall2 op_eqv (arrowPath "down" ox oy s r) (map (map_pt (reflect_y oy)) (arrowPath "up" ox oy s r)).
Proof.
  unfold arrowPath, reflect_x, reflect_y, transpose_at; simpl.
  repeat split; repeat (constructor; [simpl; repeat split; ring|]); constructor.
Qed.

(** (C32) For each of the four directions the arrowhead's tip lies
    [lineImgSplit / 2] beyond the connection's last point in the arrow's
    direction, and (when [1 <= arrowRoundSize <= arrowSize]) every point of
    its path lies behind the tip and within [arrowSize] of its axis. *)
Theorem arrowhead_geometry dir last split s r dx dy :
  1 <= r -> r <= s -> dir_vec dir = Some (dx, dy) ->
  exists ox oy, arrowOrigin dir last split = Some (ox, oy) /\
    ox == x last + split / 2 * dx /\ oy == y last + split / 2 * dy /\
    Forall (fun p => (fst p - ox) * dx + (snd p - oy) * dy <= 0 /\
                     - s <= (fst p - ox) * dy - (snd p - oy) * dx <= s)
           (path_points (arrowPath dir ox oy s r)).
Proof.
  intros Hr Hs Hd.
  destruct (dir_vec_cases _ _ _ Hd) as [[-> [-> ->]]|[[-> [-> ->]]|[[-> [-> ->]]|[-> [-> ->]]]]];
    simpl; eexists; eexists; (split; [reflexivity|]); (split; [ring|]); (split; [ring|]);
    forall_path.
Qed.

(** ** Connection bodies *)

Definition coord (c : Coordinate) : Q * Q := (x c, y c).

Lemma path_points_app l1 l2 : path_points (l1 ++ l2) = path_points l1 ++ path_points l2.
Proof. induction l1 as [|[] t IH]; simpl; rewrite ?IH; reflexivity. Qed.

Lemma path_points_lineTo ps : path_points (map (fun p => CLineTo (x p) (y p)) ps) = map coord ps.
Proof. induction ps as [|p t IH]; simpl; [reflexivity|now rewrite IH]. Qed.

Lemma drawLineObj_None line : drawLineObj line = None <-> LineObj.points line = [].
Proof. unfold drawLineObj. destruct (LineObj.points line); simpl; split; congruence. Qed.

(** (C33) [drawLine] fails with a [TypeError] exactly when a connection has no
    points; otherwise the path it strokes for a connection visits the
    connection's points in order, and the rest of its path is the arrowhead
    of the connection's direction at the origin [arrowOrigin] computes. *)
Theorem drawLineObj_path line :
  (drawLineObj line = None <-> LineObj.points line = []) /\
  forall p ps, LineObj.points line = p :: ps ->
  exists ops, drawLineObj line = Some ops /\
    path_points ops = map coord (p :: ps) ++
      match arrowOrigin (LineObj.arrowDirection line) (List.last (p :: ps) p)
              (dflt 6 (LineOption.lineImgSplit (dflt LineOption.empty (LineObj.lineOption line)))) with
      | Some (ox, oy) =>
          path_points (arrowPath (LineObj.arrowDirection line) ox oy
            (dflt 8 (LineOption.arrowSize (dflt LineOption.empty (LineObj.lineOption line))))
            (dflt 3 (LineOption.arrowRoundSize (dflt LineOption.empty (LineObj.lineOption line)))))
      | None => []
      end.
Proof.
  split; [apply drawLineObj_None|].
  unfold drawLineObj. intros p ps ->. eexists; split; [reflexivity|].
    rewrite !path_points_app, path_points_lineTo. simpl.
    destruct (arrowOrigin _ _ _) as [[ox oy]|]; simpl; rewrite ?app_nil_r; reflexivity.
Qed.

(** [drawLine] throws a [TypeError] (the whole [draw()] is aborted)
    exactly when some connection has no points. *)
Theorem drawLine_error lineData :
  drawLine lineData = None <-> exists l, In l lineData /\ LineObj.points l = [].
Proof.
  unfold drawLine.
  destruct (traverse_opt drawLineObj lineData) as [ops|] eqn:E.
  - split; [discriminate|]. intros [l [Hin Hl]].
    apply (proj2 (drawLineObj_None l)) in Hl.
    assert (N : traverse_opt drawLineObj lineData = None)
      by (apply traverse_opt_None; eauto). congruence.
  - split; [intros _|reflexivity].
    apply traverse_opt_None in E as [l [Hin Hl]]. exists l.
    split; [exact Hin|now apply (proj1 (drawLineObj_None l))].
Qed.

(** ** Labels and images *)

Section Labels.
Variable measureText : string -> Q.

  (** (C37) Where [drawImage] puts a label of width [tw]: centred under or
      above the image, [imgTextSplit + fontSize] from its edge, and on the
      left [imgTextSplit] from the image; on the right the gap is
      [tw + imgTextSplit], the label's own width more than on the left. *)
Theorem textPosition_gaps x0 y0 w h tw fs sp :
    let '(tx, ty) := textPosition "top" x0 y0 w h tw fs sp in
    let '(bx, by_) := textPosition "bottom" x0 y0 w h tw fs sp in
    let '(lx, ly) := textPosition "left" x0 y0 w h tw fs sp in
    let '(rx, ry) := textPosition "right" x0 y0 w h tw fs sp in
    tx + tw / 2 == x0 + w / 2 /\ y0 - ty == sp + fs /\
    bx + tw / 2 == x0 + w / 2 /\ by_ - (y0 + h) == sp + fs /\
    x0 - (lx + tw) == sp /\ ly + fs / 2 == y0 + h / 2 /\
    rx - (x0 + w) == tw + sp /\ ry + fs / 2 == y0 + h / 2.
  Proof. simpl. repeat split; ring. Qed.

  (** Whether [drawImage] throws on [img]: a label to show with no
      [style] to destructure. *)
Definition text_error (img : ImgObj.t) : bool :=
    match ImgObj.textOption img with
    | Some t => dflt false (TextOption.show t) && match TextOption.style t with Some _ => false | None => true end
    | None => false
    end.

Lemma drawText_None img : drawText measureText img = None <-> text_error img = true.
  Proof.
    unfold drawText, text_error.
    destruct (ImgObj.textOption img) as [[t [sh|] [st|]]|]; simpl;
      try destruct sh; simpl; split; try congruence;
      destruct (textPosition _ _ _ _ _ _ _ _); discriminate.
  Qed.

Lemma drawText_no_image img ops :
    drawText measureText img = Some ops -> forall u a b c d, ~ In (CDrawImage u a b c d) ops.
  Proof.
    unfold drawText. destruct (negb _); [intros [= <-]; simpl; tauto|].
    destruct (TextOption.style _); [|discriminate].
    destruct (textPosition _ _ _ _ _ _ _ _). intros [= <-] u a b c d H.
    simpl in H. intuition discriminate.
  Qed.

Lemma drawImage_loads imgData now loads :
    drawImage measureText imgData = Some (now, loads) -> loads = map onload imgData.
  Proof. unfold drawImage. destruct (traverse_opt _ _); [|discriminate]. now intros [= _ <-]. Qed.

  (** [drawImage] throws exactly when an image has a label to show and no
      [style]. *)
Lemma drawImage_None imgData :
    drawImage measureText imgData = None <-> exists img, In img imgData /\ text_error img = true.
  Proof.
    unfold drawImage.
    assert (Eq : (exists img, In img imgData /\ text_error img = true) <->
                   exists img, In img imgData /\ drawText measureText img = None).
    { split; intros [i [Hi He]]; exists i; split; try exact Hi; now apply drawText_None. }
    rewrite Eq, <- (traverse_opt_None (drawText measureText)).
    destruct (traverse_opt _ _); split; congruence.
  Qed.

  (** (C35) [drawImage] draws no image itself: every image is drawn by its
      [onload] handler, one per image in order; it throws exactly when an
      image has a label to show and no [style]. *)
Theorem drawImage_deferred imgData :
    (drawImage measureText imgData = None <-> exists img, In img imgData /\ text_error img = true) /\
    forall now loads, drawImage measureText imgData = Some (now, loads) ->
      loads = map onload imgData /\ forall u a b c d, ~ In (CDrawImage u a b c d) now.
  Proof.
    split; [apply drawImage_None|]. unfold drawImage.
    intros now loads H.
    split; [exact (drawImage_loads _ _ _ H)|].
    destruct (traverse_opt _ _) as [texts|] eqn:E; [|discriminate]. injection H as <- <-. intros u a b c d [H|H]; [discriminate|].
    apply in_app_or in H as [H|[H|[]]]; [|discriminate].
    apply in_concat in H as [ops [Hops Hin]].
    apply traverse_opt_Forall2 in E.
    destruct (Forall2_In_r _ _ _ _ E Hops) as [img [_ Himg]].
    exact (drawText_no_image img ops Himg u a b c d Hin).
  Qed.
End Labels.

(** ** Witnesses *)

Lemma arrowhead_geometry_witness :
  1 <= 3 /\ 3 <= 8 /\ dir_vec "right" = Some (1, 0) /\
  exists ox oy, arrowOrigin "right" (mkCoord 400 200) 6 = Some (ox, oy) /\
    ox == x (mkCoord 400 200) + 6 / 2 * 1 /\ oy == y (mkCoord 400 200) + 6 / 2 * 0 /\
    Forall (fun p => (fst p - ox) * 1 + (snd p - oy) * 0 <= 0 /\
                     - 8 <= (fst p - ox) * 0 - (snd p - oy) * 1 <= 8)
           (path_points (arrowPath "right" ox oy 8 3)).
Proof.
  split; [vm_compute; discriminate|]. split; [vm_compute; discriminate|].
  split; [reflexivity|].
  exact (arrowhead_geometry "right" (mkCoord 400 200) 6 8 3 1 0 ltac:(vm_compute; discriminate)
           ltac:(vm_compute; discriminate) eq_refl).
Defined.

Lemma drawLineObj_path_witness :
  LineObj.points (hd (LineObj.config [] "" None None) test_lineData) =
    [mkCoord 200 200; mkCoord 400 200] /\
  exists ops, drawLineObj (hd (LineObj.config [] "" None None) test_lineData) = Some ops /\
    path_points ops = map coord [mkCoord 200 200; mkCoord 400 200] ++
      path_points (arrowPath "right" (400 + 6 / 2) 200 8 3).
Proof.
  split; [reflexivity|].
  apply (proj2 (drawLineObj_path (hd (LineObj.config [] "" None None) test_lineData))
           (mkCoord 200 200) [mkCoord 400 200]).
  reflexivity.
Defined.

Lemma drawImage_deferred_witness :
  exists now, drawImage (fun _ => 26) test_imgData = Some (now, map onload test_imgData) /\
    map onload test_imgData = map onload test_imgData /\
    forall u a b c d, ~ In (CDrawImage u a b c d) now.
Proof.
  eexists. split; [vm_compute; reflexivity|].
  apply (proj2 (drawImage_deferred (fun _ => 26) test_imgData)). vm_compute. reflexivity.
Defined.
