(* ===== verification/Scheduler.v ===== *)
(** * Scheduler: the object, its animation loop and the host

    The class [CreateImgLineFlow] (index.ts 99-161 and 395-485) as a state
    machine.  Its state is the object's mutable fields ([lineData],
    [arrowRunPx], [arrowAnimation]), the [lastTime] of each closure
    [drawFlow] creates (one per call of [draw()]), and what the host holds:
    the pending [requestAnimationFrame] callbacks, the next handle it will
    return, the pending [onload] handlers of images, and the calls made on
    each canvas since it was last cleared.  The host's events are [Event]s:
    a call of [draw()] or [clear()] by the page, the host firing one pending
    frame callback, or one image finishing to load; [step] is one event.

    [step] returns [None] when the event is not enabled (no such pending
    callback) and when the run leaves what the model covers: a [TypeError]
    in [draw()], a [NaN] counter ([stepSize + flowLength = 0]), or an arrow
    loop that does not end in [fuel] iterations. *)

From Stdlib Require Import QArith ZArith List String Lia Bool Lqa.
From S2P Require Import Prelude Geometry Types Projector FlowRenderer StaticLayer.
Import ListNotations.
Open Scope Q_scope.
Open Scope js_scope.

Module Scheduler.
Import StaticLayer.

(** The constructor's arguments other than [lineData] and the canvases. *)
Record Config := mkConfig {
  imgData : list ImgObj.t;
  fps : Q;
  stepSize : Q;
  flowLength : Q }.

(** The constructor's defaults: [fps = 24], [stepSize = 60],
    [flowLength = 20]. *)
Definition default_config (imgs : list ImgObj.t) : Config := mkConfig imgs 24 60 20.

Record State := mkState {
  lineData : list LineObj.t;
  arrowRunPx : Q;
  arrowAnimation : option nat;
  lastTimes : list Q;
  frames : list (nat * nat);
  next_handle : nat;
  main : list CanvasOp;
  flow : list FlowRenderer.FlowOp;
  loads : list CanvasOp }.

Inductive Event :=
| Draw (now : Q)
| Clear
| Frame (h : nat) (now : Q)
| ImgLoad (i : nat).

(** [a < b] with [b] the result of a division. *)
Definition js_ltb_num (a : Q) (b : jsnum) : bool :=
  match b with
  | JFin q => a <? q
  | JPosInf => true
  | JNegInf | JNaN => false
  end.

(** The list without its [i]-th element. *)
Fixpoint remove_nth {A} (i : nat) (l : list A) : list A :=
  match l, i with
  | [], _ => []
  | _ :: t, O => t
  | a :: t, S i => a :: remove_nth i t
  end.

(** [new CreateImgLineFlow({...})] (lines 111-144): [init()] and the
    initial fields; the host holds nothing yet.  Handles of
    [requestAnimationFrame] start at [1]. *)
Definition create (lineData0 : list LineObj.t) : option State :=
  let* st := Projector.init lineData0 in
  Some (mkState st 0 None [] [] 1 [] [] []).

Section Machine.
Variable measureText : string -> Q.
Variable cfg : Config.
Variable fuel : nat.

Definition with_frame (h loop : nat) (s : State) : State :=
    mkState (lineData s) (arrowRunPx s) (Some h) (lastTimes s) (frames s ++ [(h, loop)])
            (S (next_handle s)) (main s) (flow s) (loads s).

Definition with_render (loop : nat) (now arp : Q) (st : list LineObj.t)
      (ops : list FlowRenderer.FlowOp) (s : State) : State :=
    mkState st arp (arrowAnimation s) (update_nth loop (fun _ => now) (lastTimes s)) (frames s)
            (next_handle s) (main s) (flow s ++ ops) (loads s).

  (** [this.arrowRunPx = (this.arrowRunPx + 1) % (this.stepSize + this.flowLength)]. *)
Definition advance (arp : Q) : option Q := js_mod (arp + 1) (stepSize cfg + flowLength cfg).

  (** [drawFrame()] of the closure [loop] (lines 474-483): request the next
      frame first, then return when less than [1000 / fps] ms passed since
      this closure last rendered; otherwise advance the counter modulo
      [stepSize + flowLength] and draw a frame. *)
Definition drawFrame (loop : nat) (now : Q) (s : State) : option State :=
    let s1 := with_frame (next_handle s) loop s in
    let timeout := js_div 1000 (fps cfg) in
    let lastTime := nth loop (lastTimes s1) 0 in
    if js_ltb_num (now - lastTime) timeout then Some s1
    else
      let* arp := advance (arrowRunPx s1) in
      let* r := FlowRenderer.drawOneArrow (flowLength cfg) (stepSize cfg) fuel arp (lineData s1) in
      let '(st, ops) := r in
      Some (with_render loop now arp st ops s1).

  (** [drawFlow()] (lines 390-485): a new closure, numbered by its position
      in [lastTimes], whose [lastTime] starts at [0] (line 471), and its
      first [drawFrame()] (line 484).  Its nested closures are
      [getLinearGradient], [drawOneArrow] and [drawFrame] above; [timeout]
      (line 394) is computed where [drawFrame] reads it. *)
Definition drawFlow (now : Q) (s : State) : option State :=
    let loop := List.length (lastTimes s) in
    drawFrame loop now
      (mkState (lineData s) (arrowRunPx s) (arrowAnimation s) (lastTimes s ++ [0]) (frames s)
               (next_handle s) (main s) (flow s) (loads s)).

  (** [draw()] (lines 149-153): the images and labels, the connections, and
      [drawFlow()]. *)
Definition draw (now : Q) (s : State) : option State :=
    let* di := drawImage measureText (imgData cfg) in
    let '(imgNow, imgLoads) := di in
    let* lineOps := drawLine (lineData s) in
    drawFlow now
      (mkState (lineData s) (arrowRunPx s) (arrowAnimation s) (lastTimes s) (frames s)
               (next_handle s) (main s ++ imgNow ++ lineOps) (flow s)
               (loads s ++ imgLoads)).

  (** [clear()] (lines 154-161): cancel the frame whose handle the object
      kept, if it is truthy, and clear both canvases. *)
Definition clear (s : State) : State :=
    match arrowAnimation s with
    | Some h =>
        if Nat.eqb h 0 then mkState (lineData s) (arrowRunPx s) (arrowAnimation s) (lastTimes s)
                              (frames s) (next_handle s) [] [] (loads s)
        else mkState (lineData s) (arrowRunPx s) None (lastTimes s)
               (filter (fun f => negb (Nat.eqb (fst f) h)) (frames s)) (next_handle s) [] [] (loads s)
    | None => mkState (lineData s) (arrowRunPx s) None (lastTimes s) (frames s) (next_handle s)
                [] [] (loads s)
    end.

  (** The pending callback of handle [h], if any. *)
Definition frame_loop (h : nat) (fs : list (nat * nat)) : option nat :=
    option_map snd (find (fun f => Nat.eqb (fst f) h) fs).

Definition step (s : State) (e : Event) : option State :=
    match e with
    | Draw now => draw now s
    | Clear => Some (clear s)
    | Frame h now =>
        let* loop := frame_loop h (frames s) in
        drawFrame loop now
          (mkState (lineData s) (arrowRunPx s) (arrowAnimation s) (lastTimes s)
                   (filter (fun f => negb (Nat.eqb (fst f) h)) (frames s)) (next_handle s)
                   (main s) (flow s) (loads s))
    | ImgLoad i =>
        let* op := nth_error (loads s) i in
        Some (mkState (lineData s) (arrowRunPx s) (arrowAnimation s) (lastTimes s) (frames s)
                      (next_handle s) (main s ++ [op]) (flow s) (remove_nth i (loads s)))
    end.

  (** A run of events. *)
Fixpoint run (s : State) (es : list Event) : option State :=
    match es with
    | [] => Some s
    | e :: es => let* s' := step s e in run s' es
    end.

  (** The states an object reaches from its construction. *)
Inductive reachable : State -> Prop :=
  | reach_create l s : create l = Some s -> reachable s
  | reach_step s e s' : reachable s -> step s e = Some s' -> reachable s'.

  (** The states reached from an object built on a configuration (connections
      given by their points and options only, as the constructor takes them). *)
Inductive reachable_cfg : State -> Prop :=
  | cfg_create l s : Forall (fun c => LineObj.splitLines c = None) l -> create l = Some s -> reachable_cfg s
  | cfg_step s e s' : reachable_cfg s -> step s e = Some s' -> reachable_cfg s'.
End Machine.

(** Every connection of a store has its segments, each drawable. *)
Definition drawable_store (st : list LineObj.t) : Prop :=
  forall l, In l st -> exists segs, LineObj.splitLines l = Some segs /\ Forall FlowRenderer.drawable segs.

(** ** A run on the test's object

    The repository's test only constructs the object; here the object it
    constructs ([Types.test_lineData], [Types.test_imgData], the
    constructor's defaults) is driven further by a sample run
    [test_events]: [draw()], two frames, [draw()] again, [clear()].  A
    label is [26] pixels wide and an arrow loop gets [100] turns of fuel
    (a segment of [200] pixels needs [4]).  [test_state n] is the state
    after the first [n] events. *)
Definition test_cfg : Config := default_config test_imgData.
Definition test_measure (_ : string) : Q := 26.
Definition test_fuel : nat := 100.

Definition empty_state : State := mkState [] 0 None [] [] 1 [] [] [].

Definition test_events : list Event := [Draw 1000; Frame 1 1010; Frame 2 2000; Draw 2000; Clear].

Definition test_state (n : nat) : State :=
  dflt empty_state
    (let* s0 := create test_lineData in run test_measure test_cfg test_fuel s0 (firstn n test_events)).

(** ** Lists of pending frames *)

Lemma NoDup_map_filter {A B} (g : A -> B) (p : A -> bool) l :
  NoDup (map g l) -> NoDup (map g (filter p l)).
Proof.
  induction l as [|a l IH]; simpl; [auto|]. intros Hn. inversion Hn as [|? ? Hni Hnd]; subst.
  destruct (p a); simpl; [|auto]. constructor; [|auto].
  intros Hin. apply Hni. apply in_map_iff in Hin as [b [Hb Hin]].
  apply filter_In in Hin. apply in_map_iff. exists b. tauto.
Qed.

Lemma NoDup_snd_unique (fs : list (nat * nat)) a b l :
  NoDup (map snd fs) -> In (a, l) fs -> In (b, l) fs -> a = b.
Proof.
  induction fs as [|[c k] fs IH]; simpl; [tauto|]. intros Hn H1 H2.
  inversion Hn as [|? ? Hni Hnd]; subst.
  destruct H1 as [E1|H1], H2 as [E2|H2].
  - congruence.
  - injection E1 as -> ->. exfalso. apply Hni, in_map_iff. exists (b, l). auto.
  - injection E2 as -> ->. exfalso. apply Hni, in_map_iff. exists (a, l). auto.
  - eauto.
Qed.

Lemma frame_loop_In h fs l : frame_loop h fs = Some l -> In (h, l) fs.
Proof.
  unfold frame_loop. destruct (find _ fs) as [[h' l']|] eqn:E; [|discriminate].
  simpl. intros [= <-]. pose proof (find_some _ _ E) as [Hin Heq].
  apply Nat.eqb_eq in Heq. simpl in Heq. now subst.
Qed.

Lemma frame_loop_None h fs : frame_loop h fs = None -> ~ In h (map fst fs).
Proof.
  unfold frame_loop. destruct (find _ fs) eqn:E; [discriminate|]. intros _ Hin.
  apply in_map_iff in Hin as [[h' l] [<- Hin]].
  pose proof (find_none _ _ E _ Hin) as N. simpl in N. now rewrite Nat.eqb_refl in N.
Qed.

(** ** The bookkeeping of handles and closures *)

Section Bookkeeping.
Variable measureText : string -> Q.
Variable cfg : Config.
Variable fuel : nat.

  (** Handles are positive and fresh, each pending frame belongs to a
      closure [drawFlow] created, and no closure has two pending frames. *)
Definition frames_ok (s : State) : Prop :=
    (1 <= next_handle s)%nat /\
    (forall f, In f (frames s) -> (1 <= fst f < next_handle s)%nat /\ (snd f < List.length (lastTimes s))%nat) /\
    NoDup (map fst (frames s)) /\ NoDup (map snd (frames s)).

  (** ... and the handle the object keeps is that of a pending frame. *)
Definition handles_ok (s : State) : Prop :=
    frames_ok s /\ forall h, arrowAnimation s = Some h -> In h (map fst (frames s)).

Lemma with_frame_ok loop s :
    frames_ok s -> (loop < List.length (lastTimes s))%nat -> ~ In loop (map snd (frames s)) ->
    handles_ok (with_frame (next_handle s) loop s).
  Proof.
    intros [H1 [Hb [Hf Hs]]] Hl Hn. unfold with_frame, handles_ok, frames_ok; simpl.
    rewrite !map_app. simpl. split; [split; [|split; [|split]]|]; [lia| | | |].
    - intros f [Hin|[<-|[]]]%in_app_or; [apply Hb in Hin; simpl; lia|simpl; lia].
    - apply NoDup_app; [exact Hf|repeat constructor; simpl; tauto|].
      intros h Hh [E|[]]. apply in_map_iff in Hh as [f [Ef Hin]]. apply Hb in Hin. lia.
    - apply NoDup_app; [exact Hs|repeat constructor; simpl; tauto|].
      intros l Hh [E|[]]. subst. contradiction.
    - intros h [= <-]. apply in_or_app. right. left. reflexivity.
  Qed.

Lemma drawFrame_ok loop now s s' :
    frames_ok s -> (loop < List.length (lastTimes s))%nat -> ~ In loop (map snd (frames s)) ->
    drawFrame cfg fuel loop now s = Some s' -> handles_ok s'.
  Proof.
    intros Hok Hl Hn. pose proof (with_frame_ok loop s Hok Hl Hn) as Hw. unfold drawFrame.
    destruct (js_ltb_num _ _); [intros [= <-]; exact Hw|].
    destruct (advance _ _); [|discriminate].
    destruct (FlowRenderer.drawOneArrow _ _ _ _ _) as [[st ops]|]; [|discriminate].
    intros [= <-]. destruct Hw as [[H1 [Hb Hf]] Ha].
    unfold handles_ok, frames_ok, with_render; simpl. rewrite update_nth_length. tauto.
  Qed.

Lemma create_ok l s : create l = Some s -> handles_ok s.
  Proof.
    unfold create. destruct (Projector.init l); [|discriminate]. intros [= <-].
    unfold handles_ok, frames_ok; simpl.
    split; [split; [lia|split; [tauto|split; constructor]]|intros h [=]].
  Qed.

Lemma clear_ok s : handles_ok s -> handles_ok (clear s).
  Proof.
    intros [[H1 [Hb [Hf Hs]]] Ha]. unfold clear.
    destruct (arrowAnimation s) as [h|] eqn:E; [destruct (Nat.eqb h 0)|];
      unfold handles_ok, frames_ok; simpl.
    - tauto.
    - split; [split; [exact H1|split; [|split; apply NoDup_map_filter; assumption]]|intros ? [=]].
      intros fr Hin%filter_In. now apply Hb.
    - split; [tauto|intros ? [=]].
  Qed.

Lemma step_ok s e s' : handles_ok s -> step measureText cfg fuel s e = Some s' -> handles_ok s'.
  Proof.
    intros Hok. pose proof Hok as [[H1 [Hb [Hf Hs]]] Ha]. destruct e as [now| |h now|i]; simpl.
    - unfold draw, drawFlow. destruct (drawImage _ _) as [[imgNow imgLoads]|]; [|discriminate].
      destruct (drawLine _); [|discriminate]. apply drawFrame_ok; simpl.
      + unfold frames_ok; simpl. rewrite length_app. simpl.
        split; [exact H1|split; [|split; assumption]].
        intros fr Hin. apply Hb in Hin. lia.
      + rewrite length_app. simpl. lia.
      + intros Hin. apply in_map_iff in Hin as [f [Hfl Hin]]. apply Hb in Hin. lia.
    - intros [= <-]. now apply clear_ok.
    - destruct (frame_loop h (frames s)) as [l|] eqn:E; [|discriminate]. simpl.
      apply frame_loop_In in E. apply drawFrame_ok; simpl.
      + unfold frames_ok; simpl.
        split; [exact H1|split; [|split; apply NoDup_map_filter; assumption]].
        intros fr Hin%filter_In. now apply Hb.
      + now apply Hb in E.
      + intros Hin. apply in_map_iff in Hin as [[h' l'] [Hl' Hin]]. simpl in Hl'. subst l'.
        apply filter_In in Hin as [Hin Hne]. simpl in Hne.
        rewrite (NoDup_snd_unique _ _ _ _ Hs Hin E), Nat.eqb_refl in Hne. discriminate.
    - destruct (nth_error (loads s) i); [|discriminate]. intros [= <-].
      unfold handles_ok, frames_ok; simpl. tauto.
  Qed.

Lemma reachable_ok s : reachable measureText cfg fuel s -> handles_ok s.
  Proof. induction 1; eauto using create_ok, step_ok. Qed.
End Bookkeeping.

(** ** Frames, renders and the counter *)

Section Behaviour.
Variable measureText : string -> Q.
Variable cfg : Config.
Variable fuel : nat.

Definition throttled (loop : nat) (now : Q) (s : State) : bool :=
    js_ltb_num (now - nth loop (lastTimes s) 0) (js_div 1000 (fps cfg)).

Lemma drawFrame_frames loop now s s' :
    drawFrame cfg fuel loop now s = Some s' ->
    frames s' = frames s ++ [(next_handle s, loop)] /\ arrowAnimation s' = Some (next_handle s) /\
    next_handle s' = S (next_handle s) /\ main s' = main s /\ loads s' = loads s.
  Proof.
    unfold drawFrame. destruct (js_ltb_num _ _); [intros [= <-]; simpl; tauto|].
    destruct (advance _ _); [|discriminate].
    destruct (FlowRenderer.drawOneArrow _ _ _ _ _) as [[st ops]|]; [|discriminate].
    intros [= <-]. simpl. tauto.
  Qed.

Lemma drawFrame_render loop now s s' :
    drawFrame cfg fuel loop now s = Some s' ->
    if throttled loop now s
    then lineData s' = lineData s /\ arrowRunPx s' = arrowRunPx s /\ flow s' = flow s /\
         lastTimes s' = lastTimes s
    else advance cfg (arrowRunPx s) = Some (arrowRunPx s') /\
         exists ops, FlowRenderer.drawOneArrow (flowLength cfg) (stepSize cfg) fuel (arrowRunPx s')
                       (lineData s) = Some (lineData s', ops) /\
                     flow s' = flow s ++ ops /\
                     lastTimes s' = update_nth loop (fun _ => now) (lastTimes s).
  Proof.
    unfold drawFrame, throttled. simpl. destruct (js_ltb_num _ _); [intros [= <-]; simpl; tauto|].
    destruct (advance _ _) as [arp|]; [|discriminate].
    destruct (FlowRenderer.drawOneArrow _ _ _ _ _) as [[st ops]|] eqn:E; [|discriminate].
    intros [= <-]. simpl. split; [reflexivity|]. exists ops. tauto.
  Qed.

Lemma draw_frames now s s' :
    draw measureText cfg fuel now s = Some s' ->
    frames s' = frames s ++ [(next_handle s, List.length (lastTimes s))] /\
    arrowAnimation s' = Some (next_handle s) /\
    exists imgNow, loads s' = loads s ++ map (onload) (imgData cfg) /\
      drawImage measureText (imgData cfg) = Some (imgNow, map onload (imgData cfg)).
  Proof.
    unfold draw, drawFlow. destruct (drawImage _ _) as [[imgNow imgLoads]|] eqn:Ei; [|discriminate].
    destruct (drawLine _); [|discriminate]. intros H.
    apply drawFrame_frames in H as (Hf & Ha & _ & _ & Hl). simpl in *.
    pose proof (drawImage_loads _ _ _ _ Ei) as El. subst imgLoads.
    split; [exact Hf|split; [exact Ha|eauto]].
  Qed.

Lemma step_arp s e s' :
    step measureText cfg fuel s e = Some s' ->
    arrowRunPx s' = arrowRunPx s \/ advance cfg (arrowRunPx s) = Some (arrowRunPx s').
  Proof.
    assert (D : forall loop now s0 s1, drawFrame cfg fuel loop now s0 = Some s1 ->
                arrowRunPx s1 = arrowRunPx s0 \/ advance cfg (arrowRunPx s0) = Some (arrowRunPx s1)).
    { intros loop now s0 s1 H. apply drawFrame_render in H.
      destruct (throttled _ _ _); [left; apply H|right; apply H]. }
    destruct e as [now| |h now|i]; simpl.
    - unfold draw, drawFlow. destruct (drawImage _ _) as [[? ?]|]; [|discriminate].
      destruct (drawLine _); [|discriminate]. intros H. exact (D _ _ _ _ H).
    - intros [= <-]. left. unfold clear.
      destruct (arrowAnimation s) as [h|]; [destruct (Nat.eqb h 0)|]; reflexivity.
    - destruct (frame_loop _ _); [intros H; exact (D _ _ _ _ H)|discriminate].
    - destruct (nth_error _ _); [|discriminate]. intros [= <-]. left. reflexivity.
  Qed.

Lemma clear_frames s h :
    handles_ok s -> arrowAnimation s = Some h ->
    frames (clear s) = filter (fun f => negb (Nat.eqb (fst f) h)) (frames s) /\
    arrowAnimation (clear s) = None.
  Proof.
    intros [[H1 [Hb _]] Ha] E. unfold clear. rewrite E.
    specialize (Ha h E). apply in_map_iff in Ha as [f [<- Hin]].
    destruct (Nat.eqb_spec (fst f) 0) as [Z|_]; [apply Hb in Hin; lia|]. simpl. tauto.
  Qed.
Lemma nth_update_const {A} i (v d : A) l :
    (i < List.length l)%nat -> nth i (update_nth i (fun _ => v) l) d = v.
  Proof.
    revert i; induction l as [|a l IH]; intros [|i] Hi; simpl in *; try lia; auto.
    apply IH. lia.
  Qed.

Lemma drawOneArrow_shape fl ss fu arp st st' ops :
    FlowRenderer.drawOneArrow fl ss fu arp st = Some (st', ops) ->
    exists ops', ops = FlowRenderer.ClearRect :: ops'.
  Proof.
    unfold FlowRenderer.drawOneArrow. destruct (traverse_opt _ _); [|discriminate].
    intros [= _ <-]. eauto.
  Qed.
Lemma drawOneArrow_store fl sz fu arp st st' ops :
  FlowRenderer.drawOneArrow fl sz fu arp st = Some (st', ops) -> st' = FlowRenderer.setLineSpace arp st.
Proof.
  unfold FlowRenderer.drawOneArrow. destruct (traverse_opt _ _); [|discriminate].
  now intros [= <- _].
Qed.

Lemma step_lineData s e s' :
  step measureText cfg fuel s e = Some s' ->
  lineData s' = lineData s \/ exists arp, lineData s' = FlowRenderer.setLineSpace arp (lineData s).
Proof.
  assert (D : forall loop now s0 s1, drawFrame cfg fuel loop now s0 = Some s1 ->
              lineData s1 = lineData s0 \/
              exists arp, lineData s1 = FlowRenderer.setLineSpace arp (lineData s0)).
  { intros loop now s0 s1 H. apply drawFrame_render in H.
    destruct (throttled _ _ _); [left; apply H|right].
    destruct H as [_ [ops [Hd _]]]. exists (arrowRunPx s1).
    exact (drawOneArrow_store _ _ _ _ _ _ _ Hd). }
  destruct e as [now| |h now|i]; simpl.
  - unfold draw, drawFlow. destruct (drawImage _ _) as [[? ?]|]; [|discriminate].
    destruct (drawLine _); [|discriminate]. intros H. exact (D _ _ _ _ H).
  - intros [= <-]. left. unfold clear.
    destruct (arrowAnimation s) as [h|]; [destruct (Nat.eqb h 0)|]; reflexivity.
  - destruct (frame_loop _ _); [intros H; exact (D _ _ _ _ H)|discriminate].
  - destruct (nth_error _ _); [|discriminate]. intros [= <-]. left. reflexivity.
Qed.
End Behaviour.

Lemma drawable_setLineSpace arp st : drawable_store st -> drawable_store (FlowRenderer.setLineSpace arp st).
Proof.
  intros H l' Hl'. unfold FlowRenderer.setLineSpace in Hl'. apply in_map_iff in Hl' as [l [<- Hl]].
  rewrite FlowRenderer.setSpace_splitLines. exact (H l Hl).
Qed.

Lemma frame_fuel_setLineSpace step arp st :
  FlowRenderer.frame_fuel step (FlowRenderer.setLineSpace arp st) = FlowRenderer.frame_fuel step st.
Proof.
  unfold FlowRenderer.frame_fuel. f_equal. f_equal.
  unfold FlowRenderer.all_segs, FlowRenderer.setLineSpace.
  induction st as [|l st IH]; [reflexivity|].
  cbn -[FlowRenderer.setSpace]. now rewrite FlowRenderer.setSpace_splitLines, IH.
Qed.

Lemma create_drawable l s :
  Forall (fun c => LineObj.splitLines c = None) l -> create l = Some s -> drawable_store (lineData s).
Proof.
  intros Hcfg Hc. destruct (Projector.init_lines l Hcfg) as (st & Hi & Hl).
  unfold create in Hc. rewrite Hi in Hc. injection Hc as <-. simpl.
  intros l' Hl'. destruct (Hl l' Hl') as (ss & Hs & F). exists ss. split; [exact Hs|].
  eapply Forall_impl; [|exact F]. intros v [[H1 [H2 [_ H4]]] _]. exact (conj H1 (conj H2 H4)).
Qed.

Lemma reachable_cfg_inv measureText cfg fuel s :
  reachable_cfg measureText cfg fuel s ->
  reachable measureText cfg fuel s /\ drawable_store (lineData s).
Proof.
  induction 1 as [l s Hcfg Hc|s e s' R [IHr IHd] Hs].
  - split; [eapply reach_create; eauto|eapply create_drawable; eauto].
  - split; [eapply reach_step; eauto|].
    destruct (step_lineData _ _ _ _ _ _ Hs) as [->|[arp ->]]; [exact IHd|].
    now apply drawable_setLineSpace.
Qed.

(** A frame callback on a store the renderer can draw returns: throttled,
    or rendered with enough fuel for every arrow loop. *)
Lemma drawFrame_total cfg fuel loop now s :
  drawable_store (lineData s) -> 0 <= flowLength cfg -> 0 < flowLength cfg + stepSize cfg ->
  FlowRenderer.flow_colors_ok (lineData s) ->
  (FlowRenderer.frame_fuel (flowLength cfg + stepSize cfg) (lineData s) <= fuel)%nat ->
  exists s', drawFrame cfg fuel loop now s = Some s'.
Proof.
  intros Hd Hfl Hm Hc Hf. unfold drawFrame.
  destruct (js_ltb_num _ _); [eauto|].
  assert (Hm' : 0 < stepSize cfg + flowLength cfg) by lra.
  destruct (js_mod_some_pos _ Hm' (arrowRunPx s + 1)) as [arp Ha].
  unfold advance. simpl. rewrite Ha.
  destruct (FlowRenderer.drawOneArrow_total (flowLength cfg) (stepSize cfg) fuel arp (lineData s) Hfl Hm Hc Hd Hf)
    as [ops ->].
  eauto.
Qed.

(** ** Properties of the animation *)

Section Properties.
Variable measureText : string -> Q.
Variable cfg : Config.
Variable fuel : nat.

  (** (C16) In every state an object reaches, each [drawFlow] closure has at
      most one pending frame, handles are fresh and positive, and the handle
      [this.arrowAnimation] keeps is that of a pending frame. *)
Theorem frames_invariant s :
    reachable measureText cfg fuel s ->
    NoDup (map snd (frames s)) /\ NoDup (map fst (frames s)) /\
    (forall f, In f (frames s) -> (1 <= fst f < next_handle s)%nat) /\
    (forall h, arrowAnimation s = Some h -> In h (map fst (frames s))).
  Proof.
    intros R. destruct (reachable_ok _ _ _ _ R) as [[_ [Hb [Hf Hs]]] Ha].
    split; [exact Hs|split; [exact Hf|split; [|exact Ha]]].
    intros fr Hin. apply Hb in Hin. tauto.
  Qed.

  (** (C5) When [stepSize + flowLength > 0], the progress counter
      [arrowRunPx] stays in [[0, stepSize + flowLength)] in every state. *)
Theorem counter_in_range s :
    0 < stepSize cfg + flowLength cfg -> reachable measureText cfg fuel s ->
    0 <= arrowRunPx s < stepSize cfg + flowLength cfg.
  Proof.
    intros Hm R. induction R as [l s Hc|s e s' R IH Hs].
    - unfold create in Hc. destruct (Projector.init l); [|discriminate].
      injection Hc as <-. simpl. lra.
    - destruct (step_arp _ _ _ _ _ _ Hs) as [->|Ha]; [exact IH|].
      apply (js_mod_nonneg_bound _ Hm (arrowRunPx s + 1)); [lra|exact Ha].
  Qed.

  (** (C15) With an integer period [m = stepSize + flowLength > 0], [k]
      renders from [0] leave the counter at [k mod m]: it counts up by one
      and wraps to [0] after [m] renders. *)
Theorem counter_wraps (m : positive) (k : nat) :
    stepSize cfg + flowLength cfg == inject_Z (Zpos m) ->
    exists r, Nat.iter k (fun o => let* x := o in advance cfg x) (Some 0) = Some r /\
              r == inject_Z (Z.of_nat k mod Zpos m).
  Proof.
    intros Hm. induction k as [|k [r [Hr Er]]]; [exists 0; split; reflexivity|].
    rewrite Nat2Z.inj_succ. simpl. rewrite Hr. unfold advance.
    destruct (js_mod_int (Z.of_nat k mod Zpos m + 1) (Zpos m)) as [r' [Hr' Er']];
      [pose proof (Z.mod_pos_bound (Z.of_nat k) (Zpos m)); lia|lia|].
    assert (P : opt_qeq (js_mod (r + 1) (stepSize cfg + flowLength cfg))
                        (js_mod (inject_Z (Z.of_nat k mod Zpos m + 1)) (inject_Z (Zpos m)))).
    { apply js_mod_proper; [rewrite Er, inject_Z_plus; reflexivity|exact Hm]. }
    rewrite Hr' in P. destruct (js_mod (r + 1) _) as [r''|]; [|destruct P].
    exists r''. split; [reflexivity|]. simpl in P. rewrite P, Er'.
    rewrite Z.add_mod_idemp_l by lia. rewrite Z.add_1_r. reflexivity.
  Qed.

  (** (C24) A frame fired less than [1000 / fps] ms after its closure last
      rendered only requests the next frame: the counter, the connections,
      both canvases and the times are unchanged. *)
Theorem frame_throttled s h l now :
    frame_loop h (frames s) = Some l -> throttled cfg l now s = true ->
    step measureText cfg fuel s (Frame h now) =
      Some (mkState (lineData s) (arrowRunPx s) (Some (next_handle s)) (lastTimes s)
              (filter (fun f => negb (Nat.eqb (fst f) h)) (frames s) ++ [(next_handle s, l)])
              (S (next_handle s)) (main s) (flow s) (loads s)).
  Proof.
    intros Hl Ht. unfold throttled in Ht. simpl. rewrite Hl. simpl.
    unfold drawFrame. simpl. rewrite Ht. reflexivity.
  Qed.

  (** (C25) A frame that renders advances the counter by one modulo
      [stepSize + flowLength], records the time, and redraws the flow canvas
      from a cleared surface with the counter's new value. *)
Theorem frame_renders s h l now s' :
    reachable measureText cfg fuel s -> frame_loop h (frames s) = Some l -> throttled cfg l now s = false ->
    step measureText cfg fuel s (Frame h now) = Some s' ->
    advance cfg (arrowRunPx s) = Some (arrowRunPx s') /\
    nth l (lastTimes s') 0 = now /\
    exists ops, FlowRenderer.drawOneArrow (flowLength cfg) (stepSize cfg) fuel (arrowRunPx s')
                  (lineData s) = Some (lineData s', FlowRenderer.ClearRect :: ops) /\
                flow s' = flow s ++ FlowRenderer.ClearRect :: ops.
  Proof.
    intros R Hl Ht. simpl. rewrite Hl. simpl. intros H.
    destruct (reachable_ok _ _ _ _ R) as [[_ [Hb _]] _].
    assert (Hlen : (l < List.length (lastTimes s))%nat) by (apply frame_loop_In, Hb in Hl; apply Hl).
    apply drawFrame_render in H. unfold throttled in *. simpl in *. rewrite Ht in H.
    destruct H as [Ha [ops [Hd [Hfl Ht']]]].
    destruct (drawOneArrow_shape _ _ _ _ _ _ _ Hd) as [ops' ->].
    split; [exact Ha|split; [rewrite Ht'; now apply nth_update_const|eauto]].
  Qed.

  (** (C26) A fired frame always requests the next one for the same closure,
      and the object keeps that request's handle: a loop never stops by
      itself, only [clear()] cancels it. *)
Theorem loop_persists s h now s' :
    step measureText cfg fuel s (Frame h now) = Some s' ->
    exists l, frame_loop h (frames s) = Some l /\ In (next_handle s, l) (frames s') /\
              arrowAnimation s' = Some (next_handle s).
  Proof.
    simpl. destruct (frame_loop h (frames s)) as [l|]; [|discriminate]. simpl. intros H.
    apply drawFrame_frames in H as (Hf & Ha & _). simpl in *.
    exists l. split; [reflexivity|]. rewrite Hf. split; [|exact Ha].
    apply in_or_app. right. left. reflexivity.
  Qed.

  (** (C13) [clear()] after one [draw()] of a stopped object stops the
      animation: no frame is pending, none can fire, and both canvases are
      empty. *)
Theorem stop_after_draw s now s1 :
    reachable measureText cfg fuel s -> frames s = [] ->
    step measureText cfg fuel s (Draw now) = Some s1 ->
    frames (clear s1) = [] /\ arrowAnimation (clear s1) = None /\
    main (clear s1) = [] /\ flow (clear s1) = [] /\
    forall h t, step measureText cfg fuel (clear s1) (Frame h t) = None.
  Proof.
    intros R Hs0 H. pose proof (reach_step _ _ _ _ _ _ R H) as R1.
    destruct (draw_frames _ _ _ _ _ _ H) as (Hf & Ha & _).
    destruct (clear_frames _ _ (reachable_ok _ _ _ _ R1) Ha) as [Hc Hn].
    rewrite Hf, Hs0 in Hc. simpl in Hc. rewrite Nat.eqb_refl in Hc. simpl in Hc.
    split; [exact Hc|split; [exact Hn|]].
    split; [unfold clear; destruct (arrowAnimation s1) as [[|]|]; reflexivity|].
    split; [unfold clear; destruct (arrowAnimation s1) as [[|]|]; reflexivity|].
    intros h t. simpl. rewrite Hc. reflexivity.
  Qed.

  (** (C14) [draw()] twice and then [clear()] does not stop the animation:
      [clear()] cancels only the frame of the second loop, and the first
      loop's frame stays pending (and, fired, keeps requesting frames). *)
Theorem double_draw_keeps_running s t1 t2 s1 s2 :
    reachable measureText cfg fuel s -> frames s = [] ->
    step measureText cfg fuel s (Draw t1) = Some s1 ->
    step measureText cfg fuel s1 (Draw t2) = Some s2 ->
    frames (clear s2) = [(next_handle s, List.length (lastTimes s))].
  Proof.
    intros R Hs0 H1 H2. pose proof (reach_step _ _ _ _ _ _ R H1) as R1.
    pose proof (reach_step _ _ _ _ _ _ R1 H2) as R2.
    destruct (draw_frames _ _ _ _ _ _ H1) as (Hf1 & Ha1 & _).
    destruct (draw_frames _ _ _ _ _ _ H2) as (Hf2 & Ha2 & _).
    destruct (clear_frames _ _ (reachable_ok _ _ _ _ R2) Ha2) as [Hc _].
    destruct (reachable_ok _ _ _ _ R1) as [[_ [Hb1 _]] _].
    assert (Hne : next_handle s <> next_handle s1).
    { assert (In (next_handle s, List.length (lastTimes s)) (frames s1))
        by (rewrite Hf1; apply in_or_app; right; left; reflexivity).
      apply Hb1 in H. simpl in H. lia. }
    rewrite Hc, Hf2, Hf1, Hs0. simpl.
    apply Nat.eqb_neq in Hne. rewrite Hne, Nat.eqb_refl. reflexivity.
  Qed.

  (** (C36) An image whose [onload] fires after [clear()] is drawn on the
      cleared main canvas: [clear()] does not cancel pending image loads. *)
Theorem image_after_clear s now s1 img imgs :
    imgData cfg = img :: imgs ->
    step measureText cfg fuel s (Draw now) = Some s1 ->
    exists s2, step measureText cfg fuel (clear s1) (ImgLoad (List.length (loads s))) = Some s2 /\
               main s2 = [onload img].
  Proof.
    intros Hi H. destruct (draw_frames _ _ _ _ _ _ H) as (_ & _ & imgNow & Hl & _).
    assert (Lc : loads (clear s1) = loads s1)
      by (unfold clear; destruct (arrowAnimation s1) as [[|]|]; reflexivity).
    assert (Mc : main (clear s1) = [])
      by (unfold clear; destruct (arrowAnimation s1) as [[|]|]; reflexivity).
    simpl. rewrite Lc, Hl, Hi, nth_error_app2, Nat.sub_diag by lia. simpl.
    eexists. split; [reflexivity|]. simpl. now rewrite Mc.
  Qed.

  (** (C38) With [fps = 0] the time between frames [1000 / fps] is infinite:
      no frame ever renders, the counter stays [0] and the flow canvas stays
      empty. *)
Theorem fps_zero_never_renders s :
    fps cfg == 0 -> reachable measureText cfg fuel s -> arrowRunPx s = 0 /\ flow s = [].
  Proof.
    intros Hf R. assert (T : forall loop now s0, throttled cfg loop now s0 = true).
    { intros. unfold throttled, js_div.
      destruct (qeqb_spec (fps cfg) 0) as [_|N]; [|contradiction].
      destruct (qeqb_spec 1000 0); [lra|]. reflexivity. }
    induction R as [l s Hc|s e s' R [IHa IHf] Hs].
    - unfold create in Hc. destruct (Projector.init l); [|discriminate]. now injection Hc as <-.
    - assert (D : forall loop now s0 s1, arrowRunPx s0 = 0 -> flow s0 = [] ->
                  drawFrame cfg fuel loop now s0 = Some s1 -> arrowRunPx s1 = 0 /\ flow s1 = []).
      { intros loop now s0 s1 Ha Hfl Hd. apply drawFrame_render in Hd. rewrite T in Hd.
        destruct Hd as (_ & -> & -> & _). tauto. }
      destruct e as [now| |h now|i]; simpl in Hs.
      + unfold draw, drawFlow in Hs. destruct (drawImage _ _) as [[? ?]|]; [|discriminate].
        destruct (drawLine _); [|discriminate]. refine (D _ _ _ _ _ _ Hs); simpl; assumption.
      + injection Hs as <-. unfold clear.
        destruct (arrowAnimation s) as [[|]|]; simpl; tauto.
      + destruct (frame_loop _ _); [|discriminate]. refine (D _ _ _ _ _ _ Hs); simpl; assumption.
      + destruct (nth_error _ _); [|discriminate]. injection Hs as <-. simpl. tauto.
  Qed.

(** (C17) A fired frame never leaves the model: on an object built from a
    configuration, with a non-negative [flowLength], a positive period
    [stepSize + flowLength], flow colours that parse (else
    [addColorStop] throws) and [frame_fuel] turns of fuel per arrow loop,
    every pending frame callback runs to completion, whether it is
    throttled or renders.  The fuel bound
    does not change along a run ([frame_fuel_setLineSpace]). *)
Theorem frame_completes s h l now :
  reachable_cfg measureText cfg fuel s -> 0 <= flowLength cfg -> 0 < flowLength cfg + stepSize cfg ->
  FlowRenderer.flow_colors_ok (lineData s) -> frame_loop h (frames s) = Some l ->
  (FlowRenderer.frame_fuel (flowLength cfg + stepSize cfg) (lineData s) <= fuel)%nat ->
  exists s', step measureText cfg fuel s (Frame h now) = Some s'.
Proof.
  intros R Hfl Hm Hc Hl Hf. destruct (reachable_cfg_inv _ _ _ _ R) as [_ Hd].
  simpl. rewrite Hl.
  match goal with |- context [drawFrame ?c ?f ?lp ?n ?st] =>
    exact (drawFrame_total c f lp n st Hd Hfl Hm Hc Hf) end.
Qed.

  (** (C18) [draw()] throws exactly when the input is malformed: on an object
      built from a configuration, with a non-negative [flowLength], a
      positive step, flow colours that parse and the fuel covering
      [frame_fuel], [draw()] fails exactly when an image has a label to
      show and no [style], or a connection has no points; its [drawFlow()]
      never fails.  (A negative [flowLength] or a flow colour that does not
      parse makes the first stroke's [addColorStop] throw.) *)
Theorem draw_error s now :
  reachable_cfg measureText cfg fuel s -> 0 <= flowLength cfg -> 0 < flowLength cfg + stepSize cfg ->
  FlowRenderer.flow_colors_ok (lineData s) ->
  (FlowRenderer.frame_fuel (flowLength cfg + stepSize cfg) (lineData s) <= fuel)%nat ->
  step measureText cfg fuel s (Draw now) = None <->
  (exists img, In img (imgData cfg) /\ text_error img = true) \/
  (exists l, In l (lineData s) /\ LineObj.points l = []).
Proof.
  intros R Hfl Hm Hc Hf. destruct (reachable_cfg_inv _ _ _ _ R) as [_ Hd].
  rewrite <- (drawImage_None measureText), <- drawLine_error.
  simpl. unfold draw, drawFlow.
  destruct (drawImage _ _) as [[? ?]|]; [|tauto].
  destruct (drawLine _); [|tauto].
  match goal with |- context [drawFrame ?c ?f ?lp ?n ?st] =>
    destruct (drawFrame_total c f lp n st Hd Hfl Hm Hc Hf) as [s' ->] end.
  split; [discriminate|intros [H|H]; discriminate].
Qed.
End Properties.

(** ** Witnesses: the sample run on the test's object *)

Lemma test_reachable n :
  (n <= 5)%nat -> reachable test_measure test_cfg test_fuel (test_state n).
Proof.
  induction n as [|n IH]; intros Hn.
  - apply (reach_create _ _ _ test_lineData). vm_compute. reflexivity.
  - apply (reach_step _ _ _ (test_state n) (nth n test_events Clear)); [apply IH; lia|].
    destruct n as [|[|[|[|[|]]]]]; [vm_compute; reflexivity..|lia].
Qed.

Lemma frames_invariant_witness :
  reachable test_measure test_cfg test_fuel (test_state 4) /\
  NoDup (map snd (frames (test_state 4))) /\ NoDup (map fst (frames (test_state 4))) /\
  (forall f, In f (frames (test_state 4)) -> (1 <= fst f < next_handle (test_state 4))%nat) /\
  (forall h, arrowAnimation (test_state 4) = Some h -> In h (map fst (frames (test_state 4)))).
Proof.
  split; [apply test_reachable; lia|]. apply (frames_invariant test_measure test_cfg test_fuel). apply test_reachable; lia.
Defined.

Lemma counter_in_range_witness :
  0 < stepSize test_cfg + flowLength test_cfg /\ reachable test_measure test_cfg test_fuel (test_state 3) /\
  0 <= arrowRunPx (test_state 3) < stepSize test_cfg + flowLength test_cfg.
Proof.
  split; [vm_compute; reflexivity|]. split; [apply test_reachable; lia|].
  apply (counter_in_range test_measure test_cfg test_fuel); [vm_compute; reflexivity|apply test_reachable; lia].
Defined.

Lemma counter_wraps_witness :
  stepSize test_cfg + flowLength test_cfg == inject_Z 80 /\
  exists r, Nat.iter 81 (fun o => let* x := o in advance test_cfg x) (Some 0) = Some r /\
            r == inject_Z (Z.of_nat 81 mod 80).
Proof.
  split; [vm_compute; reflexivity|]. apply (counter_wraps test_cfg 80 81). vm_compute. reflexivity.
Defined.

Lemma frame_throttled_witness :
  frame_loop 1 (frames (test_state 1)) = Some 0%nat /\ throttled test_cfg 0 1010 (test_state 1) = true /\
  step test_measure test_cfg test_fuel (test_state 1) (Frame 1 1010) =
    Some (mkState (lineData (test_state 1)) (arrowRunPx (test_state 1)) (Some (next_handle (test_state 1)))
            (lastTimes (test_state 1))
            (filter (fun f => negb (Nat.eqb (fst f) 1)) (frames (test_state 1)) ++
               [(next_handle (test_state 1), 0%nat)])
            (S (next_handle (test_state 1))) (main (test_state 1)) (flow (test_state 1))
            (loads (test_state 1))).
Proof.
  split; [vm_compute; reflexivity|]. split; [vm_compute; reflexivity|].
  apply (frame_throttled test_measure test_cfg test_fuel); vm_compute; reflexivity.
Defined.

Lemma frame_renders_witness :
  step test_measure test_cfg test_fuel (test_state 2) (Frame 2 2000) = Some (test_state 3) /\
  advance test_cfg (arrowRunPx (test_state 2)) = Some (arrowRunPx (test_state 3)) /\
  nth 0 (lastTimes (test_state 3)) 0 = 2000 /\
  exists ops, FlowRenderer.drawOneArrow (flowLength test_cfg) (stepSize test_cfg) test_fuel (arrowRunPx (test_state 3))
                (lineData (test_state 2)) = Some (lineData (test_state 3), FlowRenderer.ClearRect :: ops) /\
              flow (test_state 3) = flow (test_state 2) ++ FlowRenderer.ClearRect :: ops.
Proof.
  split; [vm_compute; reflexivity|].
  apply (frame_renders test_measure test_cfg test_fuel (test_state 2) 2 0); [apply test_reachable; lia|vm_compute; reflexivity..].
Defined.

Lemma loop_persists_witness :
  step test_measure test_cfg test_fuel (test_state 2) (Frame 2 2000) = Some (test_state 3) /\
  exists l, frame_loop 2 (frames (test_state 2)) = Some l /\
    In (next_handle (test_state 2), l) (frames (test_state 3)) /\
    arrowAnimation (test_state 3) = Some (next_handle (test_state 2)).
Proof.
  split; [vm_compute; reflexivity|]. apply (loop_persists test_measure test_cfg test_fuel _ 2 2000). vm_compute. reflexivity.
Defined.

Lemma stop_after_draw_witness :
  reachable test_measure test_cfg test_fuel (test_state 0) /\ frames (test_state 0) = [] /\
  step test_measure test_cfg test_fuel (test_state 0) (Draw 1000) = Some (test_state 1) /\
  frames (clear (test_state 1)) = [] /\ arrowAnimation (clear (test_state 1)) = None /\
  main (clear (test_state 1)) = [] /\ flow (clear (test_state 1)) = [] /\
  forall h t, step test_measure test_cfg test_fuel (clear (test_state 1)) (Frame h t) = None.
Proof.
  split; [apply test_reachable; lia|]. split; [vm_compute; reflexivity|].
  split; [vm_compute; reflexivity|].
  apply (stop_after_draw test_measure test_cfg test_fuel (test_state 0) 1000); [apply test_reachable; lia|vm_compute; reflexivity..].
Defined.

Lemma double_draw_keeps_running_witness :
  reachable test_measure test_cfg test_fuel (test_state 0) /\
  step test_measure test_cfg test_fuel (test_state 0) (Draw 1000) = Some (test_state 1) /\
  step test_measure test_cfg test_fuel (test_state 1) (Draw 1000) = Some (dflt empty_state (step test_measure test_cfg test_fuel (test_state 1) (Draw 1000))) /\
  frames (clear (dflt empty_state (step test_measure test_cfg test_fuel (test_state 1) (Draw 1000)))) = [(1%nat, 0%nat)].
Proof.
  split; [apply test_reachable; lia|]. split; [vm_compute; reflexivity|].
  split; [vm_compute; reflexivity|].
  eapply (double_draw_keeps_running test_measure test_cfg test_fuel (test_state 0) 1000 1000);
    [apply test_reachable; lia|vm_compute; reflexivity..].
Defined.

Lemma image_after_clear_witness :
  imgData test_cfg = test_img 200 :: [test_img 400] /\
  step test_measure test_cfg test_fuel (test_state 0) (Draw 1000) = Some (test_state 1) /\
  exists s2, step test_measure test_cfg test_fuel (clear (test_state 1)) (ImgLoad 0) = Some s2 /\ main s2 = [onload (test_img 200)].
Proof.
  split; [reflexivity|]. split; [vm_compute; reflexivity|].
  apply (image_after_clear test_measure test_cfg test_fuel (test_state 0) 1000 (test_state 1) (test_img 200) [test_img 400]);
    vm_compute; reflexivity.
Defined.

Lemma fps_zero_never_renders_witness :
  fps (mkConfig test_imgData 0 60 20) == 0 /\
  reachable test_measure (mkConfig test_imgData 0 60 20) test_fuel
    (dflt empty_state (step test_measure (mkConfig test_imgData 0 60 20) test_fuel (test_state 0) (Draw 1000))) /\
  arrowRunPx (dflt empty_state (step test_measure (mkConfig test_imgData 0 60 20) test_fuel (test_state 0) (Draw 1000))) = 0 /\
  flow (dflt empty_state (step test_measure (mkConfig test_imgData 0 60 20) test_fuel (test_state 0) (Draw 1000))) = [].
Proof.
  split; [reflexivity|].
  assert (R : reachable test_measure (mkConfig test_imgData 0 60 20) test_fuel
    (dflt empty_state (step test_measure (mkConfig test_imgData 0 60 20) test_fuel (test_state 0) (Draw 1000)))).
  { apply (reach_step _ _ _ (test_state 0) (Draw 1000));
      [apply (reach_create _ _ _ test_lineData)|]; vm_compute; reflexivity. }
  split; [exact R|].
  apply (fps_zero_never_renders test_measure (mkConfig test_imgData 0 60 20) test_fuel); [reflexivity|exact R].
Defined.

Lemma test_reachable_cfg n :
  (n <= 5)%nat -> reachable_cfg test_measure test_cfg test_fuel (test_state n).
Proof.
  induction n as [|n IH]; intros Hn.
  - apply (cfg_create _ _ _ test_lineData); [repeat constructor|vm_compute; reflexivity].
  - apply (cfg_step _ _ _ (test_state n) (nth n test_events Clear)); [apply IH; lia|].
    destruct n as [|[|[|[|[|]]]]]; [vm_compute; reflexivity..|lia].
Qed.

Lemma draw_error_witness :
  reachable_cfg test_measure test_cfg test_fuel (test_state 0) /\
  0 <= flowLength test_cfg /\ 0 < flowLength test_cfg + stepSize test_cfg /\
  FlowRenderer.flow_colors_ok (lineData (test_state 0)) /\
  (FlowRenderer.frame_fuel (flowLength test_cfg + stepSize test_cfg) (lineData (test_state 0)) <= test_fuel)%nat /\
  (step test_measure test_cfg test_fuel (test_state 0) (Draw 1000) = None <->
   (exists img, In img (imgData test_cfg) /\ text_error img = true) \/
   (exists l, In l (lineData (test_state 0)) /\ LineObj.points l = [])).
Proof.
  assert (Hc : FlowRenderer.flow_colors_ok (lineData (test_state 0))) by (vm_compute; repeat constructor).
  split; [apply test_reachable_cfg; lia|]. split; [vm_compute; discriminate|].
  split; [vm_compute; reflexivity|]. split; [exact Hc|]. split; [vm_compute; lia|].
  apply (draw_error test_measure test_cfg test_fuel (test_state 0) 1000);
    [apply test_reachable_cfg; lia|vm_compute; discriminate|vm_compute; reflexivity|exact Hc|vm_compute; lia].
Defined.

Lemma frame_completes_witness :
  reachable_cfg test_measure test_cfg test_fuel (test_state 2) /\
  0 <= flowLength test_cfg /\ 0 < flowLength test_cfg + stepSize test_cfg /\
  FlowRenderer.flow_colors_ok (lineData (test_state 2)) /\
  frame_loop 2 (frames (test_state 2)) = Some 0%nat /\
  (FlowRenderer.frame_fuel (flowLength test_cfg + stepSize test_cfg) (lineData (test_state 2)) <= test_fuel)%nat /\
  exists s', step test_measure test_cfg test_fuel (test_state 2) (Frame 2 5000) = Some s'.
Proof.
  assert (Hc : FlowRenderer.flow_colors_ok (lineData (test_state 2))) by (vm_compute; repeat constructor).
  split; [apply test_reachable_cfg; lia|]. split; [vm_compute; discriminate|].
  split; [vm_compute; reflexivity|]. split; [exact Hc|].
  split; [vm_compute; reflexivity|]. split; [vm_compute; lia|].
  apply (frame_completes test_measure test_cfg test_fuel (test_state 2) 2 0 5000);
    [apply test_reachable_cfg; lia|vm_compute; discriminate|vm_compute; reflexivity|exact Hc
    |vm_compute; reflexivity|vm_compute; lia].
Defined.

End Scheduler.
