(* ===== verification/SchedulerSpec.v ===== *)
(** * SchedulerSpec: the design's animation states and their refinement

    The design describes the Animation Scheduler as a machine with two
    states: stopped (initially, and after stop()) and running (after
    render(), scheduling ticks indefinitely); a tick only happens while
    running.  [spec_step] is that machine, [cmd_of] maps the object's events
    ([draw()], [clear()], a frame callback) to its commands (an image load is
    no command), and [mode] reads the abstract state off a concrete one:
    running when a frame callback is pending.  [scheduler_refines_spec]
    shows that every run of [Scheduler.step] that calls [draw()] only while
    stopped is a run of the design's machine, by a simulation on the
    invariant [one_loop].  [test_run_violates_spec] is the sample run
    [Scheduler.test_events] on the test's object, which calls [draw()]
    while running: the design then says stopped and the object keeps
    running. *)

From Stdlib Require Import QArith Arith List String Lia Bool.
From S2P Require Import Prelude Geometry Types FlowRenderer StaticLayer Scheduler.
Import ListNotations.
Open Scope js_scope.

Module SchedulerSpec.
Import Scheduler.

Inductive Mode := Stopped | Running.

(** The design's operations: [render()], [stop()], and a tick of the
    frame-scheduling primitive. *)
Inductive Cmd := Render | Stop | Tick.

Definition spec_step (m : Mode) (c : Cmd) : option Mode :=
  match c, m with
  | Render, _ => Some Running
  | Stop, _ => Some Stopped
  | Tick, Running => Some Running
  | Tick, Stopped => None
  end.

Definition cmd_of (e : Event) : option Cmd :=
  match e with
  | Draw _ => Some Render
  | Clear => Some Stop
  | Frame _ _ => Some Tick
  | ImgLoad _ => None
  end.

Fixpoint spec_run (m : Mode) (es : list Event) : option Mode :=
  match es with
  | [] => Some m
  | e :: es =>
      match cmd_of e with
      | None => spec_run m es
      | Some c => let* m' := spec_step m c in spec_run m' es
      end
  end.

(** The abstraction: running exactly when a frame callback is pending. *)
Definition mode (s : State) : Mode :=
  match frames s with [] => Stopped | _ => Running end.

(** The simulation invariant: no frame pending and no handle kept, or
    exactly one pending frame whose handle the object keeps. *)
Definition one_loop (s : State) : Prop :=
  (frames s = [] /\ arrowAnimation s = None) \/
  exists h l, frames s = [(h, l)] /\ arrowAnimation s = Some h.

Section Runs.
Variable measureText : string -> Q.
Variable cfg : Config.
Variable fuel : nat.

(** Whether a run calls [draw()] only while no frame is pending. *)
Fixpoint draws_when_stopped (s : State) (es : list Event) : bool :=
  match es with
  | [] => true
  | e :: es =>
      (match e with Draw _ => match frames s with [] => true | _ => false end | _ => true end) &&
      match step measureText cfg fuel s e with
      | Some s' => draws_when_stopped s' es
      | None => true
      end
  end.
End Runs.

(** ** The simulation *)

Section Simulation.
Variable measureText : string -> Q.
Variable cfg : Config.
Variable fuel : nat.

Lemma frame_loop_single h h0 l l0 : frame_loop h [(h0, l0)] = Some l -> h0 = h /\ l0 = l.
Proof.
  unfold frame_loop. simpl. destruct (Nat.eqb_spec h0 h) as [->|]; [|discriminate].
  simpl. intros [= ->]. auto.
Qed.

Lemma filter_single (h l : nat) : filter (fun f : nat * nat => negb (Nat.eqb (fst f) h)) [(h, l)] = [].
Proof. simpl. now rewrite Nat.eqb_refl. Qed.

Lemma step_simulates s e s' :
  reachable measureText cfg fuel s -> one_loop s ->
  (forall now, e = Draw now -> mode s = Stopped) ->
  step measureText cfg fuel s e = Some s' ->
  one_loop s' /\
  match cmd_of e with
  | Some c => spec_step (mode s) c = Some (mode s')
  | None => mode s' = mode s
  end.
Proof.
  intros R Hinv Hd Hs. unfold mode.
  destruct e as [now| |h now|i]; cbn [cmd_of spec_step].
  - assert (Hst : frames s = []) by (specialize (Hd now eq_refl); unfold mode in Hd;
                                    destruct (frames s); [reflexivity|discriminate]).
    destruct (draw_frames _ _ _ _ _ _ Hs) as (Hf & Ha & _).
    split; [right; exists (next_handle s), (List.length (lastTimes s)); rewrite Hf, Hst; auto|].
    rewrite Hf, Hst. reflexivity.
  - injection Hs as <-.
    destruct Hinv as [[Hf Ha]|(h & l & Hf & Ha)].
    + unfold clear. rewrite Ha. unfold one_loop. simpl. rewrite Hf. split; [left; auto|reflexivity].
    + destruct (clear_frames _ _ (reachable_ok _ _ _ _ R) Ha) as [Hc Hn].
      rewrite Hf, filter_single in Hc. unfold one_loop. rewrite Hc, Hn.
      split; [left; auto|reflexivity].
  - simpl in Hs. destruct (frame_loop h (frames s)) as [l|] eqn:El; [|discriminate].
    destruct Hinv as [[Hf _]|(h0 & l0 & Hf & _)]; [rewrite Hf in El; discriminate|].
    rewrite Hf in El. destruct (frame_loop_single _ _ _ _ El) as [-> ->].
    apply drawFrame_frames in Hs as (Hf' & Ha' & _). simpl in Hf', Ha'.
    rewrite Hf, filter_single in Hf'. simpl in Hf'. unfold one_loop. rewrite Hf', Hf, Ha'.
    split; [right; eauto|reflexivity].
  - simpl in Hs. destruct (nth_error (loads s) i); [|discriminate]. injection Hs as <-.
    unfold one_loop in *. simpl. split; [exact Hinv|reflexivity].
Qed.
End Simulation.

(** ** Refinement *)

(** (C6) Refinement: on every run that calls [draw()] only while the
    animation is stopped, the object behaves as the design's two-state
    machine: the abstract state of the final object is the state the
    design's machine reaches on the same commands, and the invariant
    [one_loop] (at most one pending frame, whose handle is kept) holds
    throughout. *)
Theorem scheduler_refines_spec measureText cfg fuel s es s' :
  reachable measureText cfg fuel s -> one_loop s ->
  draws_when_stopped measureText cfg fuel s es = true ->
  run measureText cfg fuel s es = Some s' ->
  spec_run (mode s) es = Some (mode s') /\ one_loop s'.
Proof.
  revert s; induction es as [|e es IH]; intros s R Hinv Hd Hr; simpl in Hr.
  - injection Hr as <-. simpl. auto.
  - destruct (step measureText cfg fuel s e) as [s1|] eqn:Hs; [|discriminate].
    simpl in Hd. rewrite Hs in Hd. apply andb_true_iff in Hd as [Hd1 Hd2].
    assert (Hdraw : forall now, e = Draw now -> mode s = Stopped).
    { intros now ->. unfold mode. destruct (frames s); [reflexivity|discriminate]. }
    destruct (step_simulates _ _ _ _ _ _ R Hinv Hdraw Hs) as [Hinv1 Hsim].
    destruct (IH s1 (reach_step _ _ _ _ _ _ R Hs) Hinv1 Hd2 Hr) as [Hrun Hinv'].
    split; [|exact Hinv']. simpl.
    destruct (cmd_of e) as [c|]; [rewrite Hsim; exact Hrun|rewrite <- Hsim; exact Hrun].
Qed.

(** The sample run [Draw; Frame; Frame; Draw; Clear] on the test's object calls
    [draw()] while running: the design's machine ends stopped, the object
    keeps a pending frame. *)
Example test_run_violates_spec :
  spec_run (mode (test_state 0)) test_events = Some Stopped /\ mode (test_state 5) = Running.
Proof. split; vm_compute; reflexivity. Qed.

(** ** Witnesses *)

Lemma scheduler_refines_spec_witness :
  reachable test_measure test_cfg test_fuel (test_state 0) /\ one_loop (test_state 0) /\
  draws_when_stopped test_measure test_cfg test_fuel (test_state 0) (firstn 3 test_events ++ [Clear]) = true /\
  run test_measure test_cfg test_fuel (test_state 0) (firstn 3 test_events ++ [Clear]) =
    Some (dflt empty_state (run test_measure test_cfg test_fuel (test_state 0) (firstn 3 test_events ++ [Clear]))) /\
  spec_run (mode (test_state 0)) (firstn 3 test_events ++ [Clear]) =
    Some (mode (dflt empty_state (run test_measure test_cfg test_fuel (test_state 0) (firstn 3 test_events ++ [Clear])))) /\
  one_loop (dflt empty_state (run test_measure test_cfg test_fuel (test_state 0) (firstn 3 test_events ++ [Clear]))).
Proof.
  assert (R : reachable test_measure test_cfg test_fuel (test_state 0)) by (apply test_reachable; lia).
  assert (I0 : one_loop (test_state 0)) by (left; split; vm_compute; reflexivity).
  split; [exact R|]. split; [exact I0|]. split; [vm_compute; reflexivity|].
  split; [vm_compute; reflexivity|].
  apply (scheduler_refines_spec test_measure test_cfg test_fuel (test_state 0)); [exact R|exact I0|vm_compute; reflexivity..].
Defined.

End SchedulerSpec.
