(* ===== verification/TestScenarios.v ===== *)
(** * TestScenarios: the repository's test and the design's scenarios

    [src/test/jest/createImgLineFlow.test.js] builds two canvases, then,
    from a [setTimeout] callback, clears them and constructs a
    [CreateImgLineFlow] on one connection from [(200, 200)] to [(400, 200)]
    and two labelled images; it passes the object to [expect] with no
    matcher.  [test_callback] is that callback.  The design's scenarios for
    the projector (a horizontal connection gets angle [0] and its length,
    a vertical one [PI/2]) are proved here for every axis-parallel
    two-point connection, from [init] down to the real value of the
    angle, and the test's connection is one instance.  The boundary case
    of a connection with fewer than two points closes the file: it gets no
    segment and the flow renderer draws nothing for it. *)

From Stdlib Require Import QArith Qabs Reals List String Lia.
From S2P Require Import Prelude Geometry AngleReal Types SegmentGraph Projector FlowRenderer Scheduler.
Import ListNotations.
Open Scope js_scope.

Module TestScenarios.
Import Scheduler.

(** The callback of [setTimeout] (lines 11-64).  The canvases are fresh,
    so [ctx.clearRect] and [flowCtx.clearRect] leave them empty, as
    [create] does; the constructor gets no [fps], [stepSize] or
    [flowLength], so it takes its defaults; [expect(...)] with no matcher
    checks nothing, so the callback's outcome is the constructor's: an
    object, or [None] for a [TypeError].  [require(url)] (lines 17 and
    31) is taken to resolve to the url, as a Jest [moduleNameMapper] for
    images makes it; the test's configuration is not in the repository
    (its [@/index] alias shows there is one), and without such a mapping
    [require] throws before the constructor runs. *)
Definition test_callback : option (Config * State) :=
  let imgData := test_imgData in
  let lineData := test_lineData in
  let* s := create lineData in
  Some (default_config imgData, s).

(** The segment [init] makes of a connection of two points. *)
Definition two_point_segment (p q : Coordinate) : SplitLine.t :=
  SplitLine.mk (Some (getAngle p q "top")) (Some (distance (x p) (y p) (x q) (y q)))
    (Some (distance (x p) (y p) (x q) (y q))) (Some ((x p, y p), (x q, y q))) (Some []) (Some [])
    (Some (getScreen p Projector.referencePoint)) (Some (getScreen q Projector.referencePoint)).

(** ** Lemmas *)

(** [init] on a single two-point connection: one unlinked segment with its
    pixels, its angle and its length. *)
Lemma init_two_points p q dir lo fo :
  exists l, Projector.init [LineObj.config [p; q] dir lo fo] = Some [l] /\
    LineObj.splitLines l = Some [two_point_segment p q].
Proof. destruct p as [px py], q as [qx qy]. cbn. eexists. split; reflexivity. Qed.

(** ** The design's scenarios *)

(** Scenario of a horizontal connection: [init] on one connection from
    [(x0, y0)] to [(x1, y0)], [x0 <> x1], gives a single segment, linked
    to nothing, of length [|x0 - x1|] whose angle is [0] when it points
    right and [PI] when it points left. *)
Lemma init_horizontal_scenario x0 x1 y0 dir lo fo :
  ~ (x0 == x1)%Q ->
  exists l v d a,
    Projector.init [LineObj.config [mkCoord x0 y0; mkCoord x1 y0] dir lo fo] = Some [l] /\
    LineObj.splitLines l = Some [v] /\
    SplitLine.length v = Some d /\ (d == Qabs (x0 - x1))%Q /\
    SplitLine.angle v = Some a /\ angle_value a = Some (if x1 - x0 <? 0 then PI else 0%R) /\
    SplitLine.endLines v = Some [] /\ SplitLine.startLines v = Some [].
Proof.
  intros Hx. destruct (init_two_points (mkCoord x0 y0) (mkCoord x1 y0) dir lo fo) as [l [Hi Hs]].
  exists l, (two_point_segment (mkCoord x0 y0) (mkCoord x1 y0)).
  do 2 eexists. repeat split; try eassumption; try reflexivity.
  - apply distance_horizontal.
  - apply angle_horizontal; simpl; [reflexivity|intros E; apply Hx; now symmetry].
Qed.

(** Scenario of a vertical connection: [init] on one connection from
    [(x0, y0)] to [(x0, y1)], [y0 <> y1], gives a single segment, linked
    to nothing, of length [|y0 - y1|] whose angle is [PI/2] when it points
    down the screen and [-PI/2], outside the [0 - 2PI] the source's comment
    promises, when it points up. *)
Lemma init_vertical_scenario x0 y0 y1 dir lo fo :
  ~ (y0 == y1)%Q ->
  exists l v d a,
    Projector.init [LineObj.config [mkCoord x0 y0; mkCoord x0 y1] dir lo fo] = Some [l] /\
    LineObj.splitLines l = Some [v] /\
    SplitLine.length v = Some d /\ (d == Qabs (y0 - y1))%Q /\
    SplitLine.angle v = Some a /\ angle_value a = Some (if y0 <? y1 then PI / 2 else - (PI / 2))%R /\
    SplitLine.endLines v = Some [] /\ SplitLine.startLines v = Some [].
Proof.
  intros Hy. destruct (init_two_points (mkCoord x0 y0) (mkCoord x0 y1) dir lo fo) as [l [Hi Hs]].
  exists l, (two_point_segment (mkCoord x0 y0) (mkCoord x0 y1)).
  do 2 eexists. repeat split; try eassumption; try reflexivity.
  - apply distance_vertical.
  - apply angle_vertical; simpl; [reflexivity|intros E; apply Hy; now symmetry].
Qed.

(** (C9) The design's projector scenarios, for every axis-parallel
    connection of two distinct points: [init] gives a single segment,
    linked to nothing, whose length is the distance of the points and whose
    angle is [0] pointing right, [PI] pointing left, [PI/2] pointing down
    the screen and [-PI/2] pointing up, outside the [0 - 2PI] the source's
    comment promises. *)
Theorem init_axis_scenarios :
  (forall x0 x1 y0 dir lo fo, ~ (x0 == x1)%Q ->
   exists l v d a,
     Projector.init [LineObj.config [mkCoord x0 y0; mkCoord x1 y0] dir lo fo] = Some [l] /\
     LineObj.splitLines l = Some [v] /\
     SplitLine.length v = Some d /\ (d == Qabs (x0 - x1))%Q /\
     SplitLine.angle v = Some a /\ angle_value a = Some (if x1 - x0 <? 0 then PI else 0%R) /\
     SplitLine.endLines v = Some [] /\ SplitLine.startLines v = Some []) /\
  (forall x0 y0 y1 dir lo fo, ~ (y0 == y1)%Q ->
   exists l v d a,
     Projector.init [LineObj.config [mkCoord x0 y0; mkCoord x0 y1] dir lo fo] = Some [l] /\
     LineObj.splitLines l = Some [v] /\
     SplitLine.length v = Some d /\ (d == Qabs (y0 - y1))%Q /\
     SplitLine.angle v = Some a /\ angle_value a = Some (if y0 <? y1 then PI / 2 else - (PI / 2))%R /\
     SplitLine.endLines v = Some [] /\ SplitLine.startLines v = Some []).
Proof. split; [exact init_horizontal_scenario|exact init_vertical_scenario]. Qed.

(** ** Boundary inputs *)

(** A connection without segments: whatever its [flowOption], the body of
    [drawOneArrow]'s [forEach] draws nothing for it. *)
Lemma draw_line_no_segments fl sz fuel arp l :
  LineObj.splitLines l = Some [] -> FlowRenderer.draw_line fl sz fuel (FlowRenderer.setSpace arp l) = Some [].
Proof.
  intros Hs. unfold FlowRenderer.draw_line, FlowRenderer.setSpace. cbn. rewrite Hs.
  destruct (negb _); reflexivity.
Qed.

(** (C34) Boundary: a connection of the configuration with fewer than two
    points (none, or a single one) gets no segment from [combLine] and
    [handleDataBeforeDraw], and on every frame, whatever the counter, the
    flow renderer draws nothing for it and does not fail on it. *)
Theorem short_connection_inert lineData st i l :
  Forall (fun l => LineObj.splitLines l = None) lineData -> Projector.init lineData = Some st ->
  nth_error lineData i = Some l -> (List.length (LineObj.points l) < 2)%nat ->
  exists l', nth_error st i = Some l' /\ LineObj.splitLines l' = Some [] /\
    forall fl sz fuel arp, FlowRenderer.draw_line fl sz fuel (FlowRenderer.setSpace arp l') = Some [].
Proof.
  intros Hcfg Hi Hl Hn.
  destruct (SegmentGraph.combLine_segments lineData Hcfg) as (st1 & E1 & L1 & H).
  destruct (H i l Hl) as [Hlen _].
  unfold Projector.init in Hi. rewrite E1 in Hi. simpl in Hi.
  pose proof (Forall2_nth_error _ _ _ i (traverse_opt_Forall2 _ _ _ Hi)) as F.
  unfold segs_of in Hlen.
  destruct (nth_error st1 i) as [l1|] eqn:E.
  2:{ apply nth_error_None in E. assert (i < List.length lineData)%nat by
        (apply nth_error_Some; congruence). lia. }
  destruct (nth_error st i) as [l'|]; [|contradiction].
  destruct (Projector.project_line_some _ _ F) as (ss & ss' & Hs & Hp & ->).
  rewrite Hs in Hlen. destruct ss; [|simpl in Hlen; lia]. injection Hp as <-.
  exists (LineObj.set_splitLines [] (LineObj.set_originLength 0 l1)).
  split; [reflexivity|]. split; [reflexivity|]. intros. now apply draw_line_no_segments.
Qed.

(** The test's callback constructs its object: stopped, with both canvases
    empty and the counter at [0]. *)
Example test_callback_constructs :
  exists s, test_callback = Some (default_config test_imgData, s) /\
    frames s = [] /\ arrowAnimation s = None /\ main s = [] /\ flow s = [] /\ arrowRunPx s = 0%Q.
Proof. eexists. vm_compute. repeat split; reflexivity. Qed.

(** ** Witnesses *)

(** The test's connection is the horizontal scenario: the object the
    test's callback builds holds one segment of length [200] at angle [0];
    the design's vertical connection from [(200, 200)] to [(200, 400)] gets
    the angle [PI/2]. *)
Lemma init_axis_scenarios_witness :
  ~ (200 == 400)%Q /\
  (exists s l v d a, test_callback = Some (default_config test_imgData, s) /\
    lineData s = [l] /\ LineObj.splitLines l = Some [v] /\
    SplitLine.length v = Some d /\ (d == 200)%Q /\ SplitLine.angle v = Some a /\ angle_value a = Some 0%R) /\
  (exists l v d a,
    Projector.init [LineObj.config [mkCoord 200 200; mkCoord 200 400] "down" None None] = Some [l] /\
    LineObj.splitLines l = Some [v] /\ SplitLine.length v = Some d /\ (d == 200)%Q /\
    SplitLine.angle v = Some a /\ angle_value a = Some (PI / 2)%R).
Proof.
  assert (H : ~ (200 == 400)%Q) by discriminate. split; [exact H|split].
  - destruct (proj1 init_axis_scenarios 200 400 200 "right"%string None None H)
      as (l & v & d & a & Hi & Hs & Hl & Hd & Ha & Hv & _).
    exists (mkState [l] 0 None [] [] 1 [] [] []), l, v, d, a.
    unfold test_callback, create, test_lineData. rewrite Hi.
    repeat split; assumption.
  - destruct (proj2 init_axis_scenarios 200 200 400 "down"%string None None H)
      as (l & v & d & a & Hi & Hs & Hl & Hd & Ha & Hv & _).
    exists l, v, d, a. repeat split; assumption.
Defined.

(** A configuration with a one-point connection beside the test's. *)
Lemma short_connection_inert_witness :
  let cfg := [LineObj.config [mkCoord 200 200; mkCoord 400 200] "right" None None;
              LineObj.config [mkCoord 50 50] "up" None None] in
  Forall (fun l => LineObj.splitLines l = None) cfg /\
  Projector.init cfg = Some (dflt [] (Projector.init cfg)) /\
  nth_error cfg 1 = Some (LineObj.config [mkCoord 50 50] "up" None None) /\
  (List.length (LineObj.points (LineObj.config [mkCoord 50 50] "up" None None)) < 2)%nat /\
  exists l', nth_error (dflt [] (Projector.init cfg)) 1 = Some l' /\ LineObj.splitLines l' = Some [] /\
    forall fl sz fuel arp, FlowRenderer.draw_line fl sz fuel (FlowRenderer.setSpace arp l') = Some [].
Proof.
  intros cfg. split; [repeat constructor|]. split; [vm_compute; reflexivity|].
  split; [reflexivity|]. split; [simpl; lia|].
  apply (short_connection_inert cfg _ 1 (LineObj.config [mkCoord 50 50] "up" None None)); [repeat constructor|vm_compute; reflexivity|reflexivity|simpl; lia].
Defined.

End TestScenarios.
